(** * cr0n-engine: scoring, bucketing, weight learning and consensus

    A shallow embedding of the closed learning loop of cr0n-engine
    (TypeScript) and the properties of its specification.

    Numbers.  A finite JavaScript number is the rational it denotes
    ([Q]); NaN and the two infinities are added where the code can produce
    them ([Num.num]).  Arithmetic is modelled at two levels.  The modules
    [WeightAdjuster] and [ModelWeightManager] compute with exact
    rationals; they carry the properties that do not depend on how a
    quotient is rounded.  The modules [WeightAdjuster64] and
    [ModelWeightManager64], and the agreement score of [ConsensusEngine],
    round the result of every operation to binary64 ([F64]: round to
    nearest, ties to even, gradual underflow, overflow to infinity), as
    the code does; they carry the properties about sums of rounded
    weights, where a tie decided the other way changes the result.  The
    scorer takes a logarithm, so its result is a real number ([R]).

    Strings.  A string is a sequence of code units.  [toLowerCase] and
    [slice] depend on the Unicode tables of the runtime and on the UTF-16
    encoding; the consensus engine takes them as parameters ([JSString]),
    with the ASCII instance for evaluation. *)

From Stdlib Require Import ZArith QArith Qround Qabs Qpower Lia List String Ascii Bool.
From Stdlib Require Import Permutation Sorted.
From Stdlib Require Import DecimalString.
From Stdlib Require Import Reals Qreals Lra Lqa.
Import ListNotations.

Local Open Scope Q_scope.

(* ================================================================== *)
(** * Part I: the program *)
(* ================================================================== *)

(** ** JavaScript numbers and [Math] *)

Module Num.

(** [Math.max] and [Math.min] on finite numbers. *)
Definition max (a b : Q) : Q := if Qlt_le_dec a b then b else a.
Definition min (a b : Q) : Q := if Qlt_le_dec b a then b else a.

(** [Math.round]: the nearest integer, a tie going towards +infinity. *)
Definition round (x : Q) : Z := Qfloor (x + (1 # 2)).

(** [Math.round(x * 10000) / 10000]. *)
Definition round4 (x : Q) : Q := inject_Z (round (x * 10000)) / 10000.

Definition abs (x : Q) : Q := Qabs x.

(** [x === 0], [a < b], [a <= b] as booleans. *)
Definition is_zero (x : Q) : bool := Qeq_bool x 0.
Definition ltb (a b : Q) : bool := negb (Qle_bool b a).
Definition leb (a b : Q) : bool := Qle_bool a b.

(** A number as a division can leave it: finite, NaN or infinite. *)
Inductive num : Type :=
| Fin (q : Q)
| NaN
| PInf
| NInf.

(** [a / b] for finite [a] and [b]. *)
Definition div (a b : Q) : num :=
  if is_zero b then
    (if is_zero a then NaN else if ltb 0 a then PInf else NInf)
  else Fin (a / b).

(** [Math.max(x, y)] and [Math.min(x, y)] with [y] finite: NaN wins. *)
Definition nmax (x : num) (y : Q) : num :=
  match x with
  | Fin q => Fin (max q y)
  | NaN => NaN
  | PInf => PInf
  | NInf => Fin y
  end.

Definition nmin (x : num) (y : Q) : num :=
  match x with
  | Fin q => Fin (min q y)
  | NaN => NaN
  | PInf => Fin y
  | NInf => NInf
  end.

(** [x + y]. *)
Definition nadd (x y : num) : num :=
  match x, y with
  | Fin a, Fin b => Fin (a + b)
  | NaN, _ | _, NaN => NaN
  | PInf, NInf | NInf, PInf => NaN
  | PInf, _ | _, PInf => PInf
  | NInf, _ | _, NInf => NInf
  end.

(** [x / n] for a finite [n > 0]. *)
Definition ndiv_pos (x : num) (n : Q) : num :=
  match x with
  | Fin a => Fin (a / n)
  | other => other
  end.

(** [x > y] and [x >= y] with [y] finite; any comparison with NaN is
    false. *)
Definition ngtb (x : num) (y : Q) : bool :=
  match x with
  | Fin a => ltb y a
  | PInf => true
  | NaN | NInf => false
  end.

Definition ngeb (x : num) (y : Q) : bool :=
  match x with
  | Fin a => leb y a
  | PInf => true
  | NaN | NInf => false
  end.

End Num.

(** ** Binary64 arithmetic

    A binary64 number is the rational it denotes.  [nearest] rounds a
    rational to the nearest binary64 number, ties to even: 53 significant
    bits, the least exponent that of the subnormal numbers.  [rnd] adds
    the overflow to an infinity.  Each operation below is the exact
    operation followed by [rnd], as IEEE 754 defines it.  The sign of a
    zero is not modelled: no division of this code has a divisor that can
    be a negative zero. *)

Module F64.
Import Num.

Definition pow2 (e : Z) : Q := Qpower 2 e.

(** The position of the leading bit of [x <> 0]: the [z] with
    [2^z <= |x| < 2^(z+1)]. *)
Definition ilog2 (x : Q) : Z :=
  let e := (Z.log2 (Z.abs (Qnum x)) - Z.log2 (Zpos (Qden x)))%Z in
  if Qle_bool (pow2 e) (Qabs x) then e else (e - 1)%Z.

(** The nearest integer, a tie going to the even one. *)
Definition rne (x : Q) : Z :=
  let f := Qfloor x in
  match Qcompare (x - inject_Z f) (1 # 2) with
  | Lt => f
  | Gt => (f + 1)%Z
  | Eq => if Z.even f then f else (f + 1)%Z
  end.

(** The exponent of the last place of the binary64 numbers around [x]. *)
Definition exponent (x : Q) : Z := Z.max (ilog2 x - 52) (-1074).

Definition nearest (x : Q) : Q :=
  if Qeq_bool x 0 then 0
  else Qred (inject_Z (rne (x / pow2 (exponent x))) * pow2 (exponent x)).

Definition rnd (x : Q) : num :=
  let y := nearest x in
  if Qle_bool (pow2 1024) y then PInf
  else if Qle_bool y (- pow2 1024) then NInf
  else Fin y.

(** The binary64 number that a decimal literal of the source denotes. *)
Definition dec (q : Q) : Q := nearest q.

(** Unit roundoff, half the least positive binary64 number, and a bound
    below which the sum of five numbers cannot overflow. *)
Definition u : Q := pow2 (-53).
Definition eta : Q := pow2 (-1075).
Definition huge : Q := pow2 1019.

(** An integer multiple of 2^-1074, the least positive binary64 number:
    every binary64 number is one. *)
Definition on_lattice (q : Q) : Prop :=
  exists k : Z, q == inject_Z k * pow2 (-1074).

Definition on_latticeb (q : Q) : bool :=
  (2 ^ 1074 mod Zpos (Qden q) =? 0)%Z.

Definition opp (x : num) : num :=
  match x with
  | Fin a => Fin (- a)
  | NaN => NaN
  | PInf => NInf
  | NInf => PInf
  end.

Definition add (x y : num) : num :=
  match x, y with
  | Fin a, Fin b => rnd (a + b)
  | NaN, _ | _, NaN => NaN
  | PInf, NInf | NInf, PInf => NaN
  | PInf, _ | _, PInf => PInf
  | NInf, _ | _, NInf => NInf
  end.

Definition sub (x y : num) : num := add x (opp y).

(** The sign of [a] given to an infinity; [0 * Infinity] is NaN. *)
Definition signed (a : Q) (pos : bool) : num :=
  if is_zero a then NaN
  else if Bool.eqb (ltb 0 a) pos then PInf else NInf.

Definition mul (x y : num) : num :=
  match x, y with
  | Fin a, Fin b => rnd (a * b)
  | NaN, _ | _, NaN => NaN
  | Fin a, PInf | PInf, Fin a => signed a true
  | Fin a, NInf | NInf, Fin a => signed a false
  | PInf, PInf | NInf, NInf => PInf
  | PInf, NInf | NInf, PInf => NInf
  end.

Definition div (x y : num) : num :=
  match x, y with
  | Fin a, Fin b =>
      if is_zero b then
        (if is_zero a then NaN else if ltb 0 a then PInf else NInf)
      else rnd (a / b)
  | NaN, _ | _, NaN => NaN
  | Fin _, PInf | Fin _, NInf => Fin 0
  | PInf, Fin b => if ltb b 0 then NInf else PInf
  | NInf, Fin b => if ltb b 0 then PInf else NInf
  | PInf, PInf | PInf, NInf | NInf, PInf | NInf, NInf => NaN
  end.

(** [x < y], [x >= y], [x === 0]: a comparison with NaN is false. *)
Definition ltb (x y : num) : bool :=
  match x, y with
  | NaN, _ | _, NaN => false
  | Fin a, Fin b => Num.ltb a b
  | _, NInf => false
  | NInf, _ => true
  | PInf, _ => false
  | _, PInf => true
  end.

Definition geb (x y : num) : bool :=
  match x, y with
  | NaN, _ | _, NaN => false
  | _, _ => negb (ltb x y)
  end.

Definition is_zero (x : num) : bool :=
  match x with
  | Fin a => Num.is_zero a
  | _ => false
  end.

(** [Math.max], [Math.min], [Math.abs], [Math.round]. *)
Definition max (x y : num) : num :=
  match x, y with
  | NaN, _ | _, NaN => NaN
  | _, _ => if ltb x y then y else x
  end.

Definition min (x y : num) : num :=
  match x, y with
  | NaN, _ | _, NaN => NaN
  | _, _ => if ltb y x then y else x
  end.

Definition abs (x : num) : num :=
  match x with
  | Fin a => Fin (Qabs a)
  | NaN => NaN
  | PInf | NInf => PInf
  end.

Definition round (x : num) : num :=
  match x with
  | Fin a => Fin (inject_Z (Num.round a))
  | other => other
  end.

(** [Math.round(x * 10000) / 10000], and the binary64 number nearest to
    [k / 10000]. *)
Definition round4 (x : num) : num :=
  div (round (mul x (Fin 10000))) (Fin 10000).

Definition grid (k : Z) : num := div (Fin (inject_Z k)) (Fin 10000).

(** [values.reduce((sum, v) => sum + v, 0)]. *)
Definition total (values : list num) : num := fold_left add values (Fin 0).

(** [Math.round((x / total) * 10000) / 10000]. *)
Definition share (total x : num) : num := round4 (div x total).

(** The exact sum of a list of rationals, its length as a rational, and
    the sum of a list of integers. *)
Definition qsum (qs : list Q) : Q := fold_right Qplus 0 qs.
Definition len (qs : list Q) : Q := inject_Z (Z.of_nat (List.length qs)).
Definition zsum (ns : list Z) : Z := fold_right Z.add 0%Z ns.

(** The integer [n] is 10000 times the share [q / S], rounded: at most
    0.500001 away from it (a half for [Math.round], the rest for the
    binary64 operations before it). *)
Definition near (S q : Q) (n : Z) : Prop :=
  10000 * (q / S) - (500001 # 1000000) <= inject_Z n
    <= 10000 * (q / S) + (500001 # 1000000).

End F64.

(** ** Strings *)

Module Str.

(** [toLowerCase] on the ASCII letters. *)
Definition lower_ascii (c : ascii) : ascii :=
  let n := nat_of_ascii c in
  if andb (Nat.leb 65 n) (Nat.leb n 90) then ascii_of_nat (n + 32) else c.

Fixpoint toLowerCase (s : string) : string :=
  match s with
  | EmptyString => EmptyString
  | String c r => String (lower_ascii c) (toLowerCase r)
  end.

(** [s.slice(0, n)]. *)
Definition slice0 (n : nat) (s : string) : string := substring 0 n s.

(** [s.split('/').pop()]: what follows the last slash. *)
Fixpoint pop_aux (acc s : string) : string :=
  match s with
  | EmptyString => acc
  | String c r =>
      if Ascii.eqb c "/"%char then pop_aux EmptyString r
      else pop_aux (acc ++ String c EmptyString) r
  end.

Definition split_pop (s : string) : string := pop_aux EmptyString s.

(** [hay.includes(needle)]. *)
Fixpoint includes (needle hay : string) : bool :=
  if prefix needle hay then true
  else match hay with
       | EmptyString => false
       | String _ r => includes needle r
       end.

(** An integer in decimal, as template literals print it. *)
Definition of_Z (z : Z) : string := NilZero.string_of_int (Z.to_int z).

(** [x.toFixed(0)] for [|x| < 1e21]: the nearest integer, a tie going
    away from zero, the sign kept even in front of a zero. *)
Definition toFixed0 (x : Q) : string :=
  if Num.ltb x 0 then ("-" ++ of_Z (Num.round (- x)))%string
  else of_Z (Num.round x).

End Str.

(** ** Arrays *)

Module Arr.

(** [arr.sort((a, b) => key(b) - key(a))]: descending by [key], stable. *)
Fixpoint insert_desc {A : Type} (key : A -> Q) (x : A) (l : list A) : list A :=
  match l with
  | [] => [x]
  | y :: t =>
      if Num.ltb (key x) (key y) then y :: insert_desc key x t
      else x :: y :: t
  end.

Definition sort_desc {A : Type} (key : A -> Q) (l : list A) : list A :=
  fold_right (insert_desc key) [] l.

(** [[...new Set(l)]]: the first occurrence of each element, in order. *)
Definition add_new {A : Type} (eqb : A -> A -> bool) (acc : list A) (x : A)
    : list A :=
  if existsb (eqb x) acc then acc else acc ++ [x].

Definition uniq {A : Type} (eqb : A -> A -> bool) (l : list A) : list A :=
  fold_left (add_new eqb) l [].

(** [a] stands somewhere before [b] in the list. *)
Fixpoint before {A : Type} (a b : A) (l : list A) : Prop :=
  match l with
  | [] => False
  | y :: t => (y = a /\ In b t) \/ before a b t
  end.

(** Descending by [key]. *)
Definition desc {A : Type} (key : A -> Q) (l : list A) : Prop :=
  StronglySorted (fun x y => key y <= key x) l.

End Arr.

(** ** Insertion-ordered maps

    A JavaScript object used as a record of cells and a [Map] both keep
    their keys in insertion order; writing to a key that is present keeps
    its place. *)

Module AList.
Section WithKey.
Context {K V : Type} (eqb : K -> K -> bool).

Fixpoint get (m : list (K * V)) (k : K) : option V :=
  match m with
  | [] => None
  | (k', v) :: t => if eqb k k' then Some v else get t k
  end.

Fixpoint set (m : list (K * V)) (k : K) (v : V) : list (K * V) :=
  match m with
  | [] => [(k, v)]
  | (k', v') :: t =>
      if eqb k k' then (k', v) :: t else (k', v') :: set t k v
  end.

Definition keys (m : list (K * V)) : list K := map fst m.
Definition values (m : list (K * V)) : list V := map snd m.
End WithKey.
End AList.

(** ** Core types and constants (core/types.ts, core/constants.ts) *)

Inductive ActionBucket : Type :=
| CTR_FIX
| STRIKING_DISTANCE
| RELEVANCE_REBUILD
| LOCAL_BOOST
| MONITOR.

Definition ActionBucket_eqb (a b : ActionBucket) : bool :=
  match a, b with
  | CTR_FIX, CTR_FIX
  | STRIKING_DISTANCE, STRIKING_DISTANCE
  | RELEVANCE_REBUILD, RELEVANCE_REBUILD
  | LOCAL_BOOST, LOCAL_BOOST
  | MONITOR, MONITOR => true
  | _, _ => false
  end.

Definition bucket_name (b : ActionBucket) : string :=
  match b with
  | CTR_FIX => "CTR_FIX"
  | STRIKING_DISTANCE => "STRIKING_DISTANCE"
  | RELEVANCE_REBUILD => "RELEVANCE_REBUILD"
  | LOCAL_BOOST => "LOCAL_BOOST"
  | MONITOR => "MONITOR"
  end.

Inductive ModelId : Type := claude | openai | gemini | grok.

Definition ModelId_eqb (a b : ModelId) : bool :=
  match a, b with
  | claude, claude | openai, openai | gemini, gemini | grok, grok => true
  | _, _ => false
  end.

Record WeightConfig : Type := mkWeights {
  impressions : Q;
  position : Q;
  ctrGap : Q;
  conversions : Q;
  freshness : Q
}.

(** [keyof WeightConfig]. *)
Inductive WeightKey : Type :=
| Kimpressions | Kposition | KctrGap | Kconversions | Kfreshness.

Definition wget (w : WeightConfig) (k : WeightKey) : Q :=
  match k with
  | Kimpressions => impressions w
  | Kposition => position w
  | KctrGap => ctrGap w
  | Kconversions => conversions w
  | Kfreshness => freshness w
  end.

Definition wset (w : WeightConfig) (k : WeightKey) (v : Q) : WeightConfig :=
  match k with
  | Kimpressions => mkWeights v (position w) (ctrGap w) (conversions w) (freshness w)
  | Kposition => mkWeights (impressions w) v (ctrGap w) (conversions w) (freshness w)
  | KctrGap => mkWeights (impressions w) (position w) v (conversions w) (freshness w)
  | Kconversions => mkWeights (impressions w) (position w) (ctrGap w) v (freshness w)
  | Kfreshness => mkWeights (impressions w) (position w) (ctrGap w) (conversions w) v
  end.

(** [Object.values(weights)], in key order. *)
Definition wvalues (w : WeightConfig) : list Q :=
  [impressions w; position w; ctrGap w; conversions w; freshness w].

Record LearningConfig : Type := mkLearning {
  learningRate : Q;
  minWeight : Q;
  maxWeight : Q
}.

Record WeightAdjustment : Type := mkAdjustment {
  adj_weight : WeightKey;
  adj_oldValue : Q;
  adj_newValue : Q;
  adj_reason : string
}.

Definition DEFAULT_WEIGHTS : WeightConfig :=
  mkWeights (20 # 100) (20 # 100) (20 # 100) (20 # 100) (20 # 100).

Definition DEFAULT_LEARNING_CONFIG : LearningConfig :=
  mkLearning (15 # 1000) (5 # 100) (50 # 100).

Inductive Metric : Type := Mctr | Mposition | Mimpressions | Mclicks.

Record Criteria : Type := mkCriteria {
  metric : Metric;
  improvement : Q;
  description : string
}.

Definition SUCCESS_CRITERIA (b : ActionBucket) : Criteria :=
  match b with
  | CTR_FIX => mkCriteria Mctr (20 # 100) "CTR improved by 20% or more"
  | STRIKING_DISTANCE => mkCriteria Mposition 2 "Position improved by 2+ spots"
  | RELEVANCE_REBUILD => mkCriteria Mimpressions (50 # 100) "Impressions grew by 50% or more"
  | LOCAL_BOOST => mkCriteria Mclicks (30 # 100) "Clicks improved by 30% or more"
  | MONITOR => mkCriteria Mposition 0 "Position maintained or improved"
  end.

Inductive ActionStatus : Type :=
| St_pending | St_in_progress | St_completed | St_failed.

(** The fields of [SEOAction] that the learning code reads. *)
Record SEOAction : Type := mkAction {
  siteId : string;
  url : string;
  actionType : ActionBucket;
  actionStatus : ActionStatus;
  originalClicks : Q;
  originalImpressions : Q;
  originalCtr : Q;
  originalPosition : Q;
  originalConversions : Q;
  resultClicks : option Q;
  resultImpressions : option Q;
  resultCtr : option Q;
  resultPosition : option Q;
  resultConversions : option Q;
  learningApplied : bool;
  modelUsed : option ModelId
}.

(** [x ?? d]. *)
Definition orElse {A : Type} (x : option A) (d : A) : A :=
  match x with
  | Some v => v
  | None => d
  end.

(** ** Content weight adjuster (learning/weight-adjuster.ts) *)

Module WeightAdjuster.

(** The object's fields. *)
Record t : Type := mk {
  weights : WeightConfig;
  config : LearningConfig;
  learningCycles : Z
}.

(** The adjuster together with the action objects it is handed.  The
    array [completedActions] holds references into [store]; a write to
    an action's field would show as a changed [store]. *)
Record World : Type := mkWorld {
  self : t;
  store : nat -> SEOAction
}.

Record Evaluation : Type := mkEvaluation {
  success : bool;
  score : Num.num;
  criteria : string
}.

Record LearningResult : Type := mkResult {
  newWeights : WeightConfig;
  adjustments : list WeightAdjustment;
  totalLearningCycles : Z
}.

(** [new WeightAdjuster(weights, config, learningCycles)] with every
    field given. *)
Definition create (w : WeightConfig) (c : LearningConfig) (n : Z) : t :=
  mk w c n.

(** [baseValue > 0 ? (resultValue - baseValue) / baseValue : 0]. *)
Definition relative_delta (baseValue resultValue : Q) : Q :=
  if Num.ltb 0 baseValue then (resultValue - baseValue) / baseValue else 0.

Definition evaluateActionSuccess (action : SEOAction) : Evaluation :=
  let c := SUCCESS_CRITERIA (actionType action) in
  let delta :=
    match metric c with
    | Mctr =>
        let baseValue := originalCtr action in
        relative_delta baseValue (orElse (resultCtr action) baseValue)
    | Mposition =>
        let baseValue := originalPosition action in
        baseValue - orElse (resultPosition action) baseValue
    | Mimpressions =>
        let baseValue := originalImpressions action in
        relative_delta baseValue (orElse (resultImpressions action) baseValue)
    | Mclicks =>
        let baseValue := originalClicks action in
        relative_delta baseValue (orElse (resultClicks action) baseValue)
    end in
  let successScore := Num.nmin (Num.nmax (Num.div delta (improvement c)) 0) 1 in
  mkEvaluation (Num.leb (improvement c) delta) successScore (description c).

Definition getWeightKeyForBucket (bucket : ActionBucket) : WeightKey :=
  match bucket with
  | CTR_FIX => KctrGap
  | STRIKING_DISTANCE => Kposition
  | RELEVANCE_REBUILD => Kimpressions
  | LOCAL_BOOST => Kconversions
  | MONITOR => Kfreshness
  end.

Definition applyAdjustment (a : t) (weightKey : WeightKey) (delta : Q)
    (reason : string) : option WeightAdjustment * t :=
  let c := config a in
  let oldValue := wget (weights a) weightKey in
  let adjustment := delta * learningRate c in
  let newValue := oldValue + adjustment in
  let newValue := Num.max (minWeight c) (Num.min (maxWeight c) newValue) in
  if Num.ltb (Num.abs (newValue - oldValue)) (1 # 10000) then (None, a)
  else
    (Some (mkAdjustment weightKey (Num.round4 oldValue) (Num.round4 newValue) reason),
     mk (wset (weights a) weightKey newValue) (config a) (learningCycles a)).

(** [Object.values(this.weights).reduce((sum, val) => sum + val, 0)]. *)
Definition total (w : WeightConfig) : Q :=
  fold_left Qplus (wvalues w) 0.

Definition normalizeWeights (a : t) : t :=
  let w := weights a in
  let tot := total w in
  if Num.is_zero tot then a
  else
    mk (mkWeights (Num.round4 (impressions w / tot))
                  (Num.round4 (position w / tot))
                  (Num.round4 (ctrGap w / tot))
                  (Num.round4 (conversions w / tot))
                  (Num.round4 (freshness w / tot)))
       (config a) (learningCycles a).

Definition reason_of (action : SEOAction) (ok : bool) : string :=
  (bucket_name (actionType action)
     ++ (if ok then " success on " else " did not meet criteria on ")
     ++ Str.split_pop (url action))%string.

(** The loop body past its guard: evaluate the action and adjust the
    weight of its bucket. *)
Definition learn_action (acc : list WeightAdjustment * World)
    (action : SEOAction) : list WeightAdjustment * World :=
  let '(adjs, w) := acc in
  let evaluation := evaluateActionSuccess action in
  let weightKey := getWeightKeyForBucket (actionType action) in
  let delta := if success evaluation then 1 else - (1 # 2) in
  let '(adjustment, self') :=
    applyAdjustment (self w) weightKey delta
                    (reason_of action (success evaluation)) in
  let w' := mkWorld self' (store w) in
  match adjustment with
  | Some adj => (adjs ++ [adj], w')
  | None => (adjs, w')
  end.

(** One turn of the loop over [completedActions]. *)
Definition cycle_step (acc : list WeightAdjustment * World) (ref : nat)
    : list WeightAdjustment * World :=
  let action := store (snd acc) ref in
  if learningApplied action then acc else learn_action acc action.

Definition runLearningCycle (completedActions : list nat) (w : World)
    : LearningResult * World :=
  let '(adjs, w1) := fold_left cycle_step completedActions ([], w) in
  let a2 := normalizeWeights (self w1) in
  let a3 := mk (weights a2) (config a2) (learningCycles a2 + 1) in
  (mkResult (weights a3) adjs (learningCycles a3), mkWorld a3 (store w1)).

Definition getWeights (a : t) : WeightConfig := weights a.

(** Every component within the configured clamp. *)
Definition in_bounds (c : LearningConfig) (w : WeightConfig) : Prop :=
  forall k, minWeight c <= wget w k <= maxWeight c.

(** The sum of the five components, and the two sum conditions. *)
Definition wsum (w : WeightConfig) : Q :=
  impressions w + position w + ctrGap w + conversions w + freshness w.

Definition sums_to_one (w : WeightConfig) : Prop :=
  1 - (1 # 10000) <= wsum w <= 1 + (1 # 10000).

(** A multiple of 1e-4. *)
Definition on_grid (q : Q) : Prop := exists z : Z, q == inject_Z z / 10000.

(** A store holding the given actions at the references 0, 1, ... *)
Definition store_of (l : list SEOAction) (d : SEOAction) : nat -> SEOAction :=
  fun ref => nth ref l d.

End WeightAdjuster.

(** ** Content weight adjuster in binary64 (learning/weight-adjuster.ts)

    The same class with every operation rounded as the code rounds it.
    The weights are binary64 values, NaN and the infinities included; the
    configuration and the metrics of an action are finite. *)

Module WeightAdjuster64.
Import Num.

(** [WeightConfig] as the object holds it. *)
Record Weights : Type := mkWeights64 {
  w_impressions : num;
  w_position : num;
  w_ctrGap : num;
  w_conversions : num;
  w_freshness : num
}.

Definition wget (w : Weights) (k : WeightKey) : num :=
  match k with
  | Kimpressions => w_impressions w
  | Kposition => w_position w
  | KctrGap => w_ctrGap w
  | Kconversions => w_conversions w
  | Kfreshness => w_freshness w
  end.

Definition wset (w : Weights) (k : WeightKey) (v : num) : Weights :=
  match k with
  | Kimpressions =>
      mkWeights64 v (w_position w) (w_ctrGap w) (w_conversions w) (w_freshness w)
  | Kposition =>
      mkWeights64 (w_impressions w) v (w_ctrGap w) (w_conversions w) (w_freshness w)
  | KctrGap =>
      mkWeights64 (w_impressions w) (w_position w) v (w_conversions w) (w_freshness w)
  | Kconversions =>
      mkWeights64 (w_impressions w) (w_position w) (w_ctrGap w) v (w_freshness w)
  | Kfreshness =>
      mkWeights64 (w_impressions w) (w_position w) (w_ctrGap w) (w_conversions w) v
  end.

(** [Object.values(weights)], in key order. *)
Definition wvalues (w : Weights) : list num :=
  [w_impressions w; w_position w; w_ctrGap w; w_conversions w; w_freshness w].

(** The binary64 vector that number literals of the given values
    denote. *)
Definition of_config (w : WeightConfig) : Weights :=
  mkWeights64 (Fin (F64.dec (impressions w))) (Fin (F64.dec (position w)))
              (Fin (F64.dec (ctrGap w))) (Fin (F64.dec (conversions w)))
              (Fin (F64.dec (freshness w))).

Record t : Type := mk {
  weights : Weights;
  config : LearningConfig;
  learningCycles : Z
}.

Record World : Type := mkWorld {
  self : t;
  store : nat -> SEOAction
}.

Record Evaluation : Type := mkEvaluation {
  success : bool;
  score : num;
  criteria : string
}.

Record Adjustment : Type := mkAdjustment64 {
  a_weight : WeightKey;
  a_oldValue : num;
  a_newValue : num;
  a_reason : string
}.

Record LearningResult : Type := mkResult {
  newWeights : Weights;
  adjustments : list Adjustment;
  totalLearningCycles : Z
}.

Definition create (w : Weights) (c : LearningConfig) (n : Z) : t := mk w c n.

(** [baseValue > 0 ? (resultValue - baseValue) / baseValue : 0]. *)
Definition relative_delta (baseValue resultValue : Q) : num :=
  if Num.ltb 0 baseValue
  then F64.div (F64.sub (Fin resultValue) (Fin baseValue)) (Fin baseValue)
  else Fin 0.

Definition evaluateActionSuccess (action : SEOAction) : Evaluation :=
  let c := SUCCESS_CRITERIA (actionType action) in
  let improvement := Fin (F64.dec (improvement c)) in
  let delta :=
    match metric c with
    | Mctr =>
        let baseValue := originalCtr action in
        relative_delta baseValue (orElse (resultCtr action) baseValue)
    | Mposition =>
        let baseValue := originalPosition action in
        F64.sub (Fin baseValue) (Fin (orElse (resultPosition action) baseValue))
    | Mimpressions =>
        let baseValue := originalImpressions action in
        relative_delta baseValue (orElse (resultImpressions action) baseValue)
    | Mclicks =>
        let baseValue := originalClicks action in
        relative_delta baseValue (orElse (resultClicks action) baseValue)
    end in
  let successScore :=
    F64.min (F64.max (F64.div delta improvement) (Fin 0)) (Fin 1) in
  mkEvaluation (F64.geb delta improvement) successScore (description c).

Definition applyAdjustment (a : t) (weightKey : WeightKey) (delta : Q)
    (reason : string) : option Adjustment * t :=
  let c := config a in
  let oldValue := wget (weights a) weightKey in
  let adjustment := F64.mul (Fin delta) (Fin (learningRate c)) in
  let newValue := F64.add oldValue adjustment in
  let newValue :=
    F64.max (Fin (minWeight c)) (F64.min (Fin (maxWeight c)) newValue) in
  if F64.ltb (F64.abs (F64.sub newValue oldValue)) (Fin (F64.dec (1 # 10000)))
  then (None, a)
  else
    (Some (mkAdjustment64 weightKey (F64.round4 oldValue) (F64.round4 newValue)
             reason),
     mk (wset (weights a) weightKey newValue) (config a) (learningCycles a)).

Definition normalizeWeights (a : t) : t :=
  let w := weights a in
  let total := F64.total (wvalues w) in
  if F64.is_zero total then a
  else
    mk (mkWeights64 (F64.share total (w_impressions w))
                    (F64.share total (w_position w))
                    (F64.share total (w_ctrGap w))
                    (F64.share total (w_conversions w))
                    (F64.share total (w_freshness w)))
       (config a) (learningCycles a).

(** The loop body past its guard. *)
Definition learn_action (acc : list Adjustment * World) (action : SEOAction)
    : list Adjustment * World :=
  let '(adjs, w) := acc in
  let evaluation := evaluateActionSuccess action in
  let weightKey := WeightAdjuster.getWeightKeyForBucket (actionType action) in
  let delta := if success evaluation then 1 else - (1 # 2) in
  let '(adjustment, self') :=
    applyAdjustment (self w) weightKey delta
      (WeightAdjuster.reason_of action (success evaluation)) in
  let w' := mkWorld self' (store w) in
  match adjustment with
  | Some adj => (adjs ++ [adj], w')
  | None => (adjs, w')
  end.

Definition cycle_step (acc : list Adjustment * World) (ref : nat)
    : list Adjustment * World :=
  let action := store (snd acc) ref in
  if learningApplied action then acc else learn_action acc action.

Definition runLearningCycle (completedActions : list nat) (w : World)
    : LearningResult * World :=
  let '(adjs, w1) := fold_left cycle_step completedActions ([], w) in
  let a2 := normalizeWeights (self w1) in
  let a3 := mk (weights a2) (config a2) (learningCycles a2 + 1) in
  (mkResult (weights a3) adjs (learningCycles a3), mkWorld a3 (store w1)).

(** The vector that [runLearningCycle] holds when its loop ends, before
    it renormalises. *)
Definition held_after_loop (completedActions : list nat) (w : World) : Weights :=
  weights (self (snd (fold_left cycle_step completedActions ([], w)))).

(** Every component a finite binary64 number within the configured
    clamp. *)
Definition in_bounds (c : LearningConfig) (w : Weights) : Prop :=
  forall k, exists v,
    wget w k = Fin v /\ minWeight c <= v <= maxWeight c /\ F64.on_lattice v.

(** The components of [w] are the finite values [v]. *)
Definition values_are (w : Weights) (v : WeightKey -> Q) : Prop :=
  forall k, wget w k = Fin (v k).

(** The components of [w] are the binary64 numbers nearest to
    [n k / 10000]. *)
Definition on_grid_at (w : Weights) (n : WeightKey -> Z) : Prop :=
  forall k, wget w k = F64.grid (n k).

Definition sum5 {A : Type} (plus : A -> A -> A) (f : WeightKey -> A) : A :=
  plus (plus (plus (plus (f Kimpressions) (f Kposition)) (f KctrGap))
             (f Kconversions)) (f Kfreshness).

(** The function on keys with the five given values. *)
Definition keyed {A : Type} (a b c d e : A) (k : WeightKey) : A :=
  match k with
  | Kimpressions => a
  | Kposition => b
  | KctrGap => c
  | Kconversions => d
  | Kfreshness => e
  end.

(** The loop invariant: configuration untouched, weights within the
    clamp. *)
Definition loop_inv (w0 : World) (acc : list Adjustment * World) : Prop :=
  config (self (snd acc)) = config (self w0) /\
  in_bounds (config (self w0)) (weights (self (snd acc))).

End WeightAdjuster64.

(** ** Provider weight table (federation/model-weights.ts) *)

Definition model_name (m : ModelId) : string :=
  match m with
  | claude => "claude"
  | openai => "openai"
  | gemini => "gemini"
  | grok => "grok"
  end.

(** A row [Record<ModelId, number>]: its cells in insertion order. *)
Definition Row : Type := list (ModelId * Q).

(** [Record<ActionBucket, Record<ModelId, number>>]. *)
Definition ModelWeights : Type := ActionBucket -> Row.

Definition row_get (r : Row) (m : ModelId) : option Q := AList.get ModelId_eqb r m.
Definition row_set (r : Row) (m : ModelId) (v : Q) : Row := AList.set ModelId_eqb r m v.

(** [weights[bucket] = row]. *)
Definition table_set (t : ModelWeights) (b : ActionBucket) (r : Row) : ModelWeights :=
  fun b' => if ActionBucket_eqb b b' then r else t b'.

Definition uniform_row : Row :=
  [(claude, 25 # 100); (openai, 25 # 100); (gemini, 25 # 100); (grok, 25 # 100)].

Definition DEFAULT_MODEL_WEIGHTS : ModelWeights := fun _ => uniform_row.

Module ModelWeightManager.

(** The manager's only field is the table. *)
Definition t : Type := ModelWeights.

Definition getWeights (this : t) : ModelWeights := this.

Definition getWeight (this : t) (bucket : ActionBucket) (modelId : ModelId) : Q :=
  orElse (row_get (this bucket) modelId) 0.

Definition getTopModel (this : t) (bucket : ActionBucket) : ModelId :=
  fst (fold_left
         (fun (acc : ModelId * Q) (e : ModelId * Q) =>
            if Num.ltb (snd acc) (snd e) then (fst e, snd e) else acc)
         (this bucket) (claude, - (1))).

Definition setWeights (this : t) (weights : ModelWeights) : t := weights.

(** [Object.values(row).reduce((sum, v) => sum + v, 0)]. *)
Definition row_total (r : Row) : Q := fold_left Qplus (AList.values r) 0.

Definition normalizeRow (r : Row) : Row :=
  let total := row_total r in
  if Num.is_zero total then r
  else map (fun e : ModelId * Q => (fst e, Num.round4 (snd e / total))) r.

Definition normalizeBucket (this : t) (bucket : ActionBucket) : t :=
  table_set this bucket (normalizeRow (this bucket)).

Definition adjustWeight (this : t) (bucket : ActionBucket) (modelId : ModelId)
    (delta minWeight maxWeight : Q) : t :=
  let current := orElse (row_get (this bucket) modelId) (25 # 100) in
  let newValue := Num.max minWeight (Num.min maxWeight (current + delta)) in
  let this1 := table_set this bucket (row_set (this bucket) modelId newValue) in
  normalizeBucket this1 bucket.

(** What the specification says of [adjustWeight] on a missing cell:
    the cell counts as 0 before the delta is applied.  Kept beside
    [adjustWeight], which starts from 0.25, for comparison. *)
Definition adjustWeight_missing_as_zero (this : t) (bucket : ActionBucket)
    (modelId : ModelId) (delta minWeight maxWeight : Q) : t :=
  let current := orElse (row_get (this bucket) modelId) 0 in
  let newValue := Num.max minWeight (Num.min maxWeight (current + delta)) in
  let this1 := table_set this bucket (row_set (this bucket) modelId newValue) in
  normalizeBucket this1 bucket.

Definition all_models : list ModelId := [claude; openai; gemini; grok].

End ModelWeightManager.

(** ** Provider weight table in binary64 (federation/model-weights.ts) *)

(** A row whose cells are binary64 values. *)
Definition Row64 : Type := list (ModelId * Num.num).
Definition ModelWeights64 : Type := ActionBucket -> Row64.

Module ModelWeightManager64.
Import Num.

Definition t : Type := ModelWeights64.

Definition row_get (r : Row64) (m : ModelId) : option num :=
  AList.get ModelId_eqb r m.
Definition row_set (r : Row64) (m : ModelId) (v : num) : Row64 :=
  AList.set ModelId_eqb r m v.

Definition table_set (this : t) (b : ActionBucket) (r : Row64) : t :=
  fun b' => if ActionBucket_eqb b b' then r else this b'.

(** The binary64 table that number literals of the given values
    denote. *)
Definition of_row (r : Row) : Row64 :=
  map (fun e => (fst e, Fin (F64.dec (snd e)))) r.
Definition of_table (w : ModelWeights) : t := fun b => of_row (w b).

Definition getWeight (this : t) (bucket : ActionBucket) (modelId : ModelId) : num :=
  orElse (row_get (this bucket) modelId) (Fin 0).

Definition normalizeRow (r : Row64) : Row64 :=
  let total := F64.total (AList.values r) in
  if F64.is_zero total then r
  else map (fun e : ModelId * num => (fst e, F64.share total (snd e))) r.

Definition normalizeBucket (this : t) (bucket : ActionBucket) : t :=
  table_set this bucket (normalizeRow (this bucket)).

(** The cell after the clamp, before the row is renormalised. *)
Definition clamped_cell (this : t) (bucket : ActionBucket) (modelId : ModelId)
    (delta minWeight maxWeight : Q) : num :=
  let current := orElse (row_get (this bucket) modelId) (Fin (25 # 100)) in
  F64.max (Fin minWeight) (F64.min (Fin maxWeight) (F64.add current (Fin delta))).

Definition adjustWeight (this : t) (bucket : ActionBucket) (modelId : ModelId)
    (delta minWeight maxWeight : Q) : t :=
  let newValue := clamped_cell this bucket modelId delta minWeight maxWeight in
  let this1 := table_set this bucket (row_set (this bucket) modelId newValue) in
  normalizeBucket this1 bucket.

(** No provider has two cells in the row. *)
Definition well_formed (r : Row64) : Prop := NoDup (AList.keys r).

(** Every cell a finite binary64 number, not negative and at most
    [F64.huge]. *)
Definition cells_in_range (r : Row64) : Prop :=
  forall m x, In (m, x) r ->
    exists v, x = Fin v /\ 0 <= v <= F64.huge /\ F64.on_lattice v.

(** The exact sum of the finite cells of a row. *)
Definition exact_sum (r : Row64) : Q :=
  fold_right (fun e acc => match snd e with Fin v => v + acc | _ => acc end) 0 r.

(** The finite cells of a row, in order. *)
Definition vals (r : Row64) : list Q :=
  map (fun e : ModelId * num => match snd e with Fin v => v | _ => 0 end) r.

(** The row holds, cell by cell, the binary64 numbers nearest to
    [n / 10000] for the integers [ns]. *)
Definition on_grid_at (r : Row64) (ns : list Z) : Prop :=
  map snd r = map F64.grid ns.

End ModelWeightManager64.

(** ** Task router (federation/router.ts) *)

Module TaskRouter.

Inductive Strategy : Type := S_all | S_top2 | S_primary_only.

Record RouteDecision : Type := mkRoute {
  models : list ModelId;
  primary : ModelId;
  strategy : Strategy;
  reason : string
}.

Inductive Error : Type := NoModelsAvailable.

(** The router holds the registry, of which [route] reads the available
    ids, and the weight table. *)
Record t : Type := mk {
  availableIds : list ModelId;
  modelWeights : ModelWeights
}.

(** [bucketWeights[id] ?? 0]. *)
Definition weight_of (bucketWeights : Row) (id : ModelId) : Q :=
  orElse (row_get bucketWeights id) 0.

Definition percent (w : Q) : string := (Str.toFixed0 (w * 100) ++ "%")%string.

Definition route (this : t) (bucket : ActionBucket) : Error + RouteDecision :=
  let ids := availableIds this in
  let bucketWeights := modelWeights this bucket in
  match ids with
  | [] => inl NoModelsAvailable
  | [only] =>
      inr (mkRoute ids only S_primary_only
             ("Only 1 model available (" ++ model_name only ++ ")")%string)
  | first :: _ =>
      let sorted :=
        Arr.sort_desc snd (map (fun id => (id, weight_of bucketWeights id)) ids) in
      let top := hd (first, 0) sorted in
      if Nat.eqb (List.length ids) 2 then
        inr (mkRoute ids (fst top) S_top2
               ("2 models available, using both. Primary: " ++ model_name (fst top)
                  ++ " (" ++ percent (snd top) ++ ")")%string)
      else
        inr (mkRoute ids (fst top) S_all
               (Str.of_Z (Z.of_nat (List.length ids)) ++ " models available. Primary: "
                  ++ model_name (fst top) ++ " (" ++ percent (snd top) ++ ")")%string)
  end.

Definition getPrimaryModel (this : t) (bucket : ActionBucket) : option ModelId :=
  let bucketWeights := modelWeights this bucket in
  fst (fold_left
         (fun (acc : option ModelId * Q) (id : ModelId) =>
            let weight := weight_of bucketWeights id in
            if Num.ltb (snd acc) weight then (Some id, weight) else acc)
         (availableIds this) (hd_error (availableIds this), - (1))).

Definition setModelWeights (this : t) (weights : ModelWeights) : t :=
  mk (availableIds this) weights.

End TaskRouter.

(** ** Pages and briefs (core/types.ts) *)

Module Page.

Inductive Intent : Type :=
| Intent_local | Intent_transactional | Intent_informational | Intent_mixed.

Record t : Type := mk {
  url : string;
  primaryKeyword : string;
  clicks : Q;
  impressions : Q;
  ctr : Q;
  position : Q;
  conversions : Q;
  sessions : Q;
  bounceRate : Q;
  avgSessionDuration : Q;
  intent : Intent;
  isLocalPage : bool;
  localKeywords : list string;
  freshnessScore : Q
}.

End Page.

Module Brief.

Inductive Status : Type :=
| draft | approved | executing | completed | cancelled.

(** [metricsSnapshot], as the adapters fill it. *)
Record Snapshot : Type := mkSnapshot {
  s_clicks : Q;
  s_impressions : Q;
  s_ctr : Q;
  s_position : Q;
  s_conversions : Q
}.

Record t : Type := mk {
  url : string;
  targetKeyword : string;
  bucket : ActionBucket;
  titleRecommendations : list string;
  h1Recommendation : string;
  metaDescription : string;
  targetWordCount : Num.num;
  h2Additions : list string;
  internalLinks : list (string * string);
  priorityTasks : list string;
  schemaStack : list string;
  keywordDensityTarget : string;
  mandatoryPlacements : list string;
  metricsSnapshot : option Snapshot;
  status : Status;
  generatedBy : option ModelId;
  contributingModels : option (list ModelId);
  consensusConfidence : option Num.num
}.

(** The three assignments that tag a brief with federation metadata. *)
Definition tag (b : t) (by_model : ModelId) (models : list ModelId)
    (confidence : Num.num) : t :=
  mk (url b) (targetKeyword b) (bucket b) (titleRecommendations b)
     (h1Recommendation b) (metaDescription b) (targetWordCount b)
     (h2Additions b) (internalLinks b) (priorityTasks b) (schemaStack b)
     (keywordDensityTarget b) (mandatoryPlacements b) (metricsSnapshot b)
     (status b) (Some by_model) (Some models) (Some confidence).

End Brief.

(** ** String primitives of the runtime

    [s.toLowerCase()] folds every cased letter of Unicode and
    [s.slice(0, n)] counts UTF-16 code units; both belong to the runtime,
    not to this repository.  The consensus engine takes them as
    parameters.  [ascii_strings] is the instance for strings of ASCII
    characters. *)

Class JSString : Type := mkJSString {
  toLowerCase : string -> string;
  slice0 : nat -> string -> string
}.

#[global] Instance ascii_strings : JSString :=
  mkJSString Str.toLowerCase Str.slice0.

(** ** Array objects

    An array is an object: [filter] returns a new array, [sort] sorts the
    array it is called on and returns that same array.  The arrays live
    in a heap and are named by references. *)

Module Heap.

Definition t (A : Type) : Type := list (list A).
Definition ref : Type := nat.

Definition read {A : Type} (h : t A) (r : ref) : list A := nth r h [].

(** A new array, at the next free reference. *)
Definition alloc {A : Type} (h : t A) (a : list A) : ref * t A :=
  (List.length h, h ++ [a]).

Fixpoint write {A : Type} (h : t A) (r : ref) (a : list A) : t A :=
  match h, r with
  | [], _ => []
  | _ :: rest, O => a :: rest
  | x :: rest, S r' => x :: write rest r' a
  end.

(** [arr.filter(p)]. *)
Definition filter {A : Type} (p : A -> bool) (r : ref) (h : t A) : ref * t A :=
  alloc h (List.filter p (read h r)).

(** [arr.sort((a, b) => key(b) - key(a))]. *)
Definition sort_desc {A : Type} (key : A -> Q) (r : ref) (h : t A) : ref * t A :=
  (r, write h r (Arr.sort_desc key (read h r))).

(** The references that name an array of the heap. *)
Definition valid {A : Type} (h : t A) (r : ref) : Prop := (r < List.length h)%nat.

End Heap.

(** ** Consensus engine (federation/consensus.ts, federation/types.ts) *)

Module ConsensusEngine.

(** An adapter, with the outcome of its [generateBrief] promise for a page
    and a bucket: a brief, or [None] when the promise is rejected. *)
Record ModelAdapter : Type := mkAdapter {
  id : ModelId;
  generateBrief : Page.t -> ActionBucket -> option Brief.t
}.

(** [hashBrief] joins four fields with a bar; the fields are kept apart
    here. *)
Definition Hash : Type := (string * Num.num * nat * nat)%type.

Record ModelContribution : Type := mkContribution {
  modelId : ModelId;
  weight : Q;
  briefHash : Hash;
  brief : option Brief.t
}.

Inductive Strategy : Type := consensus | primary | single.

Record ConsensusResult : Type := mkResult {
  r_brief : Brief.t;
  confidence : Num.num;
  contributions : list ModelContribution;
  primaryModel : ModelId;
  modelOutputs : list (ModelId * Brief.t);
  strategy : Strategy
}.

Inductive Error : Type :=
| AdapterRejected (m : ModelId)
| AllAdaptersFailed
| TypeError.

Definition hashBrief (b : Brief.t) : Hash :=
  (Brief.targetKeyword b, Brief.targetWordCount b,
   List.length (Brief.h2Additions b), List.length (Brief.priorityTasks b)).

Definition str_uniq (l : list string) : list string := Arr.uniq String.eqb l.
Definition str_mem (x : string) (l : list string) : bool := existsb (String.eqb x) l.

(** Size of the intersection over size of the union of two sets, 1 when
    both are empty. *)
Definition jaccard (a b : list string) : Num.num :=
  let intersection := str_uniq (filter (fun x => str_mem x b) a) in
  let union := str_uniq (a ++ b) in
  if Nat.ltb 0 (List.length union)
  then F64.div (Num.Fin (inject_Z (Z.of_nat (List.length intersection))))
               (Num.Fin (inject_Z (Z.of_nat (List.length union))))
  else Num.Fin 1.

Section WithStrings.
Context {js : JSString}.

(** The body of the inner loop of [calculateConfidence]: the agreement of
    one pair of briefs, every operation in binary64. *)
Definition pair_agreement (a b : Brief.t) : Num.num :=
  let wcRatio :=
    F64.div (F64.min (Brief.targetWordCount a) (Brief.targetWordCount b))
            (F64.max (Brief.targetWordCount a) (Brief.targetWordCount b)) in
  let d := F64.add (Num.Fin 0)
             (if F64.ltb (Num.Fin (F64.dec (8 # 10))) wcRatio
              then Num.Fin 1 else wcRatio) in
  let d := F64.add d
             (jaccard (str_uniq (map toLowerCase (Brief.h2Additions a)))
                      (str_uniq (map toLowerCase (Brief.h2Additions b)))) in
  let d := F64.add d
             (jaccard (str_uniq (Brief.schemaStack a))
                      (str_uniq (Brief.schemaStack b))) in
  let task_key := fun t => slice0 30 (toLowerCase t) in
  let d := F64.add d
             (jaccard (str_uniq (map task_key (Brief.priorityTasks a)))
                      (str_uniq (map task_key (Brief.priorityTasks b)))) in
  F64.div d (Num.Fin 4).

(** The two nested loops; the accumulator is (agreementScore, comparisons). *)
Fixpoint compare_pairs (l : list Brief.t) (acc : Num.num * nat) : Num.num * nat :=
  match l with
  | [] => acc
  | a :: rest =>
      compare_pairs rest
        (fold_left (fun acc' b => (F64.add (fst acc') (pair_agreement a b),
                                   S (snd acc')))
                   rest acc)
  end.

(** All briefs of the contributions, or [None] if one is missing. *)
Fixpoint briefs_of (cs : list ModelContribution) : option (list Brief.t) :=
  match cs with
  | [] => Some []
  | c :: t =>
      match brief c, briefs_of t with
      | Some b, Some bs => Some (b :: bs)
      | _, _ => None
      end
  end.

Definition calculateConfidence (cs : list ModelContribution) : Error + Num.num :=
  if Nat.leb (List.length cs) 1 then inr (Num.Fin 1)
  else
    match briefs_of cs with
    | None => inl TypeError
    | Some bs =>
        let '(agreementScore, comparisons) := compare_pairs bs (Num.Fin 0, 0%nat) in
        if Nat.ltb 0 comparisons
        then inr (F64.div agreementScore
                    (Num.Fin (inject_Z (Z.of_nat comparisons))))
        else inr (Num.Fin 1)
    end.

(** [bucketWeights[c.modelId] ?? 0]. *)
Definition live_weight (bucketWeights : Row) (c : ModelContribution) : Q :=
  orElse (row_get bucketWeights (modelId c)) 0.

(** The headings of the contributions that carry a brief, in order. *)
Definition all_of (f : Brief.t -> list string) (sorted : list ModelContribution)
    : list string :=
  flat_map (fun c => match brief c with Some b => f b | None => [] end) sorted.

(** [h2Counts.set(key, (h2Counts.get(key) || 0) + 1)]. *)
Definition bump (h2Counts : list (string * nat)) (key : string) : list (string * nat) :=
  AList.set String.eqb h2Counts key
    (match AList.get String.eqb h2Counts key with
     | Some n => n
     | None => 0
     end + 1)%nat.

Definition h2Counts_of (sorted : list ModelContribution) : list (string * nat) :=
  fold_left bump (map toLowerCase (all_of Brief.h2Additions sorted)) [].

(** The heading in its casing of first occurrence: the first contribution
    that has a non-empty heading with this key gives it. *)
Fixpoint original_casing (sorted : list ModelContribution) (h2 : string) : string :=
  match sorted with
  | [] => h2
  | c :: rest =>
      match brief c with
      | Some b =>
          match find (fun h => String.eqb (toLowerCase h) h2) (Brief.h2Additions b) with
          | Some found =>
              if String.eqb found EmptyString then original_casing rest h2 else found
          | None => original_casing rest h2
          end
      | None => original_casing rest h2
      end
  end.

Definition count_key (e : string * nat) : Q := inject_Z (Z.of_nat (snd e)).

Definition mergedH2s_of (sorted : list ModelContribution) : list string :=
  map (fun e => original_casing sorted (fst e))
      (Arr.sort_desc count_key (h2Counts_of sorted)).

(** (totalWeight, weightedWordCount) after the last loop, in binary64. *)
Definition weighted_count (bucketWeights : Row) (sorted : list ModelContribution)
    : Num.num * Num.num :=
  fold_left
    (fun acc c =>
       match brief c with
       | Some b =>
           let w := Num.Fin (live_weight bucketWeights c) in
           (F64.add (fst acc) w,
            F64.add (snd acc) (F64.mul (Brief.targetWordCount b) w))
       | None => acc
       end)
    sorted (Num.Fin 0, Num.Fin 0).

Definition has_brief (c : ModelContribution) : bool :=
  match brief c with Some _ => true | None => false end.

(** The body of [mergeBriefs] once [sorted] is computed. *)
Definition merge_sorted (sorted : list ModelContribution)
    (bucketWeights : Row) (page : Page.t) (bucket : ActionBucket)
    : Error + Brief.t :=
  match sorted with
  | [] => inl TypeError
  | first :: _ =>
      match brief first with
      | None => inl TypeError
      | Some primary_brief =>
          let uniqueTitles :=
            firstn 3 (str_uniq (all_of Brief.titleRecommendations sorted)) in
          let mergedH2s := mergedH2s_of sorted in
          let uniqueTasks := str_uniq (all_of Brief.priorityTasks sorted) in
          let uniqueSchema := str_uniq (all_of Brief.schemaStack sorted) in
          let '(totalWeight, weightedWordCount) :=
            weighted_count bucketWeights sorted in
          let avgWordCount :=
            if F64.ltb (Num.Fin 0) totalWeight
            then F64.round (F64.div weightedWordCount totalWeight)
            else Brief.targetWordCount primary_brief in
          inr (Brief.mk (Page.url page) (Page.primaryKeyword page) bucket
                 uniqueTitles
                 (Brief.h1Recommendation primary_brief)
                 (Brief.metaDescription primary_brief)
                 avgWordCount
                 mergedH2s
                 (Brief.internalLinks primary_brief)
                 uniqueTasks
                 uniqueSchema
                 (Brief.keywordDensityTarget primary_brief)
                 (Brief.mandatoryPlacements primary_brief)
                 (Brief.metricsSnapshot primary_brief)
                 Brief.draft None None None)
      end
  end.

(** [mergeBriefs] is handed a reference to the array [contributions].
    [filter] makes a new array and [sort] sorts that one; the heap is
    returned as the call leaves it. *)
Definition mergeBriefs (contributions : Heap.ref)
    (bucketWeights : Row) (page : Page.t) (bucket : ActionBucket)
    (h : Heap.t ModelContribution)
    : (Error + Brief.t) * Heap.t ModelContribution :=
  let '(filtered, h1) := Heap.filter has_brief contributions h in
  let '(sorted, h2) := Heap.sort_desc (live_weight bucketWeights) filtered h1 in
  (merge_sorted (Heap.read h2 sorted) bucketWeights page bucket, h2).

(** How often a key occurs in a list, and where it occurs first. *)
Definition occurrences (k : string) (l : list string) : nat :=
  count_occ string_dec l k.

Fixpoint first_index (k : string) (l : list string) : nat :=
  match l with
  | [] => 0
  | x :: t => if String.eqb x k then 0 else S (first_index k t)
  end.

(** The count recorded for a key in [h2Counts]. *)
Definition counted (m : list (string * nat)) (k : string) : nat :=
  match AList.get String.eqb m k with
  | Some n => n
  | None => 0
  end.

(** The engine's only field. *)
Record t : Type := mk { consensusThreshold : Q }.

(** The outcome of [Promise.allSettled] over the adapters, in their
    order: the fulfilled value or [None]. *)
Definition settle (adapters : list ModelAdapter) (page : Page.t)
    (bucket : ActionBucket) : list (option (ModelId * Brief.t)) :=
  map (fun a => match generateBrief a page bucket with
                | Some b => Some (id a, b)
                | None => None
                end) adapters.

(** A contribution together with the index of the result it came from,
    which stands for the identity of its brief object. *)
Definition Slot : Type := (nat * ModelContribution)%type.

Definition contribution_of (bucketWeights : Row) (m : ModelId) (b : Brief.t)
    : ModelContribution :=
  mkContribution m (orElse (row_get bucketWeights m) 0) (hashBrief b) (Some b).

(** The loop over the settled results, filling [modelOutputs] and
    [contributions]. *)
Fixpoint collect (bucketWeights : Row) (i : nat)
    (results : list (option (ModelId * Brief.t)))
    (st : list (ModelId * (nat * Brief.t)) * list Slot)
    : list (ModelId * (nat * Brief.t)) * list Slot :=
  match results with
  | [] => st
  | None :: rest => collect bucketWeights (S i) rest st
  | Some (m, b) :: rest =>
      collect bucketWeights (S i) rest
        (AList.set ModelId_eqb (fst st) m (i, b),
         snd st ++ [(i, contribution_of bucketWeights m b)])
  end.

Definition strip (outputs : list (ModelId * (nat * Brief.t)))
    : list (ModelId * Brief.t) :=
  map (fun e => (fst e, snd (snd e))) outputs.

(** The entries of [modelOutputs] that hold the brief object [k] see the
    tags written to it. *)
Definition retag (outputs : list (ModelId * (nat * Brief.t))) (k : nat)
    (tagged : Brief.t) : list (ModelId * (nat * Brief.t)) :=
  map (fun e => if Nat.eqb (fst (snd e)) k then (fst e, (k, tagged)) else e) outputs.

Definition with_brief (c : ModelContribution) (b : Brief.t) : ModelContribution :=
  mkContribution (modelId c) (weight c) (briefHash c) (Some b).

(** What [generateConsensus] does once the results are collected. *)
Definition conclude (this : t) (bucketWeights : Row) (page : Page.t)
    (bucket : ActionBucket) (outputs : list (ModelId * (nat * Brief.t)))
    (slots : list Slot) : Error + ConsensusResult :=
  match slots with
  | [] => inl AllAdaptersFailed
  | [(_, c)] =>
      match brief c with
      | Some b => inr (mkResult b (Num.Fin 1) [c] (modelId c) (strip outputs) single)
      | None => inl TypeError
      end
  | _ =>
      match calculateConfidence (map snd slots) with
      | inl e => inl e
      | inr conf =>
          (* [contributions.sort(...)] sorts the array itself *)
          let slots := Arr.sort_desc (fun s : Slot => weight (snd s)) slots in
          match slots with
          | [] => inl TypeError
          | (k, first) :: rest =>
              let primaryModel := modelId first in
              let models := map (fun s : Slot => modelId (snd s)) slots in
              if Num.ngeb conf (consensusThreshold this) then
                (* the array [contributions] is the one array of the heap *)
                let '(outcome, h) :=
                  mergeBriefs 0%nat bucketWeights page bucket [map snd slots] in
                match outcome with
                | inl e => inl e
                | inr merged =>
                    inr (mkResult (Brief.tag merged primaryModel models conf) conf
                           (Heap.read h 0%nat) primaryModel (strip outputs) consensus)
                end
              else
                match brief first with
                | None => inl TypeError
                | Some own =>
                    (* the tags are written to the provider's own brief *)
                    let tagged := Brief.tag own primaryModel models conf in
                    inr (mkResult tagged conf
                           (with_brief first tagged :: map snd rest) primaryModel
                           (strip (retag outputs k tagged)) primary)
                end
          end
      end
  end.

Definition generateConsensus (this : t) (adapters : list ModelAdapter)
    (page : Page.t) (bucket : ActionBucket) (modelWeights : ModelWeights)
    : Error + ConsensusResult :=
  let bucketWeights := modelWeights bucket in
  match adapters with
  | [a] =>
      match generateBrief a page bucket with
      | None => inl (AdapterRejected (id a))
      | Some b =>
          inr (mkResult b (Num.Fin 1)
                 [mkContribution (id a) (orElse (row_get bucketWeights (id a)) 1)
                    (hashBrief b) (Some b)]
                 (id a) [(id a, b)] single)
      end
  | _ =>
      let '(outputs, slots) :=
        collect bucketWeights 0 (settle adapters page bucket) ([], []) in
      conclude this bucketWeights page bucket outputs slots
  end.

End WithStrings.

(** The adapters whose brief generation succeeds. *)
Definition succeeds (page : Page.t) (bucket : ActionBucket) (a : ModelAdapter) : bool :=
  match generateBrief a page bucket with Some _ => true | None => false end.

Definition successes (adapters : list ModelAdapter) (page : Page.t)
    (bucket : ActionBucket) : nat :=
  List.length (filter (succeeds page bucket) adapters).

(** The contributions of the fulfilled results, in adapter order. *)
Definition fulfilled (bucketWeights : Row)
    (results : list (option (ModelId * Brief.t))) : list ModelContribution :=
  flat_map (fun r => match r with
                     | Some (m, b) => [contribution_of bucketWeights m b]
                     | None => []
                     end) results.

(** What holds of every contribution built from a fulfilled result. *)
Definition built (bw : Row) (c : ModelContribution) : Prop :=
  has_brief c = true /\ weight c = live_weight bw c.

End ConsensusEngine.

(** ** Expected click-through rate (core/constants.ts) *)

Record CTRCurve : Type := mkCurve {
  position1 : Q;
  position2 : Q;
  position3 : Q;
  position4 : Q;
  position5 : Q;
  position6 : Q;
  position7 : Q;
  position8 : Q;
  position9 : Q;
  position10 : Q;
  position11_20 : Q;
  position21Plus : Q;
  industry : string;
  dataSource : string
}.

Definition DEFAULT_CTR_CURVE : CTRCurve :=
  mkCurve (32 # 100) (20 # 100) (13 # 100) (9 # 100) (7 # 100) (5 # 100)
          (4 # 100) (3 # 100) (25 # 1000) (2 # 100) (1 # 100) (5 # 1000)
          "general" "industry_average".

Definition getExpectedCTR (position : Q) (curve : CTRCurve) : Q :=
  let pos := Num.round position in
  if (pos <=? 0)%Z then position1 curve
  else if (pos =? 1)%Z then position1 curve
  else if (pos =? 2)%Z then position2 curve
  else if (pos =? 3)%Z then position3 curve
  else if (pos =? 4)%Z then position4 curve
  else if (pos =? 5)%Z then position5 curve
  else if (pos =? 6)%Z then position6 curve
  else if (pos =? 7)%Z then position7 curve
  else if (pos =? 8)%Z then position8 curve
  else if (pos =? 9)%Z then position9 curve
  else if (pos =? 10)%Z then position10 curve
  else if (pos <=? 20)%Z then position11_20 curve
  else position21Plus curve.

(** ** Opportunity scorer (engine/scorer.ts)

    The page metrics and the weights are rationals; the two logarithms
    make the score a real number.  [None] stands for NaN, which
    [Math.log10] returns below 0 and which every later operation keeps. *)

Module OpportunityScorer.
Local Open Scope R_scope.

Record t : Type := mk {
  weights : WeightConfig;
  ctrCurve : CTRCurve
}.

Record NormalizedScores : Type := mkScores {
  n_impressions : option R;
  n_position : option R;
  n_ctrGap : option R;
  n_conversions : option R;
  n_freshness : option R
}.

Definition clamp (value lo hi : R) : R := Rmax lo (Rmin hi value).

Definition log10 (x : R) : R := ln x / ln 10.

(** [clamp(Math.log10(x) / d, 0, 1)] for a finite [x] and [d > 0]:
    NaN below 0; at 0 the logarithm is -Infinity, which the clamp turns
    into 0. *)
Definition clamped_log (x : Q) (d : R) : option R :=
  if Num.ltb x 0 then None
  else if Num.is_zero x then Some 0
  else Some (clamp (log10 (Q2R x) / d) 0 1).

Definition normalizeImpressions (impressions : Q) : option R :=
  clamped_log (impressions + 1)%Q 5.

Definition normalizePosition (position : Q) : option R :=
  Some (clamp ((50 - Q2R position) / 50) 0 1).

Definition normalizeCTRGap (this : t) (position actualCtr : Q) : option R :=
  let expectedCtr := getExpectedCTR position (ctrCurve this) in
  if Num.leb expectedCtr 0 then Some 0
  else
    let gap := (Q2R expectedCtr - Q2R actualCtr) / Q2R expectedCtr in
    Some (clamp gap 0 1).

Definition normalizeConversions (conversions : Q) : option R :=
  clamped_log (conversions + 1)%Q 2.

Definition normalizeFreshness (freshnessScore : Q) : option R :=
  Some (clamp (Q2R freshnessScore) 0 1).

Definition getNormalizedScores (this : t) (page : Page.t) : NormalizedScores :=
  mkScores (normalizeImpressions (Page.impressions page))
           (normalizePosition (Page.position page))
           (normalizeCTRGap this (Page.position page) (Page.ctr page))
           (normalizeConversions (Page.conversions page))
           (normalizeFreshness (Page.freshnessScore page)).

(** [Math.round(x * 10000) / 10000] on a real. *)
Definition round4 (x : R) : R := IZR (Int_part (x * 10000 + / 2)) / 10000.

Definition calculateScore (this : t) (page : Page.t) : option R :=
  let normalized := getNormalizedScores this page in
  let w := weights this in
  match n_impressions normalized, n_position normalized, n_ctrGap normalized,
        n_conversions normalized, n_freshness normalized with
  | Some ni, Some np, Some ng, Some nc, Some nf =>
      let score :=
        Q2R (impressions w) * ni + Q2R (position w) * np
        + Q2R (ctrGap w) * ng + Q2R (conversions w) * nc
        + Q2R (freshness w) * nf in
      Some (round4 score)
  | _, _, _, _, _ => None
  end.

Definition getWeights (this : t) : WeightConfig := weights this.

Definition setWeights (this : t) (w : WeightConfig) : t := mk w (ctrCurve this).

End OpportunityScorer.

(** ** Action bucket classifier (engine/bucketer.ts) *)

Module ActionBucketer.

Record CtrFixCriteria : Type := mkCtrFix {
  cf_minImpressions : Q;
  ctrGapThreshold : Q
}.

Record BandCriteria : Type := mkBand {
  minPosition : Q;
  maxPosition : Q;
  minImpressions : Q
}.

Record BucketCriteria : Type := mkCriteria {
  c_CTR_FIX : CtrFixCriteria;
  c_STRIKING_DISTANCE : BandCriteria;
  c_RELEVANCE_REBUILD : BandCriteria;
  c_LOCAL_BOOST_requiresLocalIntent : bool;
  c_MONITOR_maxPosition : Q
}.

Definition BUCKET_CRITERIA : BucketCriteria :=
  mkCriteria (mkCtrFix 500 (5 # 100)) (mkBand 4 10 100) (mkBand 11 50 50) true 3.

Record t : Type := mk {
  criteria : BucketCriteria;
  ctrCurve : CTRCurve
}.

(** [LOCAL_INDICATORS.keywords]. *)
Definition local_keywords : list string :=
  ["near me"; "nearby"; "local"; "in my area"; "close to me"]%string.

(** The alternatives of the first city pattern. *)
Definition cities : list string :=
  ["pittsburgh"; "chicago"; "new york"; "los angeles"; "houston"; "phoenix"]%string.

Definition in_range (lo hi : nat) (c : ascii) : bool :=
  let n := nat_of_ascii c in andb (Nat.leb lo n) (Nat.leb n hi).

Definition is_upper (c : ascii) : bool := in_range 65 90 c.
Definition is_lower (c : ascii) : bool := in_range 97 122 c.
Definition is_digit (c : ascii) : bool := in_range 48 57 c.

(** [\w] and, on ASCII, [\s]. *)
Definition is_word (c : ascii) : bool :=
  is_upper c || is_lower c || is_digit c || Ascii.eqb c "_"%char.

Definition is_space (c : ascii) : bool :=
  in_range 9 13 c || Ascii.eqb c " "%char.

(** [\b] in front of a non-word position: the end of the text or a
    character that is not a word character. *)
Definition word_ends (s : string) : bool :=
  match s with
  | EmptyString => true
  | String c _ => negb (is_word c)
  end.

Fixpoint skip (p : ascii -> bool) (s : string) : string :=
  match s with
  | EmptyString => EmptyString
  | String c r => if p c then skip p r else s
  end.

Fixpoint drop (n : nat) (s : string) : string :=
  match n, s with
  | O, _ => s
  | S n', String _ r => drop n' r
  | S _, EmptyString => EmptyString
  end.

(** [/\b(w1|w2|...)\b/i] at the start of [s], which is in lower case; the
    alternatives start and end with a letter. *)
Definition city_here (s : string) : bool :=
  existsb (fun w => prefix w s && word_ends (drop (String.length w) s)) cities.

(** [/\b[A-Z][a-z]+,\s*[A-Z]{2}\b/] at the start of [s]. *)
Definition town_state_here (s : string) : bool :=
  match s with
  | String c r =>
      if is_upper c then
        match r with
        | String l _ =>
            if is_lower l then
              match skip is_lower r with
              | String comma r' =>
                  if Ascii.eqb comma ","%char then
                    match skip is_space r' with
                    | String u1 (String u2 rest) =>
                        is_upper u1 && is_upper u2 && word_ends rest
                    | _ => false
                    end
                  else false
              | EmptyString => false
              end
            else false
        | EmptyString => false
        end
      else false
  | EmptyString => false
  end.

(** [pattern.test(s)]: a match that starts at a word boundary, anywhere
    in [s].  [at_boundary] tells whether the character before is not a
    word character. *)
Fixpoint test_from (here : string -> bool) (at_boundary : bool) (s : string) : bool :=
  (at_boundary && here s)
  || match s with
     | EmptyString => false
     | String c r => test_from here (negb (is_word c)) r
     end.

Definition city_patterns : list (string -> bool) :=
  [test_from city_here true; test_from town_state_here true].

Definition isCTRFix (this : t) (page : Page.t) : bool :=
  let c := c_CTR_FIX (criteria this) in
  let expectedCtr := getExpectedCTR (Page.position page) (ctrCurve this) in
  Num.leb (cf_minImpressions c) (Page.impressions page)
  && Num.ltb (Page.ctr page) (expectedCtr * (1 - ctrGapThreshold c)).

Definition in_band (c : BandCriteria) (page : Page.t) : bool :=
  Num.leb (minPosition c) (Page.position page)
  && Num.leb (Page.position page) (maxPosition c)
  && Num.leb (minImpressions c) (Page.impressions page).

Definition isStrikingDistance (this : t) (page : Page.t) : bool :=
  in_band (c_STRIKING_DISTANCE (criteria this)) page.

Definition isRelevanceRebuild (this : t) (page : Page.t) : bool :=
  in_band (c_RELEVANCE_REBUILD (criteria this)) page.

Definition detectLocalIntent (page : Page.t) : bool :=
  let urlAndKeyword :=
    Str.toLowerCase (Page.url page ++ " " ++ Page.primaryKeyword page)%string in
  if existsb (fun keyword => Str.includes (Str.toLowerCase keyword) urlAndKeyword)
             local_keywords then true
  else if existsb (fun pattern => pattern urlAndKeyword) city_patterns then true
  else Nat.ltb 0 (List.length (Page.localKeywords page)).

Definition is_local_intent (i : Page.Intent) : bool :=
  match i with
  | Page.Intent_local => true
  | _ => false
  end.

Definition isLocalBoost (page : Page.t) : bool :=
  if negb (Page.isLocalPage page) && negb (is_local_intent (Page.intent page))
  then (if detectLocalIntent page then Num.ltb 3 (Page.position page) else false)
  else Num.ltb 3 (Page.position page).

Definition isMonitor (this : t) (page : Page.t) : bool :=
  Num.leb (Page.position page) (c_MONITOR_maxPosition (criteria this)).

Definition classify (this : t) (page : Page.t) : ActionBucket :=
  if isMonitor this page then MONITOR
  else if isCTRFix this page then CTR_FIX
  else if isStrikingDistance this page then STRIKING_DISTANCE
  else if isLocalBoost page then LOCAL_BOOST
  else if isRelevanceRebuild this page then RELEVANCE_REBUILD
  else MONITOR.

Definition classifyAll (this : t) (pages : list Page.t)
    : list (Page.t * ActionBucket) :=
  map (fun page => (page, classify this page)) pages.

(** [ACTION_BUCKETS]. *)
Definition ACTION_BUCKETS : list ActionBucket :=
  [CTR_FIX; STRIKING_DISTANCE; RELEVANCE_REBUILD; LOCAL_BOOST; MONITOR].

End ActionBucketer.

(** ** Concrete inputs *)

Module Examples.
Import WeightAdjuster.
Local Open Scope string_scope.

(** A striking-distance action whose page moved from position 8 to 5. *)
Definition striking (applied : bool) : SEOAction :=
  mkAction "site" "https://example.com/blog/page" STRIKING_DISTANCE
    St_completed 10 100 (5 # 100) 8 0
    None None None (Some 5) None applied None.

(** Weights 0.05, 0.2375 x 4: in the default clamp, summing to 1. *)
Definition skewed : WeightConfig :=
  mkWeights (5 # 100) (2375 # 10000) (2375 # 10000) (2375 # 10000) (2375 # 10000).

(** Weights 0.20006 x 4, 0.19976: in the default clamp, summing to 1. *)
Definition off_grid : WeightConfig :=
  mkWeights (20006 # 100000) (20006 # 100000) (20006 # 100000)
            (20006 # 100000) (19976 # 100000).



(** A row of 7/32, 7/32, 9/32, 9/32: within 0.05-0.60, summing to 1, every
    cell exact in binary. *)
Definition dyadic_row : Row :=
  [(claude, 7 # 32); (openai, 7 # 32); (gemini, 9 # 32); (grok, 9 # 32)].

Definition dyadic_table : ModelWeights :=
  table_set DEFAULT_MODEL_WEIGHTS CTR_FIX dyadic_row.

(** A row with cells for two providers only. *)
Definition half_row : Row := [(claude, 1 # 2); (openai, 1 # 2)].

Definition half_table : ModelWeights :=
  table_set DEFAULT_MODEL_WEIGHTS CTR_FIX half_row.

(** A page, and the briefs of three providers whose heading sets are
    {A, B}, {A, C} and {A, B, C} up to letter case; a fourth provider
    fails. *)
Definition guide : Page.t :=
  Page.mk "https://example.com/guide" "seo guide" 40 1000 (4 # 100) 6 2
    500 (1 # 2) 60 Page.Intent_informational false [] (1 # 2).

Definition brief_of_headings (m : ModelId) (h2s : list string) : Brief.t :=
  Brief.mk "https://example.com/guide" "seo guide" STRIKING_DISTANCE
    ["The SEO Guide"] "SEO Guide" "All about SEO." (Num.Fin 1200) h2s []
    ["Add internal links"] ["Article"; "FAQPage"] "0.6% - 1.2%"
    ["First 100 words"; "One H2 exact match"; "Last 120 words"]
    (Some (Brief.mkSnapshot 40 1000 (4 # 100) 6 2))
    Brief.draft (Some m) None None.

Definition answering (m : ModelId) (h2s : list string)
    : ConsensusEngine.ModelAdapter :=
  ConsensusEngine.mkAdapter m (fun _ _ => Some (brief_of_headings m h2s)).

Definition failing (m : ModelId) : ConsensusEngine.ModelAdapter :=
  ConsensusEngine.mkAdapter m (fun _ _ => None).

Definition three_of_four : list ConsensusEngine.ModelAdapter :=
  [answering claude ["Pricing Plans"; "Setup"];
   answering openai ["pricing plans"; "FAQ"];
   answering gemini ["PRICING PLANS"; "setup"; "faq"];
   failing grok].

Definition one_of_two : list ConsensusEngine.ModelAdapter :=
  [failing claude; answering openai ["Pricing Plans"]].

Definition engine : ConsensusEngine.t := ConsensusEngine.mk (F64.dec (7 # 10)).

(** The contributions of the three successful providers, in an array. *)
Definition contributed : list ConsensusEngine.ModelContribution :=
  ConsensusEngine.fulfilled uniform_row
    (ConsensusEngine.settle three_of_four guide STRIKING_DISTANCE).

(** Three providers whose briefs agree pairwise to 0.85, 31/48 and 29/48,
    which is 0.7 on average. *)
Definition brief_with (m : ModelId) (words : Q) (h2s tasks : list string)
    : Brief.t :=
  Brief.mk "https://example.com/guide" "seo guide" STRIKING_DISTANCE
    ["The SEO Guide"] "SEO Guide" "All about SEO." (Num.Fin words) h2s []
    tasks ["Article"; "FAQPage"] "0.6% - 1.2%" []
    None Brief.draft (Some m) None None.

Definition near_threshold : list ConsensusEngine.ModelAdapter :=
  [ConsensusEngine.mkAdapter claude
     (fun _ _ => Some (brief_with claude 500 ["Intro"; "Pricing"; "Setup"; "FAQ"]
                         ["links"; "title"; "schema"; "images"]));
   ConsensusEngine.mkAdapter openai
     (fun _ _ => Some (brief_with openai 500 ["Intro"; "Setup"; "Support"]
                         ["links"; "title"; "schema"; "images"]));
   ConsensusEngine.mkAdapter gemini
     (fun _ _ => Some (brief_with gemini 1000 ["Pricing"; "Plans"; "FAQ"; "Support"]
                         ["links"; "title"; "schema"]))].

(** A table in which openai leads the striking-distance row. *)
Definition openai_leads : ModelWeights :=
  table_set DEFAULT_MODEL_WEIGHTS STRIKING_DISTANCE
    [(claude, 2 # 10); (openai, 4 # 10); (gemini, 2 # 10); (grok, 2 # 10)].

(** A page in second position with every other signal raised: a large
    click-through gap, local intent, a local keyword. *)
Definition top_ranked : Page.t :=
  Page.mk "https://example.com/plumber-chicago" "plumber near me"
    0 100000 0 2 0 500 (1 # 2) 60 Page.Intent_local true ["chicago"] (1 # 2).

Definition bucketer : ActionBucketer.t :=
  ActionBucketer.mk ActionBucketer.BUCKET_CRITERIA DEFAULT_CTR_CURVE.

(** Weights 0.2001, 0.2 x 4: within the default clamp, summing to 1.0001. *)
Definition heavy : WeightConfig :=
  mkWeights (2001 # 10000) (2 # 10) (2 # 10) (2 # 10) (2 # 10).

(** A page whose five normalised scores are all 1: 99999 impressions,
    position 0, no clicks, 99 conversions, freshness 1. *)
Definition saturated : Page.t :=
  Page.mk "https://example.com/" "seo" 0 99999 0 0 99 500 (1 # 2) 60
    Page.Intent_informational false [] 1.

(** A page with a negative impression count. *)
Definition negative : Page.t :=
  Page.mk "https://example.com/" "seo" 0 (- (5)) 0 1 0 500 (1 # 2) 60
    Page.Intent_informational false [] 1.

Definition scorer (w : WeightConfig) : OpportunityScorer.t :=
  OpportunityScorer.mk w DEFAULT_CTR_CURVE.

(** The same weights and the default learning configuration as the
    binary64 numbers their decimal literals denote. *)
Definition config64 : LearningConfig :=
  mkLearning (F64.dec (15 # 1000)) (F64.dec (5 # 100)) (F64.dec (50 # 100)).

Definition world64 (w : WeightConfig) (actions : list SEOAction)
    : WeightAdjuster64.World :=
  WeightAdjuster64.mkWorld
    (WeightAdjuster64.create (WeightAdjuster64.of_config w) config64 0)
    (store_of actions (striking true)).

(** Five weights of 2^1023 each, within the clamp 1 .. 2^1023: their sum
    is beyond the largest binary64 number. *)
Definition overflowing : WeightAdjuster64.World :=
  WeightAdjuster64.mkWorld
    (WeightAdjuster64.create
       (WeightAdjuster64.of_config
          (mkWeights (F64.pow2 1023) (F64.pow2 1023) (F64.pow2 1023)
                     (F64.pow2 1023) (F64.pow2 1023)))
       (mkLearning (F64.dec (15 # 1000)) 1 (F64.pow2 1023)) 0)
    (store_of [] (striking true)).

(** The default table and the table with the row 7/32, 7/32, 9/32, 9/32,
    every cell exact in binary64. *)
Definition default_table64 : ModelWeights64 :=
  ModelWeightManager64.of_table DEFAULT_MODEL_WEIGHTS.

Definition dyadic_table64 : ModelWeights64 :=
  ModelWeightManager64.of_table dyadic_table.

(** A row of 1657/32768 three times and 15029/32768: every cell exact in
    binary64 and within 0.05-0.60. *)
Definition uneven_table64 : ModelWeights64 :=
  ModelWeightManager64.of_table
    (table_set DEFAULT_MODEL_WEIGHTS CTR_FIX
       [(claude, 1657 # 32768); (openai, 1657 # 32768);
        (gemini, 1657 # 32768); (grok, 15029 # 32768)]).

(** A row with a negative cell: 2^53, 1, -2^53, 1, the exact total 2. *)
Definition cancelling_table64 : ModelWeights64 :=
  ModelWeightManager64.of_table
    (table_set DEFAULT_MODEL_WEIGHTS CTR_FIX
       [(claude, F64.pow2 53); (openai, 1);
        (gemini, - F64.pow2 53); (grok, 1)]).

(** A row of two cells of 2^1023 each. *)
Definition overflowing_table64 : ModelWeights64 :=
  ModelWeightManager64.of_table
    (table_set DEFAULT_MODEL_WEIGHTS CTR_FIX
       [(claude, F64.pow2 1023); (openai, F64.pow2 1023)]).

End Examples.

(** ** Grouping pages by bucket (engine/bucketer.ts) *)

Module BucketGroups.
Import ActionBucketer.

(** [Record<ActionBucket, PageData[]>]. *)
Definition Groups : Type := ActionBucket -> list Page.t.

Definition no_groups : Groups := fun _ => [].

(** [groups[bucket].push(page)]. *)
Definition push (groups : Groups) (bucket : ActionBucket) (page : Page.t) : Groups :=
  fun b => if ActionBucket_eqb bucket b then groups b ++ [page] else groups b.

Definition groupByBucket (this : t) (pages : list Page.t) : Groups :=
  fold_left (fun groups page => push groups (classify this page) page)
            pages no_groups.

Definition getBucketDistribution (this : t) (pages : list Page.t)
    : ActionBucket -> nat :=
  let groups := groupByBucket this pages in
  fun b => List.length (groups b).

(** A curve that does not rise from one position to the next. *)
Definition non_increasing (c : CTRCurve) : Prop :=
  position2 c <= position1 c /\ position3 c <= position2 c /\
  position4 c <= position3 c /\ position5 c <= position4 c /\
  position6 c <= position5 c /\ position7 c <= position6 c /\
  position8 c <= position7 c /\ position9 c <= position8 c /\
  position10 c <= position9 c /\ position11_20 c <= position10 c /\
  position21Plus c <= position11_20 c.

End BucketGroups.

(** ** Proof automation *)

(** Linear arithmetic over [Q] after turning a division by 10000 into a
    multiplication. *)
Ltac lra4 :=
  unfold Qdiv in *; change (/ 10000) with (1 # 10000) in *; lra.

(** Case analysis on every integer test of the goal. *)
Ltac split_positions :=
  repeat match goal with
         | |- context [(?a <=? ?b)%Z] => destruct (Z.leb_spec a b)
         | |- context [(?a =? ?b)%Z] => destruct (Z.eqb_spec a b)
         end.

(* ================================================================== *)
(** * Part II: properties *)
(* ================================================================== *)

(** ** Rounding *)

Lemma round_bounds (x : Q) :
  x - (1 # 2) < inject_Z (Num.round x) /\ inject_Z (Num.round x) <= x + (1 # 2).
Proof.
  unfold Num.round.
  pose proof (Qfloor_le (x + (1 # 2))) as Hle.
  pose proof (Qlt_floor (x + (1 # 2))) as Hlt.
  rewrite inject_Z_plus in Hlt.
  change (inject_Z 1) with 1 in Hlt.
  split; lra.
Qed.


Lemma round_mono (x y : Q) : x <= y -> (Num.round x <= Num.round y)%Z.
Proof.
  intros Hxy. unfold Num.round. apply Qfloor_resp_le. lra.
Qed.

Lemma round4_on_grid (x : Q) : WeightAdjuster.on_grid (Num.round4 x).
Proof.
  exists (Num.round (x * 10000)). reflexivity.
Qed.

Lemma round4_unit (x : Q) : 0 <= x <= 1 -> 0 <= Num.round4 x <= 1.
Proof.
  intros [H0 H1]. unfold Num.round4.
  assert (Hlo : (Num.round 0 <= Num.round (x * 10000))%Z)
    by (apply round_mono; lra).
  assert (Hhi : (Num.round (x * 10000) <= Num.round 10000)%Z)
    by (apply round_mono; lra).
  change (Num.round 0) with 0%Z in Hlo.
  change (Num.round 10000) with 10000%Z in Hhi.
  rewrite Zle_Qle in Hlo, Hhi.
  change (inject_Z 0) with 0 in Hlo.
  change (inject_Z 10000) with 10000 in Hhi.
  set (r := inject_Z (Num.round (x * 10000))) in *. clearbody r.
  split; lra4.
Qed.


(** ** Content weight adjuster *)

Module WeightAdjusterProps.
Import WeightAdjuster.

Lemma is_zero_false (x : Q) : Num.is_zero x = false -> ~ x == 0.
Proof.
  unfold Num.is_zero. intros H Hx.
  apply Qeq_bool_iff in Hx. congruence.
Qed.

Lemma is_zero_true (x : Q) : Num.is_zero x = true -> x == 0.
Proof. unfold Num.is_zero. apply Qeq_bool_iff. Qed.






End WeightAdjusterProps.

(** ** Provider weight table *)

Module ModelWeightProps.
Import ModelWeightManager.

Lemma ModelId_eqb_eq (a b : ModelId) : ModelId_eqb a b = true <-> a = b.
Proof. destruct a, b; simpl; split; intros H; congruence. Qed.

Lemma ActionBucket_eqb_eq (a b : ActionBucket) :
  ActionBucket_eqb a b = true <-> a = b.
Proof. destruct a, b; simpl; split; intros H; congruence. Qed.

Lemma table_set_same (t : ModelWeights) (b : ActionBucket) (r : Row) :
  table_set t b r b = r.
Proof. unfold table_set. destruct b; reflexivity. Qed.

Lemma table_set_other (t : ModelWeights) (b b' : ActionBucket) (r : Row) :
  b' <> b -> table_set t b r b' = t b'.
Proof.
  intros Hne. unfold table_set.
  destruct (ActionBucket_eqb b b') eqn:E; [| reflexivity].
  apply ActionBucket_eqb_eq in E. congruence.
Qed.

Lemma row_set_missing (r : Row) (m : ModelId) (v : Q) :
  row_get r m = None -> row_set r m v = r ++ [(m, v)].
Proof.
  unfold row_get, row_set.
  induction r as [| [k x] r IH]; simpl; intros H.
  - reflexivity.
  - destruct (ModelId_eqb m k); [discriminate |].
    now rewrite IH.
Qed.

(** C9 (as amended).  A provider without a cell in a category's row never
    makes a read fail, and [getWeight] and the router's lookup count it
    as 0; [adjustWeight] starts such a cell from 0.25, not from 0, before
    it applies the delta and the clamp. *)
Theorem C9_missing_cell_defaults (t : ModelWeights) (b : ActionBucket) (m : ModelId) :
  row_get (t b) m = None ->
  getWeight t b m = 0 /\
  TaskRouter.weight_of (t b) m = 0 /\
  (forall ids, ids <> [] ->
     exists d, TaskRouter.route (TaskRouter.mk ids t) b = inr d) /\
  (forall delta mn mx,
     adjustWeight t b m delta mn mx b
     = normalizeRow (t b ++ [(m, Num.max mn (Num.min mx ((25 # 100) + delta)))])).
Proof.
  intros Hmiss. split; [| split; [| split]].
  - unfold getWeight. now rewrite Hmiss.
  - unfold TaskRouter.weight_of. now rewrite Hmiss.
  - intros ids Hne. unfold TaskRouter.route. simpl.
    destruct ids as [| i [| j ids]]; [congruence | eauto |].
    destruct (Nat.eqb _ 2); eauto.
  - intros delta mn mx. unfold adjustWeight, normalizeBucket.
    rewrite !table_set_same. rewrite Hmiss. simpl orElse.
    now rewrite row_set_missing.
Qed.

Lemma C9_missing_cell_defaults_witness :
  row_get (Examples.half_table CTR_FIX) grok = None /\
  getWeight Examples.half_table CTR_FIX grok = 0 /\
  TaskRouter.weight_of (Examples.half_table CTR_FIX) grok = 0.
Proof.
  assert (H : row_get (Examples.half_table CTR_FIX) grok = None)
    by (vm_compute; reflexivity).
  destruct (C9_missing_cell_defaults Examples.half_table CTR_FIX grok H)
    as (H1 & H2 & _).
  split; [exact H |]. split; [exact H1 | exact H2].
Defined.

(** C9 as stated fails for [adjustWeight].  The row has no cell for grok;
    adding 0.1 yields the cell 0.35 (0.2593 once renormalised), where a
    cell counted as 0 would yield 0.1 (0.0909 once renormalised). *)
Lemma C9_counterexample :
  row_get (Examples.half_table CTR_FIX) grok = None /\
  getWeight (adjustWeight Examples.half_table CTR_FIX grok
               (1 # 10) (5 # 100) (60 # 100)) CTR_FIX grok == 2593 # 10000 /\
  getWeight (adjustWeight_missing_as_zero Examples.half_table CTR_FIX grok
               (1 # 10) (5 # 100) (60 # 100)) CTR_FIX grok == 909 # 10000 /\
  adjustWeight Examples.half_table CTR_FIX grok (1 # 10) (5 # 100) (60 # 100)
  <> adjustWeight_missing_as_zero Examples.half_table CTR_FIX grok
       (1 # 10) (5 # 100) (60 # 100).
Proof.
  split; [| split; [| split]].
  - vm_compute. reflexivity.
  - vm_compute. reflexivity.
  - vm_compute. reflexivity.
  - intros E.
    assert (H : getWeight (adjustWeight Examples.half_table CTR_FIX grok
                             (1 # 10) (5 # 100) (60 # 100)) CTR_FIX grok
                = getWeight (adjustWeight_missing_as_zero Examples.half_table
                               CTR_FIX grok (1 # 10) (5 # 100) (60 # 100))
                            CTR_FIX grok)
      by (rewrite E; reflexivity).
    vm_compute in H. discriminate H.
Qed.

End ModelWeightProps.

(** ** Sorting and sets *)

Module ArrProps.
Import Arr.

Section Sorting.
Context {A : Type} (key : A -> Q).

Lemma ltb_true (a b : Q) : Num.ltb a b = true <-> a < b.
Proof.
  unfold Num.ltb. rewrite negb_true_iff.
  split; intros H.
  - apply Qnot_le_lt. intros Hle. apply Qle_bool_iff in Hle. congruence.
  - destruct (Qle_bool b a) eqn:E; [| reflexivity].
    apply Qle_bool_iff in E. lra.
Qed.

Lemma ltb_false (a b : Q) : Num.ltb a b = false <-> b <= a.
Proof.
  unfold Num.ltb. rewrite negb_false_iff. apply Qle_bool_iff.
Qed.

Lemma insert_desc_perm (x : A) (l : list A) :
  Permutation (insert_desc key x l) (x :: l).
Proof.
  induction l as [| y t IH]; simpl.
  - reflexivity.
  - destruct (Num.ltb (key x) (key y)).
    + rewrite IH. apply perm_swap.
    + reflexivity.
Qed.

Lemma sort_desc_perm (l : list A) : Permutation (sort_desc key l) l.
Proof.
  induction l as [| x l IH]; simpl.
  - reflexivity.
  - rewrite insert_desc_perm. now constructor.
Qed.

Lemma sort_desc_In (x : A) (l : list A) : In x (sort_desc key l) <-> In x l.
Proof.
  split; apply Permutation_in;
    [apply sort_desc_perm | symmetry; apply sort_desc_perm].
Qed.

Lemma sort_desc_length (l : list A) :
  List.length (sort_desc key l) = List.length l.
Proof. apply Permutation_length, sort_desc_perm. Qed.

Lemma insert_desc_desc (x : A) (l : list A) :
  desc key l -> desc key (insert_desc key x l).
Proof.
  unfold desc. induction l as [| y t IH]; simpl; intros Hs.
  - repeat constructor.
  - apply StronglySorted_inv in Hs. destruct Hs as [Ht Hy].
    destruct (Num.ltb (key x) (key y)) eqn:E.
    + apply ltb_true in E. constructor; [now apply IH |].
      rewrite Forall_forall in *. intros z Hz.
      apply (Permutation_in _ (insert_desc_perm x t)) in Hz.
      destruct Hz as [<- | Hz]; [lra | now apply Hy].
    + apply ltb_false in E. constructor; [now constructor |].
      constructor; [assumption |].
      rewrite Forall_forall in *. intros z Hz.
      specialize (Hy z Hz). simpl in Hy. lra.
Qed.

Lemma sort_desc_desc (l : list A) : desc key (sort_desc key l).
Proof.
  induction l as [| x l IH]; simpl.
  - constructor.
  - now apply insert_desc_desc.
Qed.

(** Sorting a list that is already in descending order changes nothing. *)
Lemma sort_desc_fixed (l : list A) : desc key l -> sort_desc key l = l.
Proof.
  unfold desc. induction l as [| x l IH]; simpl; intros Hs.
  - reflexivity.
  - apply StronglySorted_inv in Hs. destruct Hs as [Hl Hx].
    rewrite (IH Hl). destruct l as [| y t]; simpl.
    + reflexivity.
    + apply Forall_inv in Hx.
      assert (E : Num.ltb (key x) (key y) = false) by now apply ltb_false.
      now rewrite E.
Qed.

Lemma insert_desc_before (x a b : A) (s : list A) :
  desc key s ->
  before a b (insert_desc key x s) ->
  before a b s \/
  (a = x /\ In b s /\ key b <= key x) \/
  (b = x /\ In a s /\ key x < key a).
Proof.
  unfold desc. induction s as [| y t IH]; simpl; intros Hs Hb.
  - destruct Hb as [[_ []] | []].
  - apply StronglySorted_inv in Hs. destruct Hs as [Ht Hy].
    rewrite Forall_forall in Hy.
    destruct (Num.ltb (key x) (key y)) eqn:E; simpl in Hb.
    + apply ltb_true in E.
      destruct Hb as [[-> Hb] | Hb].
      * apply (Permutation_in _ (insert_desc_perm x t)) in Hb.
        destruct Hb as [<- | Hb]; [| now left; left].
        right; right. tauto.
      * destruct (IH Ht Hb) as [H | [(-> & Hin & Hle) | (-> & Hin & Hlt)]].
        -- left. now right.
        -- right; left. tauto.
        -- right; right. tauto.
    + apply ltb_false in E.
      destruct Hb as [[<- Hb] | Hb]; [| now left].
      right; left. split; [reflexivity |]. split; [assumption |].
      destruct Hb as [<- | Hb]; [assumption |].
      specialize (Hy b Hb). simpl in Hy. lra.
Qed.

(** [sort_desc] is stable: two elements change their order only if the
    later one has the strictly greater key. *)
Lemma sort_desc_stable (a b : A) (l : list A) :
  before a b (sort_desc key l) ->
  key b < key a \/ (key a == key b /\ before a b l).
Proof.
  induction l as [| x l IH]; simpl; intros Hb.
  - contradiction.
  - apply insert_desc_before in Hb; [| apply sort_desc_desc].
    destruct Hb as [H | [(-> & Hin & Hle) | (-> & Hin & Hlt)]].
    + destruct (IH H) as [Hlt | [Heq Hbef]]; [now left |].
      right. split; [assumption | now right].
    + apply (proj1 (sort_desc_In b l)) in Hin.
      destruct (Qlt_le_dec (key b) (key x)) as [Hlt | Hge]; [now left |].
      right. split; [lra |]. left. split; [reflexivity | exact Hin].
    + now left.
Qed.

End Sorting.

Lemma before_In {A : Type} (a b : A) (l : list A) : before a b l -> In a l /\ In b l.
Proof.
  induction l as [| y t IH]; simpl.
  - tauto.
  - intros [[-> Hb] | H]; [tauto |].
    destruct (IH H). tauto.
Qed.


Lemma before_map {A B : Type} (f : A -> B) (a b : B) (l : list A) :
  before a b (map f l) ->
  exists x y, f x = a /\ f y = b /\ before x y l.
Proof.
  induction l as [| z t IH]; simpl.
  - tauto.
  - intros [[Ha Hb] | H].
    + apply in_map_iff in Hb. destruct Hb as (y & Hy & Hin).
      exists z, y. tauto.
    + destruct (IH H) as (x & y & Hx & Hy & Hb).
      exists x, y. tauto.
Qed.

Lemma map_before {A B : Type} (f : A -> B) (x y : A) (l : list A) :
  before x y l -> before (f x) (f y) (map f l).
Proof.
  induction l as [| z t IH]; simpl.
  - tauto.
  - intros [[-> Hb] | H].
    + left. split; [reflexivity | now apply in_map].
    + right. now apply IH.
Qed.

End ArrProps.

(** ** Binary64 rounding *)

Module F64Props.
Import Num F64.

Lemma pow2_pos (e : Z) : 0 < pow2 e.
Proof. unfold pow2. apply Qpower_0_lt. reflexivity. Qed.

Lemma pow2_plus (a b : Z) : pow2 (a + b) == pow2 a * pow2 b.
Proof. unfold pow2. apply Qpower_plus. discriminate. Qed.

Lemma pow2_Z (n : Z) : (0 <= n)%Z -> pow2 n == inject_Z (2 ^ n).
Proof. intros H. unfold pow2. rewrite Zpower_Qpower by assumption. reflexivity. Qed.

Lemma rne_error (x : Q) :
  x - (1 # 2) <= inject_Z (rne x) <= x + (1 # 2).
Proof.
  unfold rne.
  pose proof (Qfloor_le x) as Hle.
  pose proof (Qlt_floor x) as Hlt.
  rewrite inject_Z_plus in Hlt. change (inject_Z 1) with 1 in Hlt.
  destruct (Qcompare_spec (x - inject_Z (Qfloor x)) (1 # 2)) as [E | E | E].
  - destruct (Z.even (Qfloor x)).
    + split; lra.
    + rewrite inject_Z_plus. change (inject_Z 1) with 1. split; lra.
  - split; lra.
  - rewrite inject_Z_plus. change (inject_Z 1) with 1. split; lra.
Qed.

Lemma rne_nonneg (x : Q) : 0 <= x -> (0 <= rne x)%Z.
Proof.
  intros Hx. unfold rne.
  assert (H0 : (0 <= Qfloor x)%Z).
  { change 0%Z with (Qfloor 0). now apply Qfloor_resp_le. }
  destruct (Qcompare _ _); [destruct (Z.even _) | |]; lia.
Qed.

Lemma Qabs_frac (x : Q) :
  Qabs x == inject_Z (Z.abs (Qnum x)) / inject_Z (Zpos (Qden x)).
Proof.
  destruct x as [n d]. unfold Qabs. simpl Qnum. simpl Qden.
  rewrite (Qmake_Qdiv (Z.abs n) d). reflexivity.
Qed.

Lemma ilog2_le (x : Q) : ~ x == 0 -> pow2 (ilog2 x) <= Qabs x.
Proof.
  intros Hx. unfold ilog2.
  set (n := Z.abs (Qnum x)). set (d := Zpos (Qden x)).
  destruct (Qle_bool (pow2 (Z.log2 n - Z.log2 d)) (Qabs x)) eqn:E.
  - now apply Qle_bool_iff.
  - clear E.
    assert (Hn : (0 < n)%Z).
    { unfold n. destruct x as [[| p | p] q]; simpl; try lia.
      exfalso. apply Hx. reflexivity. }
    assert (Hd : (0 < d)%Z) by (unfold d; lia).
    pose proof (Z.log2_spec n Hn) as [Hn1 _].
    pose proof (Z.log2_spec d Hd) as [_ Hd2].
    pose proof (Z.log2_nonneg n) as Ln. pose proof (Z.log2_nonneg d) as Ld.
    replace (Z.log2 n - Z.log2 d - 1)%Z with (Z.log2 n + - (Z.succ (Z.log2 d)))%Z by lia.
    rewrite pow2_plus. unfold pow2 at 2. rewrite Qpower_opp. fold (pow2 (Z.succ (Z.log2 d))).
    rewrite !pow2_Z by lia.
    rewrite Qabs_frac. fold n. fold d.
    rewrite Zle_Qle in Hn1. apply Z.lt_le_incl in Hd2. rewrite Zle_Qle in Hd2.
    assert (Hdq : 0 < inject_Z d) by (rewrite Zlt_Qlt in Hd; exact Hd).
    assert (Hpq : 0 < inject_Z (2 ^ Z.log2 n)).
    { change 0 with (inject_Z 0). rewrite <- Zlt_Qlt. apply Z.pow_pos_nonneg; lia. }
    set (a := inject_Z (2 ^ Z.log2 n)) in *.
    set (b := inject_Z (2 ^ Z.succ (Z.log2 d))) in *.
    set (nq := inject_Z n) in *. set (dq := inject_Z d) in *.
    clearbody a b nq dq.
    assert (Hb : 0 < b) by lra.
    apply Qle_trans with (a / dq).
    + unfold Qdiv. apply Qmult_le_l; [assumption |].
      apply Qle_shift_inv_l; [assumption |].
      rewrite Qmult_comm. apply Qle_shift_div_r; [assumption |].
      lra.
    + unfold Qdiv. apply Qmult_le_compat_r; [assumption |].
      apply Qlt_le_weak, Qinv_lt_0_compat. assumption.
Qed.

Lemma exponent_bound (x : Q) :
  ~ x == 0 -> pow2 (exponent x) <= 2 * u * Qabs x + 2 * eta.
Proof.
  intros Hx. unfold exponent, u, eta.
  pose proof (ilog2_le x Hx) as Hl.
  pose proof (Qabs_nonneg x) as Ha.
  pose proof (pow2_pos (-53)) as P1. pose proof (pow2_pos (-1075)) as P2.
  assert (E1 : 2 * pow2 (-53) == pow2 (-52)) by reflexivity.
  assert (E2 : 2 * pow2 (-1075) == pow2 (-1074)) by reflexivity.
  destruct (Z.max_spec (ilog2 x - 52) (-1074)) as [[_ E] | [_ E]]; rewrite E.
  - rewrite E2. set (p := pow2 (-1074)) in *. set (q := pow2 (-53)) in *.
    clearbody p q. assert (0 <= q * Qabs x) by (apply Qmult_le_0_compat; lra). lra.
  - replace (ilog2 x - 52)%Z with (ilog2 x + -52)%Z by lia.
    rewrite pow2_plus. rewrite <- E1.
    set (p := pow2 (-1075)) in *. set (q := pow2 (-53)) in *.
    set (l := pow2 (ilog2 x)) in *. clearbody p q l.
    assert (l * (2 * q) <= Qabs x * (2 * q)) by (apply Qmult_le_compat_r; lra).
    lra.
Qed.

(** Rounding to nearest moves a number by at most half a unit in the
    last place. *)
Lemma nearest_close (x : Q) :
  Qabs (nearest x - x) <= u * Qabs x + eta.
Proof.
  unfold nearest. destruct (Qeq_bool x 0) eqn:E0.
  - apply Qeq_bool_iff in E0. rewrite E0. unfold u, eta.
    pose proof (pow2_pos (-1075)).
    setoid_replace (0 - 0) with 0 by ring. change (Qabs 0) with 0.
    set (p := pow2 (-1075)) in *. set (q := pow2 (-53)). clearbody p q. lra.
  - assert (Hx : ~ x == 0).
    { intros H. apply Qeq_bool_iff in H. congruence. }
    rewrite Qred_correct.
    pose proof (exponent_bound x Hx) as Hb.
    pose proof (pow2_pos (exponent x)) as Hp.
    pose proof (rne_error (x / pow2 (exponent x))) as [R1 R2].
    set (p := pow2 (exponent x)) in *.
    set (m := inject_Z (rne (x / p))) in *.
    assert (Hq : x / p * p == x) by (field; lra).
    assert (H1 : (x / p - (1 # 2)) * p <= m * p)
      by (apply Qmult_le_compat_r; lra).
    assert (H2 : m * p <= (x / p + (1 # 2)) * p)
      by (apply Qmult_le_compat_r; lra).
    set (xp := x / p) in *. clearbody m xp.
    set (ax := Qabs x) in *.
    apply Qabs_Qle_condition.
    assert (xp * p - (1#2) * p <= m * p) by lra.
    assert (m * p <= xp * p + (1#2) * p) by lra.
    set (mp := m * p) in *. set (X := xp * p) in *. clearbody mp X ax.
    set (uu := u) in *. set (ee := eta) in *. clearbody uu ee.
    clear R1 R2 H1 H2. split; lra.
Qed.

Lemma nearest_nonneg (x : Q) : 0 <= x -> 0 <= nearest x.
Proof.
  intros Hx. unfold nearest. destruct (Qeq_bool x 0); [lra |].
  rewrite Qred_correct.
  pose proof (pow2_pos (exponent x)) as Hp.
  apply Qmult_le_0_compat; [| lra].
  change 0 with (inject_Z 0). rewrite <- Zle_Qle. apply rne_nonneg.
  apply Qle_shift_div_l; [assumption | lra].
Qed.

(** Rounding an integer leaves it as it is. *)
Lemma rne_Z (k : Z) (x : Q) : x == inject_Z k -> rne x = k.
Proof.
  intros E. unfold rne.
  assert (Hf : Qfloor x = k) by (rewrite E; apply Qfloor_Z).
  rewrite Hf.
  destruct (Qcompare_spec (x - inject_Z k) (1 # 2)) as [H | H | H];
    [exfalso; lra | reflexivity | exfalso; lra].
Qed.

(** Every result of rounding is a multiple of 2^-1074, and so are sums
    of such multiples. *)
Lemma nearest_on_lattice (x : Q) : on_lattice (nearest x).
Proof.
  unfold nearest, on_lattice. destruct (Qeq_bool x 0).
  - exists 0%Z. ring.
  - assert (He : (0 <= exponent x + 1074)%Z) by (unfold exponent; lia).
    exists (rne (x / pow2 (exponent x)) * 2 ^ (exponent x + 1074))%Z.
    rewrite Qred_correct, inject_Z_mult, <- (pow2_Z _ He).
    replace (exponent x) with ((exponent x + 1074) + -1074)%Z at 2 by lia.
    rewrite pow2_plus. ring.
Qed.

Lemma lattice_plus (a b : Q) : on_lattice a -> on_lattice b -> on_lattice (a + b).
Proof.
  intros [i Hi] [j Hj]. exists (i + j)%Z.
  rewrite Hi, Hj, inject_Z_plus. ring.
Qed.

Lemma lattice_zero : on_lattice 0.
Proof. exists 0%Z. ring. Qed.

(** A number whose denominator divides 2^1074 is such a multiple. *)
Lemma on_latticeb_sound (q : Q) : on_latticeb q = true -> on_lattice q.
Proof.
  unfold on_latticeb, on_lattice. intros H. apply Z.eqb_eq in H.
  destruct q as [n d]. cbn [Qden] in H.
  apply Z.mod_divide in H; [| discriminate].
  destruct H as [c Hc]. exists (n * c)%Z.
  assert (Hp : pow2 (-1074) == / inject_Z (2 ^ 1074))
    by (vm_compute; reflexivity).
  rewrite Hc in Hp.
  assert (Hc0 : ~ inject_Z c == 0).
  { intros E. unfold Qeq in E. simpl in E.
    assert (c = 0)%Z by lia. subst c.
    rewrite Z.mul_0_l in Hc. vm_compute in Hc. discriminate. }
  assert (Hd0 : ~ inject_Z (Zpos d) == 0).
  { intros E. unfold Qeq in E. simpl in E. lia. }
  rewrite Hp, (Qmake_Qdiv n d), !inject_Z_mult. field. split; assumption.
Qed.

(** Rounding a multiple of 2^-1074 moves it by at most half a unit in
    the last place, also among the subnormal numbers, which are
    themselves such multiples. *)
Lemma nearest_rel (x : Q) :
  on_lattice x -> Qabs (nearest x - x) <= u * Qabs x.
Proof.
  intros [k Hk].
  pose proof (Qabs_nonneg x) as Ha.
  assert (U0 : 0 < u) by apply pow2_pos.
  unfold nearest. destruct (Qeq_bool x 0) eqn:E0.
  - apply Qeq_bool_iff in E0. rewrite E0.
    setoid_replace (0 - 0) with 0 by ring. change (Qabs 0) with 0. lra.
  - assert (Hx : ~ x == 0).
    { intros H. apply Qeq_bool_iff in H. congruence. }
    rewrite Qred_correct.
    destruct (Z.max_spec (ilog2 x - 52) (-1074)) as [[_ E] | [_ E]];
      fold (exponent x) in E; rewrite E.
    + pose proof (pow2_pos (-1074)) as Hp.
      assert (Hq : x / pow2 (-1074) == inject_Z k) by (rewrite Hk; field; lra).
      rewrite (rne_Z k _ Hq), <- Hk.
      setoid_replace (x - x) with 0 by ring. change (Qabs 0) with 0.
      apply Qmult_le_0_compat; lra.
    + pose proof (ilog2_le x Hx) as Hl.
      pose proof (pow2_pos (ilog2 x - 52)) as Hp.
      pose proof (rne_error (x / pow2 (ilog2 x - 52))) as [R1 R2].
      assert (Hpe : pow2 (ilog2 x - 52) == pow2 (ilog2 x) * (2 * u)).
      { replace (ilog2 x - 52)%Z with (ilog2 x + -52)%Z by lia.
        rewrite pow2_plus.
        assert (E2 : pow2 (-52) == 2 * u) by reflexivity.
        rewrite E2. reflexivity. }
      set (p := pow2 (ilog2 x - 52)) in *.
      set (m := inject_Z (rne (x / p))) in *.
      assert (Hq : x / p * p == x) by (field; lra).
      assert (H1 : (x / p - (1 # 2)) * p <= m * p)
        by (apply Qmult_le_compat_r; lra).
      assert (H2 : m * p <= (x / p + (1 # 2)) * p)
        by (apply Qmult_le_compat_r; lra).
      assert (H3 : pow2 (ilog2 x) * (2 * u) <= Qabs x * (2 * u))
        by (apply Qmult_le_compat_r; lra).
      set (xp := x / p) in *. clearbody m xp.
      set (ax := Qabs x) in *. set (l := pow2 (ilog2 x)) in *.
      apply Qabs_Qle_condition.
      assert (xp * p - (1#2) * p <= m * p) by lra.
      assert (m * p <= xp * p + (1#2) * p) by lra.
      set (mp := m * p) in *. set (X := xp * p) in *.
      set (lu := l * (2 * u)) in *. set (au := ax * (2 * u)) in *.
      assert (Eau : au == 2 * (u * ax)) by (unfold au; ring).
      set (uax := u * ax) in *.
      clearbody mp X ax lu au uax p. clear R1 R2 H1 H2. split; lra.
Qed.

(** The constants, as linear arithmetic needs them. *)
Lemma f64_constants :
  0 < u /\ u <= 1 # 1000000000000000 /\ 0 < eta /\
  eta <= 1 # 1000000000000000 /\ 1 <= huge /\ 16 * huge <= pow2 1023 /\
  2 * pow2 1023 == pow2 1024.
Proof.
  unfold u, eta, huge.
  repeat split; try apply pow2_pos; vm_compute; congruence.
Qed.

Lemma pow2_1023_large : 1000000 <= pow2 1023.
Proof. vm_compute. congruence. Qed.

(** Within the range of the finite numbers, [rnd] is [nearest]. *)
Lemma rnd_finite (x : Q) :
  Qabs x <= pow2 1023 -> rnd x = Fin (nearest x).
Proof.
  intros Hx. unfold rnd.
  pose proof (nearest_close x) as Hc.
  apply Qabs_Qle_condition in Hc. apply Qabs_Qle_condition in Hx.
  destruct f64_constants as (U0 & U1 & E0 & ET & H1 & H16 & P).
  pose proof (Qabs_nonneg x) as Ha.
  assert (Hux : u * Qabs x <= (1 # 4) * Qabs x)
    by (apply Qmult_le_compat_r; lra).
  assert (Hax : Qabs x <= pow2 1023) by (apply Qabs_Qle_condition; exact Hx).
  assert (Het : eta <= 1) by lra.
  assert (Hxa : x <= Qabs x) by apply Qle_Qabs.
  assert (Hxb : - x <= Qabs x) by (rewrite <- Qabs_opp; apply Qle_Qabs).
  set (y := nearest x) in *. set (ax := Qabs x) in *. set (ux := u * ax) in *.
  set (p := pow2 1023) in *. set (P4 := pow2 1024) in *.
  set (ee := eta) in *. set (hh := huge) in *. set (uu := u) in *.
  clearbody y ax ux p P4 ee hh uu.
  destruct (Qle_bool P4 y) eqn:B1.
  { apply Qle_bool_iff in B1. lra. }
  destruct (Qle_bool y (- P4)) eqn:B2.
  { apply Qle_bool_iff in B2. lra. }
  reflexivity.
Qed.

(** The result of rounding a number that is not negative and within
    range. *)
Lemma rnd_pos (x : Q) :
  0 <= x -> x <= pow2 1023 ->
  exists y, rnd x = Fin y /\ 0 <= y /\
            x - (u * x + eta) <= y <= x + (u * x + eta).
Proof.
  intros H0 H1. exists (nearest x).
  assert (Ha : Qabs x == x) by (apply Qabs_pos; assumption).
  split; [apply rnd_finite; rewrite Ha; assumption |].
  split; [now apply nearest_nonneg |].
  pose proof (nearest_close x) as Hc. rewrite Ha in Hc.
  apply Qabs_Qle_condition in Hc. split; lra.
Qed.

(** The sum of two binary64 numbers, neither negative, within range:
    no absolute term, since a subnormal sum is exact. *)
Lemma rnd_sum (x : Q) :
  0 <= x -> x <= pow2 1023 -> on_lattice x ->
  exists y, rnd x = Fin y /\ 0 <= y /\ on_lattice y /\
            x - u * x <= y <= x + u * x.
Proof.
  intros H0 H1 Hl. exists (nearest x).
  assert (Ha : Qabs x == x) by (apply Qabs_pos; assumption).
  split; [apply rnd_finite; rewrite Ha; assumption |].
  split; [now apply nearest_nonneg |].
  split; [apply nearest_on_lattice |].
  pose proof (nearest_rel x Hl) as Hc. rewrite Ha in Hc.
  apply Qabs_Qle_condition in Hc. split; lra.
Qed.

Lemma len_cons (q : Q) (qs : list Q) : len (q :: qs) == len qs + 1.
Proof.
  unfold len. cbn [List.length]. rewrite Nat2Z.inj_succ. unfold Z.succ.
  rewrite inject_Z_plus. reflexivity.
Qed.

Lemma len_nonneg (qs : list Q) : 0 <= len qs.
Proof. unfold len. change 0 with (inject_Z 0). rewrite <- Zle_Qle. lia. Qed.

Lemma qsum_nonneg (qs : list Q) : (forall q, In q qs -> 0 <= q) -> 0 <= qsum qs.
Proof.
  induction qs as [| q qs IH]; simpl; intros H; [lra |].
  assert (0 <= q) by (apply H; now left).
  assert (0 <= qsum qs) by (apply IH; intros; apply H; now right). lra.
Qed.

(** The running sum of [reduce]: each addition is off by at most [G]. *)
Lemma total_steps (F G : Q) (qs : list Q) (a T0 E : Q) :
  G == u * (2 * F) -> 2 * F <= pow2 1023 ->
  (forall q, In q qs -> 0 <= q /\ on_lattice q) ->
  0 <= a -> 0 <= T0 -> on_lattice T0 -> a + qsum qs <= F ->
  a - E <= T0 <= a + E -> E + len qs * G <= F ->
  exists T, fold_left add (map Fin qs) (Fin T0) = Fin T /\ 0 <= T /\
            a + qsum qs - (E + len qs * G) <= T <= a + qsum qs + (E + len qs * G).
Proof.
  intros HG HF. revert a T0 E.
  destruct f64_constants as (U0 & U1 & E0 & _).
  induction qs as [| q qs IH]; intros a T0 E Hpos Ha HT0 HT0l Hsum HE Hbud.
  - exists T0. unfold len. simpl. change (inject_Z 0) with 0.
    split; [reflexivity |]. split; [assumption |]. split; lra.
  - assert (Hq : 0 <= q) by (apply Hpos; now left).
    assert (Hql : on_lattice q) by (apply Hpos; now left).
    assert (Hqs : 0 <= qsum qs).
    { apply qsum_nonneg. intros x Hx. apply Hpos. now right. }
    pose proof (len_nonneg qs) as Hl. rewrite len_cons in Hbud.
    assert (HGp : 0 <= G).
    { rewrite HG. apply Qmult_le_0_compat; [lra |]. simpl in Hsum. lra. }
    assert (HlG : 0 <= len qs * G) by (apply Qmult_le_0_compat; assumption).
    simpl in Hsum.
    destruct (rnd_sum (T0 + q)) as (T1 & HT1 & HT1p & HT1l & HT1b);
      [lra | lra | now apply lattice_plus |].
    assert (Hux : u * (T0 + q) <= u * (2 * F)) by (apply Qmult_le_l; lra).
    destruct (IH (a + q) T1 (E + G)) as (T & HT & HTp & HTb).
    + intros; apply Hpos; now right.
    + lra.
    + assumption.
    + assumption.
    + lra.
    + split; lra.
    + lra.
    + exists T. cbn [map fold_left]. change (add (Fin T0) (Fin q)) with (rnd (T0 + q)).
      rewrite HT1. split; [exact HT |]. split; [assumption |].
      rewrite len_cons. simpl. split; lra.
Qed.

(** The total of at most five binary64 numbers that are not negative:
    off by at most 1e-13 of the exact sum. *)
Lemma total_close (qs : list Q) :
  (forall q, In q qs -> 0 <= q <= huge /\ on_lattice q) ->
  (List.length qs <= 5)%nat -> 0 < qsum qs ->
  exists T, total (map Fin qs) = Fin T /\
            qsum qs - (1 # 10000000000000) * qsum qs <= T
              <= qsum qs + (1 # 10000000000000) * qsum qs.
Proof.
  intros Hr Hlen Hpos0.
  destruct f64_constants as (U0 & U1 & E0 & ET & H1 & H16 & P).
  set (S := qsum qs) in *.
  assert (HS : S <= 5 * huge).
  { unfold S. clear Hpos0. revert Hlen. 
    assert (Hgen : forall n, (List.length qs <= n)%nat ->
                     qsum qs <= inject_Z (Z.of_nat n) * huge).
    { induction qs as [| q qs IH]; intros n Hn; simpl.
      - apply Qmult_le_0_compat; [| lra].
        change 0 with (inject_Z 0). rewrite <- Zle_Qle. lia.
      - destruct n as [| n]; [simpl in Hn; lia |].
        rewrite Nat2Z.inj_succ. unfold Z.succ. rewrite inject_Z_plus.
        change (inject_Z 1) with 1.
        assert (q <= huge) by (apply (Hr q); now left).
        assert (qsum qs <= inject_Z (Z.of_nat n) * huge).
        { apply IH; [intros; apply Hr; now right | simpl in Hn; lia]. }
        lra. }
    intros Hl. apply (Hgen 5%nat Hl). }
  assert (Hl5 : len qs <= 5).
  { unfold len. change 5 with (inject_Z 5). rewrite <- Zle_Qle. lia. }
  pose proof (len_nonneg qs) as Hl0.
  set (G := u * (2 * S)).
  assert (HuS : u * S <= (1 # 1000000000000000) * S)
    by (apply Qmult_le_compat_r; lra).
  assert (HuS0 : 0 <= u * S) by (apply Qmult_le_0_compat; lra).
  assert (HG : 0 <= G /\ G <= 3 * (u * S)).
  { unfold G.
    setoid_replace (u * (2 * S)) with (2 * (u * S)) by ring. split; lra. }
  assert (HlG : len qs * G <= 5 * G) by (apply Qmult_le_compat_r; lra).
  assert (HlG0 : 0 <= len qs * G) by (apply Qmult_le_0_compat; lra).
  destruct (total_steps S G qs 0 0 0) as (T & HT & _ & HTb).
  - reflexivity.
  - lra.
  - intros q Hq. split; apply Hr; assumption.
  - lra.
  - lra.
  - apply lattice_zero.
  - fold S. lra.
  - split; lra.
  - lra.
  - exists T. split; [exact HT |]. fold S in HTb. split; lra.
Qed.

(** Dividing by a total that is off by 1e-13 moves a quotient by at most
    2e-13 of itself. *)
Lemma ratio_close (q S T : Q) :
  0 <= q -> 0 < S ->
  S - (1 # 10000000000000) * S <= T <= S + (1 # 10000000000000) * S ->
  q / S - (2 # 10000000000000) * (q / S) <= q / T
    <= q / S + (2 # 10000000000000) * (q / S).
Proof.
  intros Hq HS [HT1 HT2].
  assert (HT : 0 < T) by lra.
  assert (Hrho : q / S * S == q) by (field; lra).
  assert (Hrho0 : 0 <= q / S) by (apply Qle_shift_div_l; lra).
  set (rho := q / S) in *. clearbody rho.
  assert (H1 : (S - (1 # 10000000000000) * S) * rho <= T * rho)
    by (apply Qmult_le_compat_r; assumption).
  assert (H2 : T * rho <= (S + (1 # 10000000000000) * S) * rho)
    by (apply Qmult_le_compat_r; assumption).
  split.
  - apply Qle_shift_div_l; [assumption |]. 
    set (rT := rho * T) in *. set (rS := rho * S) in *.
    assert (E1 : (S + (1 # 10000000000000) * S) * rho == rS + (1 # 10000000000000) * rS)
      by (unfold rS; ring).
    assert (E3 : T * rho == rT) by (unfold rT; ring). rewrite E3 in H2.
    assert (E2 : (rho - (2 # 10000000000000) * rho) * T == rT - (2 # 10000000000000) * rT)
      by (unfold rT; ring).
    rewrite E2. rewrite E1 in H2. clearbody rT rS. lra.
  - apply Qle_shift_div_r; [assumption |].
    set (rT := rho * T) in *. set (rS := rho * S) in *.
    assert (E1 : (S - (1 # 10000000000000) * S) * rho == rS - (1 # 10000000000000) * rS)
      by (unfold rS; ring).
    assert (E3 : T * rho == rT) by (unfold rT; ring). rewrite E3 in H1.
    assert (E2 : (rho + (2 # 10000000000000) * rho) * T == rT + (2 # 10000000000000) * rT)
      by (unfold rT; ring).
    rewrite E2. rewrite E1 in H1. clearbody rT rS. lra.
Qed.


Lemma is_zero_pos (x : Q) : 0 < x -> Num.is_zero x = false.
Proof.
  intros H. unfold Num.is_zero. destruct (Qeq_bool x 0) eqn:E; [| reflexivity].
  apply Qeq_bool_iff in E. lra.
Qed.

(** One cell of a renormalised vector: the binary64 number nearest to
    [n / 10000], where [n] is within 0.500001 of 10000 times the exact
    share of the cell. *)
Lemma share_close (q S T : Q) :
  0 <= q <= S -> 0 < S ->
  S - (1 # 10000000000000) * S <= T <= S + (1 # 10000000000000) * S ->
  exists n : Z,
    share (Fin T) (Fin q) = grid n /\ (0 <= n)%Z /\
    10000 * (q / S) - (500001 # 1000000) <= inject_Z n
      <= 10000 * (q / S) + (500001 # 1000000).
Proof.
  intros [Hq0 HqS] HS HT.
  destruct f64_constants as (U0 & U1 & E0 & Het & H1 & H16 & P).
  assert (HTp : 0 < T) by lra.
  pose proof (ratio_close q S T Hq0 HS HT) as Hr.
  assert (Hrho : 0 <= q / S <= 1).
  { split; [apply Qle_shift_div_l; lra | apply Qle_shift_div_r; lra]. }
  pose proof pow2_1023_large as Hhuge.
  set (rho := q / S) in *. set (r := q / T) in *.
  unfold share, round4.
  assert (Hd : div (Fin q) (Fin T) = rnd r).
  { unfold div. rewrite (is_zero_pos T HTp). reflexivity. }
  rewrite Hd.
  destruct (rnd_pos r) as (d & Hd1 & Hd0 & Hdb); [lra | lra |].
  rewrite Hd1. change (mul (Fin d) (Fin 10000)) with (rnd (d * 10000)).
  assert (Hur : u * r <= (1 # 1000000000000000) * r)
    by (apply Qmult_le_compat_r; lra).
  assert (Hur0 : 0 <= u * r) by (apply Qmult_le_0_compat; lra).
  destruct (rnd_pos (d * 10000)) as (e & He1 & He0 & Heb); [lra | lra |].
  rewrite He1. cbn [round].
  exists (Num.round e). split; [reflexivity |].
  assert (Hue : u * (d * 10000) <= (1 # 1000000000000000) * (d * 10000))
    by (apply Qmult_le_compat_r; lra).
  assert (Hue0 : 0 <= u * (d * 10000)) by (apply Qmult_le_0_compat; lra).
  destruct (round_bounds e) as [Rl Rh].
  split.
  - change 0%Z with (Num.round 0). apply round_mono. assumption.
  - set (n := inject_Z (Num.round e)) in *.
    set (ur := u * r) in *. set (ue := u * (d * 10000)) in *.
    clearbody n ur ue r rho. split; lra.
Qed.

(** All cells of a renormalised vector. *)
Lemma shares_close (S T : Q) (qs : list Q) :
  (forall q, In q qs -> 0 <= q <= S) -> 0 < S ->
  S - (1 # 10000000000000) * S <= T <= S + (1 # 10000000000000) * S ->
  exists ns : list Z,
    map (share (Fin T)) (map Fin qs) = map grid ns /\
    Forall (fun n => (0 <= n)%Z) ns /\ Forall2 (near S) qs ns.
Proof.
  intros Hr Hpos0 HT. induction qs as [| q qs IH].
  - exists []. repeat split; constructor.
  - destruct IH as (ns & Hm & Hp & Hn); [intros; apply Hr; now right |].
    destruct (share_close q S T) as (n & Hs & Hn0 & Hnb);
      [apply Hr; now left | assumption | assumption |].
    exists (n :: ns). cbn [map]. rewrite Hs, Hm.
    split; [reflexivity |]. split; constructor; assumption.
Qed.

Lemma near_sum (S : Q) (qs : list Q) (ns : list Z) :
  0 < S -> Forall2 (near S) qs ns ->
  10000 * (qsum qs / S) - len qs * (500001 # 1000000) <= inject_Z (zsum ns)
    <= 10000 * (qsum qs / S) + len qs * (500001 # 1000000).
Proof.
  intros HS H. induction H as [| q n qs ns Hn _ IH].
  - unfold len. simpl. change (inject_Z 0) with 0.
    setoid_replace (0 / S) with 0 by (field; lra). split; lra.
  - rewrite len_cons. cbn [qsum zsum fold_right]. rewrite inject_Z_plus.
    fold (qsum qs). fold (zsum ns).
    setoid_replace ((q + qsum qs) / S) with (q / S + qsum qs / S) by (field; lra).
    unfold near in Hn.
    set (a := q / S) in *. set (b := qsum qs / S) in *.
    set (l := len qs) in *. set (x := inject_Z n) in *. set (y := inject_Z (zsum ns)) in *.
    clearbody a b l x y. split; lra.
Qed.

(** The integers of a renormalised vector of at most five cells sum to
    10000 within 2. *)
Lemma grid_sum (qs : list Q) (ns : list Z) :
  (List.length qs <= 5)%nat -> 0 < qsum qs ->
  Forall2 (near (qsum qs)) qs ns ->
  (9998 <= zsum ns <= 10002)%Z.
Proof.
  intros Hlen HS H.
  pose proof (near_sum (qsum qs) qs ns HS H) as [L U].
  assert (E : qsum qs / qsum qs == 1) by (field; lra).
  rewrite E in L, U.
  assert (Hl5 : len qs <= 5).
  { unfold len. change 5 with (inject_Z 5). rewrite <- Zle_Qle. lia. }
  pose proof (len_nonneg qs) as Hl0.
  assert (Hlo : inject_Z 9997 < inject_Z (zsum ns)).
  { change (inject_Z 9997) with 9997. set (l := len qs) in *. clearbody l. lra. }
  assert (Hhi : inject_Z (zsum ns) < inject_Z 10003).
  { change (inject_Z 10003) with 10003. set (l := len qs) in *. clearbody l. lra. }
  rewrite <- Zlt_Qlt in Hlo, Hhi. lia.
Qed.

End F64Props.

(** ** Provider weight table in binary64 *)

Module ModelWeight64Props.
Import Num F64 F64Props ModelWeightManager64.

(** The clamp of anything but NaN is finite and at least the floor. *)
Lemma clamp_finite (mn mx : Q) (x : num) :
  x <> NaN ->
  exists v, F64.max (Fin mn) (F64.min (Fin mx) x) = Fin v /\
            mn <= v /\ (v <= mx \/ v == mn) .
Proof.
  intros Hx. destruct x as [q | | |]; [| congruence | |].
  - cbn [F64.min F64.ltb].
    destruct (Num.ltb q mx) eqn:E1.
    + apply ArrProps.ltb_true in E1. cbn [F64.max F64.ltb].
      destruct (Num.ltb mn q) eqn:E2.
      * apply ArrProps.ltb_true in E2. exists q. split; [reflexivity |]. split; [lra | left; lra].
      * apply ArrProps.ltb_false in E2. exists mn. split; [reflexivity |]. split; [lra | right; reflexivity].
    + apply ArrProps.ltb_false in E1. cbn [F64.max F64.ltb].
      destruct (Num.ltb mn mx) eqn:E2.
      * apply ArrProps.ltb_true in E2. exists mx. split; [reflexivity |]. split; [lra | left; lra].
      * apply ArrProps.ltb_false in E2. exists mn. split; [reflexivity |]. split; [lra | right; reflexivity].
  - cbn [F64.min F64.ltb F64.max].
    destruct (Num.ltb mn mx) eqn:E2.
    + apply ArrProps.ltb_true in E2. exists mx. split; [reflexivity |]. split; [lra | left; lra].
    + apply ArrProps.ltb_false in E2. exists mn. split; [reflexivity |]. split; [lra | right; reflexivity].
  - cbn. exists mn. split; [reflexivity |]. split; [lra | right; reflexivity].
Qed.

(** The clamp of a binary64 number between binary64 bounds is one. *)
Lemma clamp_on_lattice (mn mx : Q) (x : num) (v : Q) :
  on_lattice mn -> on_lattice mx -> (forall q, x = Fin q -> on_lattice q) ->
  F64.max (Fin mn) (F64.min (Fin mx) x) = Fin v -> on_lattice v.
Proof.
  intros Hmn Hmx Hx. destruct x as [q | | |]; cbn [F64.min F64.max F64.ltb].
  - specialize (Hx q eq_refl).
    destruct (Num.ltb q mx); cbn [F64.max F64.ltb];
      destruct (Num.ltb mn _); intros E; injection E as <-; assumption.
  - discriminate.
  - destruct (Num.ltb mn mx); intros E; injection E as <-; assumption.
  - cbn. intros E; injection E as <-; assumption.
Qed.

Lemma rnd_on_lattice (x q : Q) : F64.rnd x = Fin q -> on_lattice q.
Proof.
  unfold F64.rnd. destruct (Qle_bool _ _); [discriminate |].
  destruct (Qle_bool _ _); [discriminate |].
  intros E; injection E as <-. apply nearest_on_lattice.
Qed.

Lemma rnd_not_NaN (x : Q) : F64.rnd x <> NaN.
Proof.
  unfold F64.rnd. destruct (Qle_bool _ _); [discriminate |].
  destruct (Qle_bool _ _); discriminate.
Qed.


Lemma In_le_qsum (qs : list Q) (q : Q) :
  (forall x, In x qs -> 0 <= x) -> In q qs -> q <= qsum qs.
Proof.
  induction qs as [| x qs IH]; simpl; intros Hpos Hin; [contradiction |].
  assert (0 <= x) by (apply Hpos; now left).
  assert (0 <= qsum qs) by (apply qsum_nonneg; intros; apply Hpos; now right).
  destruct Hin as [-> | Hin].
  - lra.
  - assert (q <= qsum qs) by (apply IH; [intros; apply Hpos; now right | assumption]).
    lra.
Qed.

Lemma vals_spec (r : Row64) :
  cells_in_range r ->
  AList.values r = map Fin (vals r) /\
  (forall q, In q (vals r) -> 0 <= q <= F64.huge /\ on_lattice q) /\
  exact_sum r = qsum (vals r).
Proof.
  unfold cells_in_range, AList.values, vals.
  induction r as [| [m x] r IH]; intros Hr.
  - simpl. repeat split; intros; contradiction.
  - destruct IH as (I1 & I2 & I3); [intros; eapply Hr; right; eassumption |].
    destruct (Hr m x (or_introl eq_refl)) as (v & -> & Hv).
    cbn [map snd fst exact_sum fold_right]. split; [| split].
    + f_equal. exact I1.
    + intros q [<- | Hq]; [exact Hv | now apply I2].
    + fold (exact_sum r). rewrite I3. reflexivity.
Qed.

Lemma keys_row_set64 (r : Row64) (m : ModelId) (v : num) :
  AList.keys (row_set r m v) = AList.keys r \/
  (~ In m (AList.keys r) /\ AList.keys (row_set r m v) = AList.keys r ++ [m]).
Proof.
  unfold row_set, AList.keys.
  induction r as [| [k x] r IH]; simpl.
  - right. split; [tauto | reflexivity].
  - destruct (ModelId_eqb m k) eqn:E; simpl.
    + now left.
    + destruct IH as [IH | [Hn IH]]; rewrite IH.
      * now left.
      * right. split; [| reflexivity].
        intros [H | H]; [| contradiction].
        subst k. assert (ModelId_eqb m m = true) by now apply ModelWeightProps.ModelId_eqb_eq.
        congruence.
Qed.

Lemma row_set_well_formed64 (r : Row64) (m : ModelId) (v : num) :
  well_formed r -> well_formed (row_set r m v).
Proof.
  unfold well_formed. intros Hwf.
  destruct (keys_row_set64 r m v) as [E | [Hn E]]; rewrite E.
  - assumption.
  - apply NoDup_app; [assumption | repeat constructor; simpl; tauto |].
    intros x Hx [Hm | []]. subst x. contradiction.
Qed.

Lemma row_at_most_four64 (r : Row64) :
  well_formed r -> (List.length r <= 4)%nat.
Proof.
  intros Hwf. unfold well_formed, AList.keys in Hwf.
  rewrite <- (length_map fst r).
  apply (NoDup_incl_length (l' := ModelWeightManager.all_models) Hwf).
  intros m _. destruct m; simpl; auto.
Qed.

Lemma row_set_in64 (r : Row64) (m k : ModelId) (v x : num) :
  In (k, x) (row_set r m v) -> In (k, x) r \/ x = v.
Proof.
  unfold row_set. induction r as [| [k' x'] r IH]; simpl.
  - intros [E | []]. right. congruence.
  - destruct (ModelId_eqb m k'); simpl.
    + intros [E | H]; [right; congruence | left; now right].
    + intros [E | H]; [left; now left |].
      destruct (IH H) as [H' | H']; [left; now right | now right].
Qed.

Lemma table_set_same64 (t : ModelWeights64) (b : ActionBucket) (r : Row64) :
  table_set t b r b = r.
Proof. unfold table_set. destruct b; reflexivity. Qed.

Lemma table_set_other64 (t : ModelWeights64) (b b' : ActionBucket) (r : Row64) :
  b' <> b -> table_set t b r b' = t b'.
Proof.
  intros Hne. unfold table_set.
  destruct (ActionBucket_eqb b b') eqn:E; [| reflexivity].
  destruct b, b'; simpl in E; congruence.
Qed.

(** Renormalising a row of at most four finite cells, none negative. *)
Lemma normalizeRow_grid (r : Row64) :
  cells_in_range r -> (List.length r <= 4)%nat -> 0 < exact_sum r ->
  exists ns : list Z,
    AList.keys (normalizeRow r) = AList.keys r /\
    on_grid_at (normalizeRow r) ns /\
    Forall (fun n => (0 <= n)%Z) ns /\
    Forall2 (near (exact_sum r)) (vals r) ns /\
    (9998 <= zsum ns <= 10002)%Z.
Proof.
  intros Hr Hlen Hpos0.
  destruct (vals_spec r Hr) as (Hv & Hq & Hs).
  rewrite Hs in *.
  assert (Hl : (List.length (vals r) <= 5)%nat)
    by (unfold vals; rewrite length_map; lia).
  destruct (total_close (vals r) Hq Hl Hpos0) as (T & HT & HTb).
  assert (HS : 0 < qsum (vals r)) by assumption.
  assert (HTp : 0 < T) by lra.
  destruct (shares_close (qsum (vals r)) T (vals r)) as (ns & Hm & Hp & Hn);
    [| assumption | assumption |].
  { intros q Hin. split; [apply (Hq q); assumption |].
    apply In_le_qsum; [intros x Hx; apply (Hq x); assumption | assumption]. }
  exists ns. unfold normalizeRow. rewrite Hv, HT.
  cbn [F64.is_zero]. rewrite (is_zero_pos T HTp).
  split; [| split; [| split; [| split]]].
  - unfold AList.keys. rewrite map_map. reflexivity.
  - unfold on_grid_at. rewrite map_map. cbn [snd].
    rewrite <- Hm. fold (AList.values r) in Hv. 
    change (map (fun x : ModelId * num => F64.share (Fin T) (snd x)) r)
      with (map (fun x : ModelId * num => F64.share (Fin T) (snd x)) r).
    rewrite <- Hv. unfold AList.values. rewrite map_map. reflexivity.
  - exact Hp.
  - exact Hn.
  - apply (grid_sum (vals r)); assumption.
Qed.

Lemma clamped_cell_range (t : ModelWeights64) (b : ActionBucket) (m : ModelId)
    (delta mn mx : Q) :
  cells_in_range (t b) -> 0 <= mn <= F64.huge -> mx <= F64.huge ->
  on_lattice mn -> on_lattice mx ->
  exists v, clamped_cell t b m delta mn mx = Fin v /\
            0 <= v <= F64.huge /\ on_lattice v.
Proof.
  intros Hr Hmn Hmx Lmn Lmx. unfold clamped_cell.
  set (current := orElse (row_get (t b) m) (Fin (25 # 100))).
  assert (Hc : exists c, current = Fin c).
  { unfold current, row_get. destruct (AList.get ModelId_eqb (t b) m) as [x |] eqn:E.
    - simpl. assert (Hin : exists k, In (k, x) (t b)).
      { clear -E. induction (t b) as [| [k y] r IH]; simpl in E; [discriminate |].
        destruct (ModelId_eqb m k).
        - injection E as ->. exists k. now left.
        - destruct (IH E) as (k' & H). exists k'. now right. }
      destruct Hin as (k & Hin). destruct (Hr k x Hin) as (v & -> & _). eauto.
    - simpl. eauto. }
  destruct Hc as (c & ->). cbn [F64.add].
  destruct (clamp_finite mn mx (F64.rnd (c + delta)) (rnd_not_NaN _))
    as (v & Hv & Hlo & Hhi).
  exists v. split; [exact Hv |]. split; [split; [lra | destruct Hhi; lra] |].
  apply (clamp_on_lattice mn mx (F64.rnd (c + delta))); try assumption.
  intros q. apply rnd_on_lattice.
Qed.

(** C2 (as amended).  [adjustWeight] leaves every other category's row
    exactly as it was.  Take a row of binary64 cells, none negative and
    none above 2^1019, and binary64 clamp bounds with the floor in
    0 .. 2^1019 and the ceiling at most 2^1019 (all that is used of a
    binary64 number is that it is a multiple of 2^-1074).  When the
    total of the row after the clamp is not 0, the row is renormalised:
    it keeps its providers, every cell becomes the binary64 number
    nearest to [n / 10000] for an integer [n] within 0.500001 of 10000
    times the cell's exact share of the total, and these integers sum to
    a value between 9998 and 10002, so that the row sums to 1 within
    2e-4.  When the computed total is 0 the row is left as clamped. *)
Theorem C2_adjustWeight_renormalises_one_row
    (t : ModelWeights64) (b : ActionBucket) (m : ModelId) (delta mn mx : Q) :
  let t' := adjustWeight t b m delta mn mx in
  let clamped := row_set (t b) m (clamped_cell t b m delta mn mx) in
  (forall b', b' <> b -> t' b' = t b') /\
  (well_formed (t b) -> cells_in_range (t b) ->
   0 <= mn <= F64.huge -> mx <= F64.huge ->
   F64.on_lattice mn -> F64.on_lattice mx -> 0 < exact_sum clamped ->
   exists ns : list Z,
     AList.keys (t' b) = AList.keys clamped /\
     on_grid_at (t' b) ns /\
     Forall2 (near (exact_sum clamped)) (vals clamped) ns /\
     (9998 <= zsum ns <= 10002)%Z) /\
  (F64.is_zero (F64.total (AList.values clamped)) = true -> t' b = clamped).
Proof.
  cbv zeta. unfold adjustWeight, normalizeBucket.
  set (clamped := row_set (t b) m _).
  rewrite !table_set_same64. split; [| split].
  - intros b' Hne. now rewrite !table_set_other64.
  - intros Hwf Hr Hmn Hmx Lmn Lmx Hpos0.
    destruct (clamped_cell_range t b m delta mn mx Hr Hmn Hmx Lmn Lmx)
      as (v & Hv & Hvr).
    assert (Hrc : cells_in_range clamped).
    { intros k x Hin. unfold clamped in Hin.
      destruct (row_set_in64 _ _ _ _ _ Hin) as [H | ->].
      - exact (Hr k x H).
      - exists v. split; assumption. }
    destruct (normalizeRow_grid clamped Hrc) as (ns & H1 & H2 & _ & H4 & H5).
    + apply row_at_most_four64. now apply row_set_well_formed64.
    + assumption.
    + exists ns. split; [exact H1 | split; [exact H2 | split; [exact H4 | exact H5]]].
  - intros Hz. unfold normalizeRow. rewrite Hz. reflexivity.
Qed.

Lemma C2_adjustWeight_renormalises_one_row_witness :
  let t := Examples.default_table64 in
  let delta := F64.dec (1 # 10) in
  let mn := F64.dec (5 # 100) in
  let mx := F64.dec (60 # 100) in
  let t' := adjustWeight t CTR_FIX claude delta mn mx in
  let clamped :=
    row_set (t CTR_FIX) claude (clamped_cell t CTR_FIX claude delta mn mx) in
  (well_formed (t CTR_FIX) /\ cells_in_range (t CTR_FIX) /\
   0 <= mn <= F64.huge /\ mx <= F64.huge /\
   F64.on_lattice mn /\ F64.on_lattice mx /\ 0 < exact_sum clamped) /\
  (forall b', b' <> CTR_FIX -> t' b' = t b') /\
  exists ns : list Z,
    AList.keys (t' CTR_FIX) = AList.keys clamped /\
    on_grid_at (t' CTR_FIX) ns /\
    Forall2 (near (exact_sum clamped)) (vals clamped) ns /\
    (9998 <= zsum ns <= 10002)%Z.
Proof.
  cbv zeta.
  assert (Hwf : well_formed (Examples.default_table64 CTR_FIX)).
  { unfold well_formed. simpl. repeat constructor; simpl; intuition discriminate. }
  assert (Hr : cells_in_range (Examples.default_table64 CTR_FIX)).
  { intros m x Hin. simpl in Hin.
    destruct Hin as [E | [E | [E | [E | []]]]]; injection E as <- <-;
      (eexists; split; [reflexivity |];
       split; [split; vm_compute; discriminate |];
       apply on_latticeb_sound; vm_compute; reflexivity). }
  assert (Hmn : 0 <= F64.dec (5 # 100) <= F64.huge)
    by (split; vm_compute; discriminate).
  assert (Hmx : F64.dec (60 # 100) <= F64.huge) by (vm_compute; discriminate).
  assert (Lmn : F64.on_lattice (F64.dec (5 # 100))) by apply nearest_on_lattice.
  assert (Lmx : F64.on_lattice (F64.dec (60 # 100))) by apply nearest_on_lattice.
  assert (Ht : 0 < exact_sum
                    (row_set (Examples.default_table64 CTR_FIX) claude
                       (clamped_cell Examples.default_table64 CTR_FIX claude
                          (F64.dec (1 # 10)) (F64.dec (5 # 100)) (F64.dec (60 # 100)))))
    by (vm_compute; reflexivity).
  destruct (C2_adjustWeight_renormalises_one_row Examples.default_table64 CTR_FIX
              claude (F64.dec (1 # 10)) (F64.dec (5 # 100)) (F64.dec (60 # 100)))
    as (Hother & Hsum & _).
  split; [exact (conj Hwf (conj Hr (conj Hmn (conj Hmx (conj Lmn (conj Lmx Ht)))))) |].
  split; [exact Hother |].
  exact (Hsum Hwf Hr Hmn Hmx Lmn Lmx Ht).
Defined.

(** The scenario of the specification: on the default row (0.25 four
    times) a delta of +0.1 with the clamp 0.05-0.6 gives 0.3182, 0.2273,
    0.2273, 0.2273, which sum to 1.0001. *)
Lemma default_row_after_adjustment :
  let t := Examples.default_table64 in
  let t' := adjustWeight t CTR_FIX claude (F64.dec (1 # 10))
              (F64.dec (5 # 100)) (F64.dec (60 # 100)) in
  AList.keys (t' CTR_FIX) = [claude; openai; gemini; grok] /\
  on_grid_at (t' CTR_FIX) [3182; 2273; 2273; 2273]%Z /\
  zsum [3182; 2273; 2273; 2273]%Z = 10001%Z /\
  F64.total (AList.values (t' CTR_FIX)) = Fin (F64.dec (10001 # 10000)).
Proof.
  cbv zeta. split; [| split; [| split]]; vm_compute; reflexivity.
Qed.

(** C2 as stated fails.  On the row 7/32, 7/32, 9/32, 9/32 (total 1,
    every cell and every intermediate result exact in binary64) a zero
    delta leaves the clamped cell at 7/32; each cell times 10000 ends in
    .5 and is rounded up, to 0.2188, 0.2188, 0.2813, 0.2813, which sum to
    1.0002, summed exactly or in binary64. *)
Lemma C2_counterexample :
  let t := Examples.dyadic_table64 in
  let t' := adjustWeight t CTR_FIX claude 0 (F64.dec (5 # 100)) (F64.dec (60 # 100)) in
  exact_sum (t CTR_FIX) == 1 /\
  on_grid_at (t' CTR_FIX) [2188; 2188; 2813; 2813]%Z /\
  F64.total (AList.values (t' CTR_FIX)) = Fin (F64.dec (10002 # 10000)) /\
  ~ (1 - (1 # 10000) <= exact_sum (t' CTR_FIX) <= 1 + (1 # 10000)).
Proof.
  cbv zeta. split; [| split; [| split]].
  - vm_compute. reflexivity.
  - vm_compute. reflexivity.
  - vm_compute. reflexivity.
  - intros [_ Hhi]. vm_compute in Hhi. apply Hhi. reflexivity.
Qed.

(** The sum can fall to 0.9998 as well.  On the row 1657/32768 three
    times and 15029/32768 the exact scaled shares are 828.5 and 7514.5;
    in binary64 the quotients times 10000 come out just below, at
    828.4999999999999 and 7514.499999999999, and are rounded down. *)
Lemma row_sum_can_fall_to_0_9998 :
  let t := Examples.uneven_table64 in
  let t' := adjustWeight t CTR_FIX claude 0 (F64.dec (5 # 100)) (F64.dec (60 # 100)) in
  on_grid_at (t' CTR_FIX) [828; 828; 828; 7514]%Z /\
  zsum [828; 828; 828; 7514]%Z = 9998%Z /\
  F64.total (AList.values (t' CTR_FIX)) = Fin (F64.dec (9998 # 10000)).
Proof.
  cbv zeta. split; [| split]; vm_compute; reflexivity.
Qed.

(** A negative cell can put the computed total far from the exact one:
    the cells 2^53, 1, -2^53, 1 have the exact total 2 and the computed
    total 1; dividing by it leaves the row as it is, summing to 2. *)
Lemma negative_cell_breaks_the_sum :
  let t := Examples.cancelling_table64 in
  let t' := adjustWeight t CTR_FIX claude 0 0 (F64.pow2 60) in
  exact_sum (t CTR_FIX) == 2 /\
  F64.total (AList.values (t CTR_FIX)) = Fin 1 /\
  on_grid_at (t' CTR_FIX)
    [90071992547409920000; 10000; -90071992547409920000; 10000]%Z.
Proof.
  cbv zeta. split; [| split]; vm_compute; reflexivity.
Qed.

(** With larger cells the total can overflow: two cells of 2^1023 have
    the computed total Infinity, and every cell becomes 0. *)
Lemma overflowing_total_zeroes_the_row :
  let t := Examples.overflowing_table64 in
  let t' := adjustWeight t CTR_FIX claude 0 0 (F64.pow2 1023) in
  F64.total (AList.values (t CTR_FIX)) = PInf /\
  t' CTR_FIX = [(claude, Fin 0); (openai, Fin 0)].
Proof.
  cbv zeta. split; vm_compute; reflexivity.
Qed.

End ModelWeight64Props.

(** ** Content weight adjuster in binary64 *)

Module WeightAdjuster64Props.
Import Num F64 F64Props WeightAdjuster64.
Import ModelWeight64Props.

Ltac in_bounds_by_computation :=
  eexists; split; [reflexivity |];
  split; [split; vm_compute; discriminate |];
  apply on_latticeb_sound; vm_compute; reflexivity.

Lemma wget_wset64 (w : Weights) (k k' : WeightKey) (v : num) :
  wget (wset w k v) k' = wget w k' \/ wget (wset w k v) k' = v.
Proof. destruct k, k'; simpl; auto. Qed.

Lemma add_not_NaN (o : Q) (x : num) :
  x <> NaN -> F64.add (Fin o) x <> NaN.
Proof.
  destruct x; simpl; try congruence. intros _. apply rnd_not_NaN.
Qed.

(** What one adjustment keeps: the configuration and the clamp. *)
Lemma add_on_lattice (o : Q) (x : num) (q : Q) :
  F64.add (Fin o) x = Fin q -> on_lattice q.
Proof.
  destruct x; simpl; try discriminate. apply rnd_on_lattice.
Qed.

Lemma applyAdjustment_keeps_clamp (a : t) (k : WeightKey) (d : Q) (r : string) :
  minWeight (config a) <= maxWeight (config a) ->
  on_lattice (minWeight (config a)) -> on_lattice (maxWeight (config a)) ->
  in_bounds (config a) (weights a) ->
  let a' := snd (applyAdjustment a k d r) in
  config a' = config a /\ in_bounds (config a) (weights a').
Proof.
  intros Hmm Lmn Lmx Hb. unfold applyAdjustment.
  destruct (Hb k) as (o & Ho & _). rewrite Ho.
  set (adjustment := F64.mul (Fin d) (Fin (learningRate (config a)))).
  assert (Hadj : adjustment <> NaN) by (unfold adjustment; cbn; apply rnd_not_NaN).
  destruct (clamp_finite (minWeight (config a)) (maxWeight (config a))
              (F64.add (Fin o) adjustment) (add_not_NaN o adjustment Hadj))
    as (v & Hv & Hlo & Hhi).
  pose proof (clamp_on_lattice _ _ _ v Lmn Lmx (add_on_lattice o adjustment) Hv)
    as Lv.
  rewrite Hv.
  destruct (F64.ltb _ _); simpl.
  - split; [reflexivity | exact Hb].
  - split; [reflexivity |]. intros k'.
    destruct (wget_wset64 (weights a) k k' (Fin v)) as [E | E]; rewrite E.
    + apply Hb.
    + exists v. split; [reflexivity |].
      split; [split; [lra | destruct Hhi; lra] | exact Lv].
Qed.

Lemma learn_action_keeps_clamp (w0 : World) acc (action : SEOAction) :
  minWeight (config (self w0)) <= maxWeight (config (self w0)) ->
  on_lattice (minWeight (config (self w0))) ->
  on_lattice (maxWeight (config (self w0))) ->
  loop_inv w0 acc -> loop_inv w0 (learn_action acc action).
Proof.
  intros Hmm Lmn Lmx (Hc & Hb). destruct acc as [adjs w]. simpl in *.
  unfold learn_action.
  pose proof (applyAdjustment_keeps_clamp (self w)
                (WeightAdjuster.getWeightKeyForBucket (actionType action))
                (if success (evaluateActionSuccess action) then 1 else - (1 # 2))
                (WeightAdjuster.reason_of action (success (evaluateActionSuccess action)))) as K.
  rewrite Hc in K. specialize (K Hmm Lmn Lmx Hb).
  destruct (applyAdjustment _ _ _ _) as [o a']. simpl in K.
  destruct K as (K1 & K2).
  destruct o; unfold loop_inv; simpl; split; try congruence; exact K2.
Qed.

Lemma cycle_step_keeps_clamp (w0 : World) acc (ref : nat) :
  minWeight (config (self w0)) <= maxWeight (config (self w0)) ->
  on_lattice (minWeight (config (self w0))) ->
  on_lattice (maxWeight (config (self w0))) ->
  loop_inv w0 acc -> loop_inv w0 (cycle_step acc ref).
Proof.
  intros Hmm Lmn Lmx Hinv. unfold cycle_step.
  destruct (learningApplied _); [assumption | now apply learn_action_keeps_clamp].
Qed.

Lemma loop_keeps_clamp (w0 : World) (refs : list nat) acc :
  minWeight (config (self w0)) <= maxWeight (config (self w0)) ->
  on_lattice (minWeight (config (self w0))) ->
  on_lattice (maxWeight (config (self w0))) ->
  loop_inv w0 acc -> loop_inv w0 (fold_left cycle_step refs acc).
Proof.
  intros Hmm Lmn Lmx. revert acc.
  induction refs as [| ref refs IH]; intros acc Hinv; simpl.
  - assumption.
  - apply IH. now apply cycle_step_keeps_clamp.
Qed.

(** A share of a total of five values within the clamp. *)
Lemma share_range (mn mx v rest : Q) :
  0 < mn -> mn <= mx -> mn <= v <= mx -> 4 * mn <= rest <= 4 * mx ->
  mn / (mn + 4 * mx) <= v / (v + rest) <= mx / (mx + 4 * mn).
Proof.
  intros Hmn Hmm [Hv1 Hv2] [Hr1 Hr2].
  assert (P1 : mn * rest <= mn * (4 * mx)) by (apply Qmult_le_l; lra).
  assert (P2 : mn * (4 * mx) <= v * (4 * mx)) by (apply Qmult_le_compat_r; lra).
  assert (P3 : v * (4 * mn) <= mx * (4 * mn)) by (apply Qmult_le_compat_r; lra).
  assert (P4 : mx * (4 * mn) <= mx * rest) by (apply Qmult_le_l; lra).
  split.
  - apply Qle_shift_div_l; [lra |].
    setoid_replace (mn / (mn + 4 * mx) * (v + rest))
      with ((mn * v + mn * rest) / (mn + 4 * mx)) by (field; lra).
    apply Qle_shift_div_r; [lra |].
    setoid_replace (v * (mn + 4 * mx)) with (mn * v + v * (4 * mx)) by ring.
    lra.
  - apply Qle_shift_div_r; [lra |].
    setoid_replace (mx / (mx + 4 * mn) * (v + rest))
      with ((mx * v + mx * rest) / (mx + 4 * mn)) by (field; lra).
    apply Qle_shift_div_l; [lra |].
    setoid_replace (v * (mx + 4 * mn)) with (mx * v + v * (4 * mn)) by ring.
    lra.
Qed.


Lemma near_proper (S S' q : Q) (n : Z) : S == S' -> near S q n -> near S' q n.
Proof. unfold near. intros E H. rewrite <- E. exact H. Qed.

(** Renormalising a vector of binary64 components within the clamp. *)
Lemma normalizeWeights_on_grid (a : t) (v : WeightKey -> Q) (mn mx : Q) :
  0 < mn -> mn <= mx -> mx <= F64.huge ->
  values_are (weights a) v ->
  (forall k, mn <= v k <= mx) -> (forall k, on_lattice (v k)) ->
  exists n : WeightKey -> Z,
    on_grid_at (weights (normalizeWeights a)) n /\
    (forall k, near (sum5 Qplus v) (v k) (n k)) /\
    (9998 <= sum5 Z.add n <= 10002)%Z.
Proof.
  intros Hpos0 Hmm Hhuge Hv Hb Hlat.
  set (qs := [v Kimpressions; v Kposition; v KctrGap; v Kconversions; v Kfreshness]).
  pose proof (Hb Kimpressions) as B1. pose proof (Hb Kposition) as B2.
  pose proof (Hb KctrGap) as B3. pose proof (Hb Kconversions) as B4.
  pose proof (Hb Kfreshness) as B5.
  assert (Hq : forall q, In q qs -> 0 <= q <= F64.huge /\ on_lattice q).
  { intros q [<- | [<- | [<- | [<- | [<- | []]]]]];
      (split; [split; lra | apply Hlat]). }
  assert (HS : qsum qs == sum5 Qplus v) by (unfold qs, qsum, sum5; simpl; ring).
  assert (HSt : 0 < qsum qs) by (rewrite HS; unfold sum5; lra).
  destruct (total_close qs Hq) as (T & HT & HTb); [simpl; lia | assumption |].
  assert (HTp : 0 < T) by lra.
  destruct (shares_close (qsum qs) T qs) as (ns & Hm & _ & Hn);
    [| assumption | assumption |].
  { intros q Hin. split; [apply (Hq q); assumption |].
    apply In_le_qsum; [intros x Hx; apply (Hq x); assumption | assumption]. }
  pose proof (grid_sum qs ns) as Hsum.
  unfold qs in Hn.
  inversion Hn as [| ? n1 ? l1 N1 Hn1]; subst.
  inversion Hn1 as [| ? n2 ? l2 N2 Hn2]; subst.
  inversion Hn2 as [| ? n3 ? l3 N3 Hn3]; subst.
  inversion Hn3 as [| ? n4 ? l4 N4 Hn4]; subst.
  inversion Hn4 as [| ? n5 ? l5 N5 Hn5]; subst.
  inversion Hn5; subst.
  exists (keyed n1 n2 n3 n4 n5).
  assert (Hw : wvalues (weights a) = map Fin qs).
  { unfold wvalues, qs. cbn [map].
    rewrite <- (Hv Kimpressions), <- (Hv Kposition), <- (Hv KctrGap),
            <- (Hv Kconversions), <- (Hv Kfreshness). reflexivity. }
  split; [| split].
  - unfold normalizeWeights. rewrite Hw, HT. cbn [F64.is_zero].
    rewrite (is_zero_pos T HTp). cbn [weights].
    cbn [map] in Hm. injection Hm as M1 M2 M3 M4 M5.
    pose proof (Hv Kimpressions) as V1. pose proof (Hv Kposition) as V2.
    pose proof (Hv KctrGap) as V3. pose proof (Hv Kconversions) as V4.
    pose proof (Hv Kfreshness) as V5. cbn [wget] in V1, V2, V3, V4, V5.
    rewrite V1, V2, V3, V4, V5.
    intros k. destruct k; cbn [wget keyed w_impressions w_position w_ctrGap
                                 w_conversions w_freshness]; assumption.
  - intros k. apply (near_proper (qsum qs)); [exact HS |].
    destruct k; cbn [keyed]; assumption.
  - unfold sum5. cbn [keyed].
    assert (Hz : (9998 <= zsum [n1; n2; n3; n4; n5] <= 10002)%Z).
    { apply Hsum; [simpl; lia | lra | exact Hn]. }
    unfold zsum in Hz. simpl in Hz. lia.
Qed.

(** C1 (as amended).  Take binary64 weights within the binary64 clamp
    bounds [minWeight, maxWeight], with 0 < minWeight <= maxWeight <=
    2^1019 (all that is used of a binary64 number is that it is a
    multiple of 2^-1074), and any list of actions.  The vector that
    [runLearningCycle] holds when its loop ends is finite and within the
    clamp.  The vector it returns is that vector renormalised: each
    component is the binary64 number nearest to [n / 10000] for an
    integer [n] within 0.500001 of 10000 times the component's exact
    share of the total.
    These integers sum to a value between 9998 and 10002, so the returned
    weights sum to 1 within 2e-4; and each lies, up to one step of 1e-4,
    between minWeight / (minWeight + 4 maxWeight) and
    maxWeight / (maxWeight + 4 minWeight), not necessarily within the
    clamp. *)
Theorem C1_cycle_renormalises (refs : list nat) (w : World) :
  let c := config (self w) in
  0 < minWeight c -> minWeight c <= maxWeight c ->
  maxWeight c <= F64.huge ->
  F64.on_lattice (minWeight c) -> F64.on_lattice (maxWeight c) ->
  in_bounds c (weights (self w)) ->
  exists (v : WeightKey -> Q) (n : WeightKey -> Z),
    values_are (held_after_loop refs w) v /\
    (forall k, minWeight c <= v k <= maxWeight c) /\
    on_grid_at (newWeights (fst (runLearningCycle refs w))) n /\
    (forall k, near (sum5 Qplus v) (v k) (n k)) /\
    (9998 <= sum5 Z.add n <= 10002)%Z /\
    (forall k,
       10000 * (minWeight c / (minWeight c + 4 * maxWeight c)) - 1
         <= inject_Z (n k)
         <= 10000 * (maxWeight c / (maxWeight c + 4 * minWeight c)) + 1).
Proof.
  cbv zeta. intros Hpos0 Hmm Hhuge Lmn Lmx Hb.
  assert (Hinv : loop_inv w (fold_left cycle_step refs ([], w))).
  { apply loop_keeps_clamp; try assumption. unfold loop_inv; simpl. auto. }
  unfold held_after_loop, runLearningCycle.
  destruct (fold_left cycle_step refs ([], w)) as [adjs w1].
  destruct Hinv as (Hc & Hb1). simpl in Hc, Hb1. simpl.
  set (c := config (self w)) in *.
  assert (Hex : exists v : WeightKey -> Q,
             values_are (weights (self w1)) v /\
             (forall k, minWeight c <= v k <= maxWeight c) /\
             (forall k, on_lattice (v k))).
  { destruct (Hb1 Kimpressions) as (v1 & E1 & B1 & L1).
    destruct (Hb1 Kposition) as (v2 & E2 & B2 & L2).
    destruct (Hb1 KctrGap) as (v3 & E3 & B3 & L3).
    destruct (Hb1 Kconversions) as (v4 & E4 & B4 & L4).
    destruct (Hb1 Kfreshness) as (v5 & E5 & B5 & L5).
    exists (keyed v1 v2 v3 v4 v5).
    split; [| split]; intros k; destruct k; assumption. }
  destruct Hex as (v & Hv & Hvb & Hvl).
  destruct (normalizeWeights_on_grid (self w1) v (minWeight c) (maxWeight c)
              Hpos0 Hmm Hhuge Hv Hvb Hvl) as (n & Hg & Hn & Hs).
  exists v, n.
  split; [exact Hv |]. split; [exact Hvb |]. split; [exact Hg |].
  split; [exact Hn |]. split; [exact Hs |].
  intros k.
  pose proof (Hvb Kimpressions) as B1. pose proof (Hvb Kposition) as B2.
  pose proof (Hvb KctrGap) as B3. pose proof (Hvb Kconversions) as B4.
  pose proof (Hvb Kfreshness) as B5.
  assert (Hmn : 0 < minWeight c) by assumption.
  assert (Hsh : minWeight c / (minWeight c + 4 * maxWeight c)
                <= v k / sum5 Qplus v
                <= maxWeight c / (maxWeight c + 4 * minWeight c)).
  { assert (Hsplit : exists rest, sum5 Qplus v == v k + rest /\
                       4 * minWeight c <= rest <= 4 * maxWeight c).
    { unfold sum5. destruct k.
      - exists (v Kposition + v KctrGap + v Kconversions + v Kfreshness).
        split; [ring | lra].
      - exists (v Kimpressions + v KctrGap + v Kconversions + v Kfreshness).
        split; [ring | lra].
      - exists (v Kimpressions + v Kposition + v Kconversions + v Kfreshness).
        split; [ring | lra].
      - exists (v Kimpressions + v Kposition + v KctrGap + v Kfreshness).
        split; [ring | lra].
      - exists (v Kimpressions + v Kposition + v KctrGap + v Kconversions).
        split; [ring | lra]. }
    destruct Hsplit as (rest & Er & Hr). rewrite Er.
    apply share_range; [assumption | assumption | apply Hvb | assumption]. }
  specialize (Hn k). unfold near in Hn.
  set (lo := minWeight c / (minWeight c + 4 * maxWeight c)) in *.
  set (hi := maxWeight c / (maxWeight c + 4 * minWeight c)) in *.
  set (x := v k / sum5 Qplus v) in *. set (z := inject_Z (n k)) in *.
  clearbody lo hi x z. split; lra.
Qed.

Lemma C1_cycle_renormalises_witness :
  let w := Examples.world64 Examples.skewed [Examples.striking false] in
  let c := config (self w) in
  (0 < minWeight c /\ minWeight c <= maxWeight c /\
   maxWeight c <= F64.huge /\
   F64.on_lattice (minWeight c) /\ F64.on_lattice (maxWeight c) /\
   in_bounds c (weights (self w))) /\
  exists (v : WeightKey -> Q) (n : WeightKey -> Z),
    values_are (held_after_loop [0%nat] w) v /\
    (forall k, minWeight c <= v k <= maxWeight c) /\
    on_grid_at (newWeights (fst (runLearningCycle [0%nat] w))) n /\
    (forall k, near (sum5 Qplus v) (v k) (n k)) /\
    (9998 <= sum5 Z.add n <= 10002)%Z /\
    (forall k,
       10000 * (minWeight c / (minWeight c + 4 * maxWeight c)) - 1
         <= inject_Z (n k)
         <= 10000 * (maxWeight c / (maxWeight c + 4 * minWeight c)) + 1).
Proof.
  cbv zeta.
  set (w := Examples.world64 Examples.skewed [Examples.striking false]).
  assert (H1 : 0 < minWeight (config (self w))) by (vm_compute; reflexivity).
  assert (H2 : minWeight (config (self w)) <= maxWeight (config (self w)))
    by (vm_compute; discriminate).
  assert (H3 : maxWeight (config (self w)) <= F64.huge) by (vm_compute; discriminate).
  assert (L1 : F64.on_lattice (minWeight (config (self w))))
    by apply nearest_on_lattice.
  assert (L2 : F64.on_lattice (maxWeight (config (self w))))
    by apply nearest_on_lattice.
  assert (H4 : in_bounds (config (self w)) (weights (self w))).
  { intros k. destruct k; in_bounds_by_computation. }
  split; [exact (conj H1 (conj H2 (conj H3 (conj L1 (conj L2 H4))))) |].
  exact (C1_cycle_renormalises [0%nat] w H1 H2 H3 L1 L2 H4).
Defined.

(** C1 as stated fails.  From the weights 0.05, 0.2375 x 4 (within the
    default clamp 0.05-0.50) one successful striking-distance action
    raises the position weight to 0.2525; the renormalisation divides by
    1.015 and returns 0.0493, 0.2488, 0.234, 0.234, 0.234: the
    impressions weight is below [minWeight]. *)
Lemma C1_counterexample :
  let w := Examples.world64 Examples.skewed [Examples.striking false] in
  let c := config (self w) in
  let nw := newWeights (fst (runLearningCycle [0%nat] w)) in
  in_bounds c (weights (self w)) /\
  on_grid_at nw (keyed 493 2488 2340 2340 2340)%Z /\
  ~ in_bounds c nw.
Proof.
  cbv zeta. split; [| split].
  - intros k. destruct k; in_bounds_by_computation.
  - intros k. destruct k; vm_compute; reflexivity.
  - intros Hb. destruct (Hb Kimpressions) as (v & Hv & (Hlo & _) & _).
    vm_compute in Hv. injection Hv as <-. vm_compute in Hlo. apply Hlo. reflexivity.
Qed.

(** The sum can leave 1 +- 1e-4 as well: the weights 0.20006 x 4, 0.19976
    are renormalised, with no action at all, to 0.2001 x 4, 0.1998, which
    sum to 1.0002, summed exactly or in binary64. *)
Lemma cycle_sum_can_reach_1_0002 :
  let w := Examples.world64 Examples.off_grid [] in
  let nw := newWeights (fst (runLearningCycle [] w)) in
  in_bounds (config (self w)) (weights (self w)) /\
  on_grid_at nw (keyed 2001 2001 2001 2001 1998)%Z /\
  sum5 Z.add (keyed 2001 2001 2001 2001 1998)%Z = 10002%Z /\
  F64.total (wvalues nw) = Fin (F64.dec (10002 # 10000)).
Proof.
  cbv zeta. split; [| split; [| split]].
  - intros k. destruct k; in_bounds_by_computation.
  - intros k. destruct k; vm_compute; reflexivity.
  - reflexivity.
  - vm_compute. reflexivity.
Qed.

(** With larger weights the total can overflow: five weights of 2^1023,
    within the clamp 1 .. 2^1023, have the computed total Infinity, and
    the cycle returns five zeros. *)
Lemma overflowing_total_zeroes_the_weights :
  let w := Examples.overflowing in
  let nw := newWeights (fst (runLearningCycle [] w)) in
  in_bounds (config (self w)) (weights (self w)) /\
  F64.total (wvalues (weights (self w))) = PInf /\
  values_are nw (fun _ => 0).
Proof.
  cbv zeta. split; [| split].
  - intros k. destruct k; in_bounds_by_computation.
  - vm_compute. reflexivity.
  - intros k. destruct k; vm_compute; reflexivity.
Qed.

(** *** The action records *)













(** The second cycle over one unflagged, successful action moves the
    weights again: the position weight goes 0.2 -> 0.2118 -> 0.2235, the
    other weights 0.2 -> 0.197 -> 0.1941, and each cycle reports one
    adjustment. *)
Lemma second_cycle_learns_again :
  let w := Examples.world64 DEFAULT_WEIGHTS [Examples.striking false] in
  let first := runLearningCycle [0%nat] w in
  let second := runLearningCycle [0%nat] (snd first) in
  learningApplied (store (snd second) 0%nat) = false /\
  List.length (adjustments (fst first)) = 1%nat /\
  List.length (adjustments (fst second)) = 1%nat /\
  on_grid_at (newWeights (fst first)) (keyed 1970 2118 1970 1970 1970)%Z /\
  on_grid_at (newWeights (fst second)) (keyed 1941 2235 1941 1941 1941)%Z.
Proof.
  cbv zeta. split; [| split; [| split; [| split]]].
  - vm_compute. reflexivity.
  - vm_compute. reflexivity.
  - vm_compute. reflexivity.
  - intros k. destruct k; vm_compute; reflexivity.
  - intros k. destruct k; vm_compute; reflexivity.
Qed.

End WeightAdjuster64Props.

(** ** Consensus engine *)

Module ConsensusProps.
Import ConsensusEngine.

(** *** Arrays in the heap *)

Lemma read_app_old {A : Type} (h : Heap.t A) (a : list A) (r : Heap.ref) :
  Heap.valid h r -> Heap.read (h ++ [a]) r = Heap.read h r.
Proof. unfold Heap.valid, Heap.read. intros H. now rewrite app_nth1. Qed.

Lemma read_app_new {A : Type} (h : Heap.t A) (a : list A) :
  Heap.read (h ++ [a]) (List.length h) = a.
Proof.
  unfold Heap.read. rewrite app_nth2 by lia. now rewrite Nat.sub_diag.
Qed.

Lemma read_write_same {A : Type} (h : Heap.t A) (r : Heap.ref) (a : list A) :
  Heap.valid h r -> Heap.read (Heap.write h r a) r = a.
Proof.
  unfold Heap.valid, Heap.read. revert r.
  induction h as [| x h IH]; intros r Hr; simpl in *; [lia |].
  destruct r as [| r]; simpl; [reflexivity | apply IH; lia].
Qed.

Lemma read_write_other {A : Type} (h : Heap.t A) (r r' : Heap.ref) (a : list A) :
  r' <> r -> Heap.read (Heap.write h r a) r' = Heap.read h r'.
Proof.
  unfold Heap.read. revert r r'.
  induction h as [| x h IH]; intros r r' Hne; simpl.
  - reflexivity.
  - destruct r as [| r]; destruct r' as [| r']; simpl; try reflexivity; try congruence.
    apply IH. congruence.
Qed.

Lemma length_write {A : Type} (h : Heap.t A) (r : Heap.ref) (a : list A) :
  List.length (Heap.write h r a) = List.length h.
Proof.
  revert r. induction h as [| x h IH]; intros r; simpl; [reflexivity |].
  destruct r; simpl; [reflexivity | now rewrite IH].
Qed.

Section WithStrings.
Context {js : JSString}.

(** The one property of [toLowerCase] that the merge relies on: the empty
    string, and only it, folds to the empty string. *)
Hypothesis lower_empty :
  forall h, toLowerCase h = EmptyString <-> h = EmptyString.

Lemma collect_contributions (bw : Row) (results : list (option (ModelId * Brief.t)))
    (i : nat) (st : list (ModelId * (nat * Brief.t)) * list Slot) :
  map snd (snd (collect bw i results st)) = map snd (snd st) ++ fulfilled bw results.
Proof.
  revert i st. induction results as [| r results IH]; intros i st; simpl.
  - now rewrite app_nil_r.
  - destruct r as [[m b] |].
    + rewrite IH. simpl. rewrite map_app. simpl. now rewrite <- app_assoc.
    + apply IH.
Qed.

Lemma fulfilled_length (bw : Row) (adapters : list ModelAdapter)
    (page : Page.t) (bucket : ActionBucket) :
  List.length (fulfilled bw (settle adapters page bucket))
  = successes adapters page bucket.
Proof.
  unfold successes, succeeds.
  induction adapters as [| a adapters IH]; simpl.
  - reflexivity.
  - destruct (generateBrief a page bucket); simpl; now rewrite IH.
Qed.

Lemma fulfilled_built (bw : Row) (results : list (option (ModelId * Brief.t))) :
  Forall (built bw) (fulfilled bw results).
Proof.
  induction results as [| r results IH]; simpl.
  - constructor.
  - destruct r as [[m b] |]; simpl; [| assumption].
    constructor; [| assumption]. split; reflexivity.
Qed.

Lemma briefs_of_total (bw : Row) (cs : list ModelContribution) :
  Forall (built bw) cs -> exists bs, briefs_of cs = Some bs.
Proof.
  induction 1 as [| c cs [Hc _] _ [bs IH]]; simpl.
  - now exists [].
  - unfold has_brief in Hc. destruct (brief c); [| discriminate].
    rewrite IH. eauto.
Qed.

Lemma calculateConfidence_total (bw : Row) (cs : list ModelContribution) :
  Forall (built bw) cs -> exists conf, calculateConfidence cs = inr conf.
Proof.
  intros Hb. unfold calculateConfidence.
  destruct (Nat.leb _ 1); [eauto |].
  destruct (briefs_of_total bw cs Hb) as [bs ->].
  destruct (compare_pairs bs _) as [score n].
  destruct (Nat.ltb 0 n); eauto.
Qed.

Lemma filter_built (bw : Row) (cs : list ModelContribution) :
  Forall (built bw) cs -> filter has_brief cs = cs.
Proof.
  induction 1 as [| c cs [Hc _] _ IH]; simpl.
  - reflexivity.
  - now rewrite Hc, IH.
Qed.

(** What [mergeBriefs] computes and what it leaves alone: the outcome is
    the merge of the array's contributions that carry a brief, sorted by
    descending weight, and every array that was in the heap is as it
    was. *)
Lemma mergeBriefs_spec (cs : Heap.ref) (bw : Row) (page : Page.t)
    (bucket : ActionBucket) (h : Heap.t ModelContribution) :
  fst (mergeBriefs cs bw page bucket h)
  = merge_sorted
      (Arr.sort_desc (live_weight bw) (filter has_brief (Heap.read h cs)))
      bw page bucket /\
  (forall r, Heap.valid h r ->
     Heap.read (snd (mergeBriefs cs bw page bucket h)) r = Heap.read h r).
Proof.
  unfold mergeBriefs, Heap.filter, Heap.sort_desc, Heap.alloc. cbn [fst snd].
  rewrite read_app_new. split.
  - rewrite read_write_same; [reflexivity |].
    unfold Heap.valid. rewrite length_app. simpl. lia.
  - intros r Hr. rewrite read_write_other.
    + now apply read_app_old.
    + unfold Heap.valid in Hr. lia.
Qed.

(** On contributions that all carry a brief, the merge returns a brief
    whose headings are [mergedH2s_of] the contributions in descending
    order of weight. *)
Lemma merge_sorted_total (bw : Row) (page : Page.t) (bucket : ActionBucket)
    (cs : list ModelContribution) :
  cs <> [] -> Forall (built bw) cs ->
  exists merged,
    merge_sorted (Arr.sort_desc (live_weight bw) cs) bw page bucket = inr merged /\
    Brief.h2Additions merged
    = mergedH2s_of (Arr.sort_desc (live_weight bw) cs).
Proof.
  intros Hne Hb. unfold merge_sorted.
  pose proof (ArrProps.sort_desc_length (live_weight bw) cs) as Hlen.
  pose proof (fun c => proj1 (ArrProps.sort_desc_In (live_weight bw) c cs)) as Hin.
  destruct (Arr.sort_desc (live_weight bw) cs) as [| first rest] eqn:E.
  - destruct cs; [congruence | discriminate].
  - rewrite Forall_forall in Hb.
    destruct (Hb first (Hin first (or_introl eq_refl))) as [Hf _].
    unfold has_brief in Hf. destruct (brief first) as [pb |]; [| discriminate].
    destruct (weighted_count bw (first :: rest)) as [tw wc].
    eexists. split; reflexivity.
Qed.

Lemma desc_map_weight (bw : Row) (slots : list Slot) :
  Forall (fun s : Slot => built bw (snd s)) slots ->
  Arr.desc (fun s : Slot => weight (snd s)) slots ->
  Arr.desc (live_weight bw) (map snd slots).
Proof.
  unfold Arr.desc. intros Hb Hs.
  induction Hs as [| s slots Hs IH Hall]; simpl.
  - constructor.
  - apply Forall_cons_iff in Hb. destruct Hb as [[_ Hw] Hb].
    constructor; [now apply IH |].
    rewrite Forall_forall in *. intros c Hc.
    apply in_map_iff in Hc. destruct Hc as (s' & <- & Hin).
    destruct (Hb s' Hin) as [_ Hw'].
    rewrite <- Hw, <- Hw'. now apply Hall.
Qed.

(** Two or more collected contributions: the engine returns an outcome,
    by merge when the confidence reaches the threshold and the primary
    provider's own brief otherwise. *)
Lemma conclude_many (this : t) (bw : Row) (page : Page.t) (bucket : ActionBucket)
    (outputs : list (ModelId * (nat * Brief.t))) (slots : list Slot) :
  (2 <= List.length slots)%nat ->
  Forall (fun s : Slot => built bw (snd s)) slots ->
  exists r,
    conclude this bw page bucket outputs slots = inr r /\
    calculateConfidence (map snd slots) = inr (confidence r) /\
    (Num.ngeb (confidence r) (consensusThreshold this) = true ->
     strategy r = consensus /\
     contributions r = map snd (Arr.sort_desc (fun s : Slot => weight (snd s)) slots) /\
     Arr.sort_desc (live_weight bw) (contributions r) = contributions r /\
     Brief.h2Additions (r_brief r) = mergedH2s_of (contributions r)) /\
    (Num.ngeb (confidence r) (consensusThreshold this) = false ->
     strategy r = primary).
Proof.
  intros Hlen Hb.
  assert (Hbs : Forall (built bw) (map snd slots)).
  { rewrite Forall_forall in *. intros c Hc.
    apply in_map_iff in Hc. destruct Hc as (s & <- & Hin). now apply Hb. }
  destruct (calculateConfidence_total bw _ Hbs) as [conf Hconf].
  set (sorted := Arr.sort_desc (fun s : Slot => weight (snd s)) slots).
  assert (Hunfold :
    conclude this bw page bucket outputs slots
    = match sorted with
      | [] => inl TypeError
      | (k, first) :: rest =>
          let primaryModel := modelId first in
          let models := map (fun s : Slot => modelId (snd s)) sorted in
          if Num.ngeb conf (consensusThreshold this) then
            let '(outcome, h) :=
              mergeBriefs 0%nat bw page bucket [map snd sorted] in
            match outcome with
            | inl e => inl e
            | inr merged =>
                inr (mkResult (Brief.tag merged primaryModel models conf) conf
                       (Heap.read h 0%nat) primaryModel (strip outputs) consensus)
            end
          else
            match brief first with
            | None => inl TypeError
            | Some own =>
                let tagged := Brief.tag own primaryModel models conf in
                inr (mkResult tagged conf
                       (with_brief first tagged :: map snd rest) primaryModel
                       (strip (retag outputs k tagged)) primary)
            end
      end).
  { unfold conclude. destruct slots as [| s1 [| s2 rest]]; simpl in Hlen; try lia.
    destruct s1 as [k1 c1]. rewrite Hconf. reflexivity. }
  rewrite Hunfold. clear Hunfold.
  assert (Hsb : Forall (fun s : Slot => built bw (snd s)) sorted).
  { rewrite Forall_forall in *. intros s Hs. apply Hb.
    now apply (ArrProps.sort_desc_In (fun s : Slot => weight (snd s)) s slots). }
  assert (Hsbs : Forall (built bw) (map snd sorted)).
  { rewrite Forall_forall in *. intros c Hc.
    apply in_map_iff in Hc. destruct Hc as (s & <- & Hin). now apply Hsb. }
  assert (Hdesc : Arr.desc (live_weight bw) (map snd sorted)).
  { apply desc_map_weight; [assumption | apply ArrProps.sort_desc_desc]. }
  pose proof (ArrProps.sort_desc_length (fun s : Slot => weight (snd s)) slots) as Hl.
  fold sorted in Hl.
  destruct sorted as [| [k first] rest] eqn:Es; [simpl in Hl; lia |].
  cbv zeta.
  destruct (Num.ngeb conf (consensusThreshold this)) eqn:Eg.
  - match goal with
    | |- context [mergeBriefs 0%nat bw page bucket [?x]] => set (l := x) in *
    end.
    destruct (mergeBriefs_spec 0%nat bw page bucket [l]) as [Hout Hframe].
    assert (Hf0 : Heap.read (snd (mergeBriefs 0%nat bw page bucket [l])) 0%nat = l).
    { rewrite Hframe; [reflexivity | unfold Heap.valid; simpl; lia]. }
    clear Hframe.
    change (Heap.read [l] 0%nat) with l in Hout.
    rewrite (filter_built bw l Hsbs) in Hout.
    destruct (merge_sorted_total bw page bucket l)
      as (merged & Hm & Hh2); [unfold l; simpl; congruence | assumption |].
    rewrite Hm in Hout.
    destruct (mergeBriefs 0%nat bw page bucket [l]) as [outcome h].
    cbn [fst snd] in Hout, Hf0. subst outcome.
    eexists. split; [reflexivity |]. cbn [confidence strategy contributions r_brief].
    split; [assumption |]. split; [| congruence].
    intros _. split; [reflexivity |].
    pose proof (ArrProps.sort_desc_fixed (live_weight bw) _ Hdesc) as Hfix.
    fold l in Hfix. rewrite Hf0.
    split; [reflexivity |]. split; [exact Hfix |].
    unfold Brief.tag. cbn [Brief.h2Additions]. rewrite Hh2. now rewrite Hfix.
  - apply Forall_inv in Hsb. destruct Hsb as [Hf _]. simpl in Hf.
    unfold has_brief in Hf. destruct (brief first) as [own |]; [| discriminate].
    eexists. split; [reflexivity |]. simpl.
    split; [assumption |]. split; [congruence |]. reflexivity.
Qed.

(** The contributions collected from the settled results. *)
Lemma collected (bw : Row) (adapters : list ModelAdapter) (page : Page.t)
    (bucket : ActionBucket) :
  let slots := snd (collect bw 0 (settle adapters page bucket) ([], [])) in
  map snd slots = fulfilled bw (settle adapters page bucket) /\
  List.length slots = successes adapters page bucket /\
  Forall (fun s : Slot => built bw (snd s)) slots.
Proof.
  cbv zeta.
  pose proof (collect_contributions bw (settle adapters page bucket) 0 ([], [])) as H.
  simpl in H. split; [exact H |]. split.
  - rewrite <- fulfilled_length with (bw := bw), <- H. now rewrite length_map.
  - pose proof (fulfilled_built bw (settle adapters page bucket)) as Hb.
    rewrite <- H in Hb. rewrite Forall_forall in *. intros s Hs.
    apply Hb. now apply in_map.
Qed.

Lemma successes_zero (adapters : list ModelAdapter) (page : Page.t)
    (bucket : ActionBucket) :
  successes adapters page bucket = 0%nat <->
  (forall a, In a adapters -> generateBrief a page bucket = None).
Proof.
  unfold successes, succeeds.
  induction adapters as [| a adapters IH]; simpl.
  - split; [intros _ a [] | reflexivity].
  - destruct (generateBrief a page bucket) eqn:E; simpl.
    + split; [discriminate |]. intros H.
      specialize (H a (or_introl eq_refl)). congruence.
    + rewrite IH. split.
      * intros H x [<- | Hx]; [assumption | now apply H].
      * intros H x Hx. apply H. now right.
Qed.

(** C3.  With two or more adapters queried, [generateConsensus] raises
    exactly when every adapter's brief generation fails.  When exactly one
    adapter succeeds it returns an outcome whose strategy is [single] and
    whose confidence is 1, and so is every outcome returned when a single
    adapter was queried. *)
Theorem C3_failure_and_single (this : t) (adapters : list ModelAdapter)
    (page : Page.t) (bucket : ActionBucket) (mw : ModelWeights) :
  ((2 <= List.length adapters)%nat ->
   ((exists e, generateConsensus this adapters page bucket mw = inl e) <->
    (forall a, In a adapters -> generateBrief a page bucket = None))) /\
  (successes adapters page bucket = 1%nat ->
   exists r, generateConsensus this adapters page bucket mw = inr r /\
             strategy r = single /\ confidence r = Num.Fin 1) /\
  (List.length adapters = 1%nat ->
   forall r, generateConsensus this adapters page bucket mw = inr r ->
             strategy r = single /\ confidence r = Num.Fin 1).
Proof.
  destruct (collected (mw bucket) adapters page bucket) as (Hmap & Hlen & Hb).
  assert (Hgen : (List.length adapters <> 1)%nat ->
            generateConsensus this adapters page bucket mw
            = conclude this (mw bucket) page bucket
                (fst (collect (mw bucket) 0 (settle adapters page bucket) ([], [])))
                (snd (collect (mw bucket) 0 (settle adapters page bucket) ([], [])))).
  { intros Hne. unfold generateConsensus.
    destruct adapters as [| a1 [| a2 rest]]; simpl in Hne; try lia;
      destruct (collect _ _ _ _); reflexivity. }
  remember (snd (collect (mw bucket) 0 (settle adapters page bucket) ([], [])))
    as slots eqn:Eslots.
  remember (fst (collect (mw bucket) 0 (settle adapters page bucket) ([], [])))
    as outputs eqn:Eoutputs.
  clear Eslots Eoutputs Hmap.
  split; [| split].
  - intros H2. rewrite Hgen by lia. rewrite <- successes_zero, <- Hlen.
    destruct slots as [| [k1 c1] [| s2 rest]].
    + simpl. split; eauto.
    + apply Forall_inv in Hb. destruct Hb as [Hc _]. simpl in Hc.
      unfold has_brief in Hc. simpl.
      destruct (brief c1); [| discriminate].
      split; [intros [e He]; discriminate | discriminate].
    + destruct (conclude_many this (mw bucket) page bucket outputs
                  ((k1, c1) :: s2 :: rest)) as (r & Hr & _);
        [simpl; lia | assumption |].
      split; [| discriminate]. intros [e He].
      discriminate (eq_trans (eq_sym Hr) He).
  - intros H1. rewrite <- Hlen in H1.
    destruct (Nat.eq_dec (List.length adapters) 1) as [Hone | Hne].
    + destruct adapters as [| a [| a2 rest]]; try discriminate.
      unfold generateConsensus.
      unfold successes, succeeds in Hlen. simpl in Hlen.
      destruct (generateBrief a page bucket); [| simpl in Hlen; lia].
      eexists. split; [reflexivity |]. split; reflexivity.
    + rewrite Hgen by assumption.
      destruct slots as [| [k1 c1] [| s2 rest]]; try discriminate.
      apply Forall_inv in Hb. destruct Hb as [Hc _]. simpl in Hc.
      unfold has_brief in Hc. simpl.
      destruct (brief c1); [| discriminate].
      eexists. split; [reflexivity |]. split; reflexivity.
  - intros Hone r Hr.
    destruct adapters as [| a [| a2 rest]]; try discriminate.
    unfold generateConsensus in Hr.
    destruct (generateBrief a page bucket); [| discriminate].
    injection Hr as <-. split; reflexivity.
Qed.

(** *** Sets of strings and the heading counts *)

Lemma str_mem_In (x : string) (l : list string) :
  existsb (String.eqb x) l = true <-> In x l.
Proof.
  rewrite existsb_exists. split.
  - intros (y & Hy & E). apply String.eqb_eq in E. now subst.
  - intros H. exists x. split; [assumption | apply String.eqb_refl].
Qed.

Lemma uniq_snoc (l : list string) (x : string) :
  Arr.uniq String.eqb (l ++ [x])
  = Arr.add_new String.eqb (Arr.uniq String.eqb l) x.
Proof. unfold Arr.uniq. now rewrite fold_left_app. Qed.

Lemma uniq_In (x : string) (l : list string) :
  In x (Arr.uniq String.eqb l) <-> In x l.
Proof.
  induction l as [| y l IH] using rev_ind.
  - reflexivity.
  - rewrite uniq_snoc. unfold Arr.add_new.
    destruct (existsb (String.eqb y) (Arr.uniq String.eqb l)) eqn:E.
    + apply str_mem_In in E. rewrite in_app_iff, IH. simpl.
      split; [tauto |]. intros [H | [<- | []]]; [assumption | now apply IH].
    + rewrite !in_app_iff, IH. reflexivity.
Qed.

Lemma uniq_NoDup (l : list string) : NoDup (Arr.uniq String.eqb l).
Proof.
  induction l as [| y l IH] using rev_ind.
  - constructor.
  - rewrite uniq_snoc. unfold Arr.add_new.
    destruct (existsb (String.eqb y) (Arr.uniq String.eqb l)) eqn:E.
    + assumption.
    + apply NoDup_app; [assumption | repeat constructor; simpl; tauto |].
      intros x Hx [<- | []].
      apply str_mem_In in Hx. congruence.
Qed.

Lemma first_index_app_in (k : string) (l t : list string) :
  In k l -> first_index k (l ++ t) = first_index k l.
Proof.
  induction l as [| x l IH]; simpl; intros H.
  - contradiction.
  - destruct (String.eqb x k) eqn:E; [reflexivity |].
    destruct H as [-> | H]; [rewrite String.eqb_refl in E; discriminate |].
    now rewrite IH.
Qed.

Lemma first_index_app_out (k : string) (l t : list string) :
  ~ In k l -> first_index k (l ++ t) = (List.length l + first_index k t)%nat.
Proof.
  induction l as [| x l IH]; simpl; intros H.
  - reflexivity.
  - destruct (String.eqb x k) eqn:E.
    + apply String.eqb_eq in E. tauto.
    + rewrite IH by tauto. reflexivity.
Qed.

Lemma first_index_lt (k : string) (l : list string) :
  In k l -> (first_index k l < List.length l)%nat.
Proof.
  induction l as [| x l IH]; simpl; intros H.
  - contradiction.
  - destruct (String.eqb x k) eqn:E; [lia |].
    destruct H as [-> | H]; [rewrite String.eqb_refl in E; discriminate |].
    specialize (IH H). lia.
Qed.

Lemma before_snoc {A : Type} (a b x : A) (l : list A) :
  Arr.before a b (l ++ [x]) -> Arr.before a b l \/ (In a l /\ b = x).
Proof.
  induction l as [| y l IH]; simpl.
  - intros [[_ []] | []].
  - intros [[-> Hb] | H].
    + apply in_app_iff in Hb. destruct Hb as [Hb | [<- | []]]; tauto.
    + destruct (IH H); tauto.
Qed.

(** In the set of a list, the elements stand in the order of their first
    occurrences. *)
Lemma uniq_first_seen (a b : string) (l : list string) :
  Arr.before a b (Arr.uniq String.eqb l) ->
  (first_index a l < first_index b l)%nat.
Proof.
  induction l as [| y l IH] using rev_ind.
  - simpl. tauto.
  - rewrite uniq_snoc. unfold Arr.add_new.
    destruct (existsb (String.eqb y) (Arr.uniq String.eqb l)) eqn:E.
    + intros H. pose proof H as H'. apply ArrProps.before_In in H'.
      destruct H' as [Ha Hb].
      apply (proj1 (uniq_In _ _)) in Ha. apply (proj1 (uniq_In _ _)) in Hb.
      rewrite !first_index_app_in by assumption. now apply IH.
    + intros H. apply before_snoc in H. destruct H as [H | [Ha ->]].
      * pose proof H as H'. apply ArrProps.before_In in H'.
        destruct H' as [Ha Hb].
        apply (proj1 (uniq_In _ _)) in Ha. apply (proj1 (uniq_In _ _)) in Hb.
        rewrite !first_index_app_in by assumption. now apply IH.
      * apply (proj1 (uniq_In _ _)) in Ha.
        assert (Hy : ~ In y l).
        { intros Hy. apply (proj2 (uniq_In _ _)) in Hy.
          apply (proj2 (str_mem_In _ _)) in Hy. congruence. }
        rewrite first_index_app_in by assumption.
        rewrite first_index_app_out by assumption.
        simpl. rewrite String.eqb_refl.
        pose proof (first_index_lt a l Ha). lia.
Qed.

Lemma keys_set {V : Type} (m : list (string * V)) (k : string) (v : V) :
  map fst (AList.set String.eqb m k v)
  = Arr.add_new String.eqb (map fst m) k.
Proof.
  unfold Arr.add_new. induction m as [| [k' v'] m IH]; simpl.
  - reflexivity.
  - destruct (String.eqb k k') eqn:E; simpl; [reflexivity |].
    rewrite IH. destruct (existsb (String.eqb k) (map fst m)); reflexivity.
Qed.

Lemma get_set {V : Type} (m : list (string * V)) (k x : string) (v : V) :
  AList.get String.eqb (AList.set String.eqb m x v) k
  = if String.eqb k x then Some v else AList.get String.eqb m k.
Proof.
  induction m as [| [k' v'] m IH]; simpl.
  - reflexivity.
  - destruct (String.eqb x k') eqn:E; simpl.
    + apply String.eqb_eq in E. subst k'.
      destruct (String.eqb k x); reflexivity.
    + rewrite IH. destruct (String.eqb k k') eqn:E'; [| reflexivity].
      apply String.eqb_eq in E'. subst k'.
      destruct (String.eqb k x) eqn:E''; [| reflexivity].
      apply String.eqb_eq in E''. subst x.
      rewrite String.eqb_refl in E. discriminate.
Qed.

Lemma counted_bump (m : list (string * nat)) (x k : string) :
  counted (bump m x) k
  = (counted m k + if String.eqb x k then 1 else 0)%nat.
Proof.
  unfold counted, bump. rewrite get_set.
  destruct (String.eqb k x) eqn:E.
  - apply String.eqb_eq in E. subst x. rewrite String.eqb_refl. reflexivity.
  - rewrite String.eqb_sym, E. lia.
Qed.

Lemma counted_fold (l : list string) (m : list (string * nat)) (k : string) :
  counted (fold_left bump l m) k = (counted m k + occurrences k l)%nat.
Proof.
  revert m. induction l as [| x l IH]; intros m; simpl.
  - unfold occurrences. simpl. lia.
  - rewrite IH, counted_bump. unfold occurrences. simpl.
    destruct (string_dec x k) as [-> | Hne].
    + rewrite String.eqb_refl. lia.
    + destruct (String.eqb x k) eqn:E; [| lia].
      apply String.eqb_eq in E. contradiction.
Qed.

Lemma keys_fold (l : list string) (m : list (string * nat)) :
  map fst (fold_left bump l m)
  = fold_left (Arr.add_new String.eqb) l (map fst m).
Proof.
  revert m. induction l as [| x l IH]; intros m; simpl.
  - reflexivity.
  - rewrite IH. unfold bump. now rewrite keys_set.
Qed.

Lemma get_of_In {V : Type} (m : list (string * V)) (k : string) (v : V) :
  NoDup (map fst m) -> In (k, v) m -> AList.get String.eqb m k = Some v.
Proof.
  induction m as [| [k' v'] m IH]; simpl; intros Hnd Hin.
  - contradiction.
  - apply NoDup_cons_iff in Hnd. destruct Hnd as [Hk Hnd].
    destruct Hin as [E | Hin].
    + injection E as -> ->. now rewrite String.eqb_refl.
    + destruct (String.eqb k k') eqn:E.
      * apply String.eqb_eq in E. subst k'.
        exfalso. apply Hk. change k with (fst (k, v)). now apply in_map.
      * now apply IH.
Qed.

(** [h2Counts]: one entry per key, in first-seen order, holding the number
    of occurrences of the key. *)
Lemma h2Counts_spec (sorted : list ModelContribution) :
  let keys := map toLowerCase (all_of Brief.h2Additions sorted) in
  map fst (h2Counts_of sorted) = Arr.uniq String.eqb keys /\
  (forall k n, In (k, n) (h2Counts_of sorted) -> n = occurrences k keys).
Proof.
  cbv zeta. unfold h2Counts_of.
  set (keys := map toLowerCase (all_of Brief.h2Additions sorted)).
  assert (Hk : map fst (fold_left bump keys []) = Arr.uniq String.eqb keys)
    by apply keys_fold.
  split; [exact Hk |].
  intros k n Hin.
  pose proof (counted_fold keys [] k) as Hc.
  unfold counted at 1 in Hc.
  rewrite (get_of_In _ k n) in Hc; [exact Hc | | exact Hin].
  rewrite Hk. apply uniq_NoDup.
Qed.

(** *** The merged headings *)

Lemma find_app_first {A : Type} (p : A -> bool) (l1 l2 : list A) :
  find p (l1 ++ l2)
  = match find p l1 with
    | Some x => Some x
    | None => find p l2
    end.
Proof.
  induction l1 as [| x l1 IH]; simpl.
  - reflexivity.
  - destruct (p x); [reflexivity | assumption].
Qed.

Lemma original_casing_empty (sorted : list ModelContribution) :
  original_casing sorted EmptyString = EmptyString.
Proof.
  induction sorted as [| c rest IH]; simpl.
  - reflexivity.
  - destruct (brief c) as [b |]; [| assumption].
    destruct (find _ (Brief.h2Additions b)) as [found |] eqn:E; [| assumption].
    apply find_some in E. destruct E as [_ E].
    apply String.eqb_eq in E. apply (proj1 (lower_empty found)) in E.
    subst found. simpl. assumption.
Qed.

(** [original_casing] returns the first heading, in provider order, that
    has the key. *)
Lemma original_casing_first (sorted : list ModelContribution) (k : string) :
  In k (map toLowerCase (all_of Brief.h2Additions sorted)) ->
  find (fun h => String.eqb (toLowerCase h) k)
       (all_of Brief.h2Additions sorted)
  = Some (original_casing sorted k).
Proof.
  unfold all_of. induction sorted as [| c rest IH]; simpl; intros Hin.
  - contradiction.
  - destruct (brief c) as [b |]; [| now apply IH].
    rewrite find_app_first.
    destruct (find _ (Brief.h2Additions b)) as [found |] eqn:E.
    + destruct (String.eqb found EmptyString) eqn:Ee; [| reflexivity].
      apply String.eqb_eq in Ee. subst found.
      apply find_some in E. destruct E as [_ E].
      apply String.eqb_eq in E.
      rewrite (proj2 (lower_empty EmptyString) eq_refl) in E. subst k.
      now rewrite original_casing_empty.
    + apply IH. rewrite map_app, in_app_iff in Hin.
      destruct Hin as [Hin | Hin]; [| assumption].
      apply in_map_iff in Hin. destruct Hin as (h & Hh & Hin).
      pose proof (find_none _ _ E h Hin) as Hn. simpl in Hn.
      rewrite Hh, String.eqb_refl in Hn. discriminate.
Qed.

Lemma original_casing_key (sorted : list ModelContribution) (k : string) :
  In k (map toLowerCase (all_of Brief.h2Additions sorted)) ->
  toLowerCase (original_casing sorted k) = k.
Proof.
  intros Hin. pose proof (original_casing_first sorted k Hin) as H.
  apply find_some in H. destruct H as [_ H]. now apply String.eqb_eq in H.
Qed.

Lemma count_key_lt (a b : string * nat) :
  count_key a < count_key b <-> (snd a < snd b)%nat.
Proof.
  unfold count_key. rewrite <- Zlt_Qlt. lia.
Qed.

Lemma count_key_eq (a b : string * nat) :
  count_key a == count_key b <-> snd a = snd b.
Proof.
  unfold count_key. rewrite inject_Z_injective. lia.
Qed.

(** The merged heading list of [mergeBriefs], against the words of the
    specification: the deduplicated, case-insensitive union of the
    headings; each in the casing of its first occurrence; more frequent
    keys first, and among equally frequent keys the one seen first. *)
Lemma mergedH2s_spec (sorted : list ModelContribution) :
  let hs := all_of Brief.h2Additions sorted in
  let keys := map toLowerCase hs in
  let merged := mergedH2s_of sorted in
  NoDup (map toLowerCase merged) /\
  (forall k, In k (map toLowerCase merged) <-> In k keys) /\
  (forall m, In m merged ->
     find (fun h => String.eqb (toLowerCase h) (toLowerCase m)) hs = Some m) /\
  (forall a b, Arr.before a b (map toLowerCase merged) ->
     (occurrences b keys < occurrences a keys)%nat \/
     (occurrences a keys = occurrences b keys /\
      (first_index a keys < first_index b keys)%nat)).
Proof.
  cbv zeta. unfold mergedH2s_of.
  destruct (h2Counts_spec sorted) as [Hkeys Hcount].
  set (hs := all_of Brief.h2Additions sorted) in *.
  set (keys := map toLowerCase hs) in *.
  set (entries := h2Counts_of sorted) in *.
  set (ranked := Arr.sort_desc count_key entries).
  assert (Hperm : Permutation (map fst ranked) (Arr.uniq String.eqb keys)).
  { rewrite <- Hkeys. apply Permutation_map, ArrProps.sort_desc_perm. }
  assert (Hin : forall k, In k (map fst ranked) <-> In k keys).
  { intros k. split; intros H.
    - apply (proj1 (uniq_In k keys)). exact (Permutation_in _ Hperm H).
    - apply (Permutation_in _ (Permutation_sym Hperm)).
      exact (proj2 (uniq_In k keys) H). }
  assert (Hlow : map toLowerCase
                   (map (fun e : string * nat => original_casing sorted (fst e)) ranked)
                 = map fst ranked).
  { rewrite map_map. apply map_ext_in. intros e He.
    apply original_casing_key. apply Hin. now apply in_map. }
  rewrite Hlow. split; [| split; [| split]].
  - apply (Permutation_NoDup (Permutation_sym Hperm)), uniq_NoDup.
  - exact Hin.
  - intros m Hm. apply in_map_iff in Hm. destruct Hm as (e & <- & He).
    assert (Hk : In (fst e) keys) by (apply Hin; now apply in_map).
    rewrite (original_casing_key sorted (fst e) Hk).
    now apply original_casing_first.
  - intros a b Hb. apply ArrProps.before_map in Hb.
    destruct Hb as (ea & eb & <- & <- & Hb).
    pose proof Hb as Hmem. apply ArrProps.before_In in Hmem.
    destruct Hmem as [Ha Hbm].
    apply (proj1 (ArrProps.sort_desc_In count_key _ _)) in Ha.
    apply (proj1 (ArrProps.sort_desc_In count_key _ _)) in Hbm.
    assert (Hna : snd ea = occurrences (fst ea) keys)
      by (apply Hcount; now destruct ea).
    assert (Hnb : snd eb = occurrences (fst eb) keys)
      by (apply Hcount; now destruct eb).
    apply ArrProps.sort_desc_stable in Hb.
    destruct Hb as [Hlt | [Heq Hbef]].
    + left. apply count_key_lt in Hlt. lia.
    + right. apply count_key_eq in Heq. split; [lia |].
      apply uniq_first_seen. rewrite <- Hkeys.
      now apply ArrProps.map_before.
Qed.

Lemma sort_desc_map_snd {K V : Type} (key : V -> Q) (l : list (K * V)) :
  map snd (Arr.sort_desc (fun s => key (snd s)) l)
  = Arr.sort_desc key (map snd l).
Proof.
  induction l as [| x l IH]; simpl.
  - reflexivity.
  - rewrite <- IH. generalize (Arr.sort_desc (fun s => key (snd s)) l).
    intros s. induction s as [| y s IHs]; simpl.
    + reflexivity.
    + destruct (Num.ltb (key (snd x)) (key (snd y))); simpl;
        [now rewrite IHs | reflexivity].
Qed.

Lemma successes_le (adapters : list ModelAdapter) (page : Page.t)
    (bucket : ActionBucket) :
  (successes adapters page bucket <= List.length adapters)%nat.
Proof. unfold successes. apply filter_length_le. Qed.

Lemma generateConsensus_many (this : t) (adapters : list ModelAdapter)
    (page : Page.t) (bucket : ActionBucket) (mw : ModelWeights) :
  List.length adapters <> 1%nat ->
  generateConsensus this adapters page bucket mw
  = conclude this (mw bucket) page bucket
      (fst (collect (mw bucket) 0 (settle adapters page bucket) ([], [])))
      (snd (collect (mw bucket) 0 (settle adapters page bucket) ([], []))).
Proof.
  intros Hne. unfold generateConsensus.
  destruct adapters as [| a1 [| a2 rest]]; simpl in Hne; try lia;
    destruct (collect _ _ _ _); reflexivity.
Qed.

(** C6.  When two or more providers succeed and the confidence reaches
    [consensusThreshold], the outcome is a consensus whose heading list is
    the deduplicated (case-insensitive) union of the contributors'
    headings, each in the casing of its first occurrence, ordered by
    descending number of occurrences, ties going to the heading seen
    first.  Providers are visited in the order of [contributions]: the
    successful providers by descending category weight, equal weights in
    adapter order. *)
Theorem C6_merged_headings (this : t) (adapters : list ModelAdapter)
    (page : Page.t) (bucket : ActionBucket) (mw : ModelWeights)
    (r : ConsensusResult) :
  generateConsensus this adapters page bucket mw = inr r ->
  (2 <= successes adapters page bucket)%nat ->
  Num.ngeb (confidence r) (consensusThreshold this) = true ->
  let providers := contributions r in
  let hs := all_of Brief.h2Additions providers in
  let keys := map toLowerCase hs in
  let merged := Brief.h2Additions (r_brief r) in
  strategy r = consensus /\
  providers = Arr.sort_desc weight (fulfilled (mw bucket) (settle adapters page bucket)) /\
  NoDup (map toLowerCase merged) /\
  (forall k, In k (map toLowerCase merged) <-> In k keys) /\
  (forall m, In m merged ->
     find (fun h => String.eqb (toLowerCase h) (toLowerCase m)) hs = Some m) /\
  (forall a b, Arr.before a b (map toLowerCase merged) ->
     (occurrences b keys < occurrences a keys)%nat \/
     (occurrences a keys = occurrences b keys /\
      (first_index a keys < first_index b keys)%nat)).
Proof.
  intros Hr H2 Hge. cbv zeta.
  pose proof (successes_le adapters page bucket) as Hle.
  rewrite generateConsensus_many in Hr by lia.
  destruct (collected (mw bucket) adapters page bucket) as (Hmap & Hlen & Hb).
  destruct (conclude_many this (mw bucket) page bucket
              (fst (collect (mw bucket) 0 (settle adapters page bucket) ([], [])))
              (snd (collect (mw bucket) 0 (settle adapters page bucket) ([], []))))
    as (r' & Hr' & _ & Hcons & _); [lia | assumption |].
  assert (E : r' = r) by congruence. subst r'.
  destruct (Hcons Hge) as (Hs & Hc & _ & Hh).
  split; [exact Hs |]. split.
  - rewrite Hc, <- Hmap. exact (sort_desc_map_snd weight _).
  - rewrite Hh. apply mergedH2s_spec.
Qed.

(** A single adapter without a cell in the row is recorded with the
    weight 1. *)
Lemma single_adapter_missing_weight (this : t) (a : ModelAdapter)
    (page : Page.t) (bucket : ActionBucket) (mw : ModelWeights) (r : ConsensusResult) :
  row_get (mw bucket) (id a) = None ->
  generateConsensus this [a] page bucket mw = inr r ->
  map weight (contributions r) = [1].
Proof.
  intros Hmiss Hr. unfold generateConsensus in Hr. rewrite Hmiss in Hr.
  destruct (generateBrief a page bucket); [| discriminate].
  injection Hr as <-. reflexivity.
Qed.


(** C7.  The merge is deterministic.  [mergeBriefs] is handed a reference
    to the array of contributions in a heap of arrays.  It changes no
    array that was in the heap (it sorts the copy that [filter] made), so
    a second run on the heap as the first run left it, with the same
    reference, weight snapshot, page and bucket, returns the same outcome,
    every field of the merged brief equal; and so does a run on any other
    heap in which the array has the same contents: the outcome depends on
    nothing but the contributions, the weights, the page and the
    bucket. *)
Theorem C7_merge_is_deterministic (h : Heap.t ModelContribution)
    (cs : Heap.ref) (bw : Row) (page : Page.t) (bucket : ActionBucket) :
  Heap.valid h cs ->
  let first_run := mergeBriefs cs bw page bucket h in
  let second_run := mergeBriefs cs bw page bucket (snd first_run) in
  (forall r, Heap.valid h r -> Heap.read (snd first_run) r = Heap.read h r) /\
  fst second_run = fst first_run /\
  (forall h', Heap.read h' cs = Heap.read h cs ->
     fst (mergeBriefs cs bw page bucket h') = fst first_run).
Proof.
  intros Hcs. cbv zeta.
  destruct (mergeBriefs_spec cs bw page bucket h) as [Hout Hframe].
  split; [exact Hframe |]. split.
  - destruct (mergeBriefs_spec cs bw page bucket
                (snd (mergeBriefs cs bw page bucket h))) as [Hout2 _].
    rewrite Hout2, Hout, (Hframe cs Hcs). reflexivity.
  - intros h' Hsame.
    destruct (mergeBriefs_spec cs bw page bucket h') as [Hout' _].
    rewrite Hout', Hout, Hsame. reflexivity.
Qed.

End WithStrings.

(** *** The ASCII instance *)

Lemma ascii_lower_empty (h : string) :
  Str.toLowerCase h = EmptyString <-> h = EmptyString.
Proof.
  destruct h; simpl; split; intros H; try reflexivity; discriminate.
Qed.

Lemma C6_merged_headings_witness :
  exists r,
    generateConsensus Examples.engine Examples.three_of_four Examples.guide
      STRIKING_DISTANCE DEFAULT_MODEL_WEIGHTS = inr r /\
    (2 <= successes Examples.three_of_four Examples.guide STRIKING_DISTANCE)%nat /\
    Num.ngeb (confidence r) (consensusThreshold Examples.engine) = true /\
    strategy r = consensus /\
    NoDup (map Str.toLowerCase (Brief.h2Additions (r_brief r))).
Proof.
  eexists. split; [vm_compute; reflexivity |].
  assert (H2 : (2 <= successes Examples.three_of_four Examples.guide
                      STRIKING_DISTANCE)%nat) by (vm_compute; lia).
  split; [exact H2 |]. split; [vm_compute; reflexivity |].
  match goal with
  | |- strategy ?r = _ /\ _ =>
      destruct (C6_merged_headings (js := ascii_strings) ascii_lower_empty
                  Examples.engine
                  Examples.three_of_four
                  Examples.guide STRIKING_DISTANCE DEFAULT_MODEL_WEIGHTS r)
        as (Hs & _ & Hnd & _);
        [vm_compute; reflexivity | exact H2 | vm_compute; reflexivity |]
  end.
  split; [exact Hs | exact Hnd].
Defined.


(** The scenario of the specification: four providers, three succeed with
    the heading sets {A, B}, {A, C}, {A, B, C}; the agreement is 8/9 and
    the merged headings are A (three occurrences), then B and C (two
    each) as first seen, in the casing of the first provider that has
    them. *)
Lemma consensus_scenario :
  exists r,
    generateConsensus Examples.engine Examples.three_of_four Examples.guide
      STRIKING_DISTANCE DEFAULT_MODEL_WEIGHTS = inr r /\
    strategy r = consensus /\
    confidence r = Num.Fin (F64.dec (8 # 9)) /\
    Brief.h2Additions (r_brief r) = ["Pricing Plans"; "Setup"; "FAQ"]%string /\
    map modelId (contributions r) = [claude; openai; gemini].
Proof.
  eexists. split; [vm_compute; reflexivity |].
  vm_compute. repeat split.
Qed.


(** The provider order is the order of weights: when openai leads the
    row, its headings are seen first, so its casing is kept and its
    second heading precedes the other heading of equal count. *)
Lemma consensus_scenario_by_weight :
  exists r,
    generateConsensus Examples.engine Examples.three_of_four Examples.guide
      STRIKING_DISTANCE Examples.openai_leads = inr r /\
    strategy r = consensus /\
    Brief.h2Additions (r_brief r) = ["pricing plans"; "FAQ"; "Setup"]%string /\
    map modelId (contributions r) = [openai; claude; gemini].
Proof.
  eexists. split; [vm_compute; reflexivity |].
  vm_compute. repeat split.
Qed.


Lemma C3_failure_and_single_witness :
  (2 <= List.length Examples.one_of_two)%nat /\
  successes Examples.one_of_two Examples.guide CTR_FIX = 1%nat /\
  ~ (forall a, In a Examples.one_of_two ->
       generateBrief a Examples.guide CTR_FIX = None) /\
  ~ (exists e, generateConsensus Examples.engine Examples.one_of_two
                 Examples.guide CTR_FIX DEFAULT_MODEL_WEIGHTS = inl e) /\
  exists r, generateConsensus Examples.engine Examples.one_of_two
              Examples.guide CTR_FIX DEFAULT_MODEL_WEIGHTS = inr r /\
            strategy r = single /\ confidence r = Num.Fin 1.
Proof.
  destruct (C3_failure_and_single Examples.engine Examples.one_of_two
              Examples.guide CTR_FIX DEFAULT_MODEL_WEIGHTS) as (Hiff & Hone & _).
  assert (H2 : (2 <= List.length Examples.one_of_two)%nat) by (vm_compute; lia).
  assert (H1 : successes Examples.one_of_two Examples.guide CTR_FIX = 1%nat)
    by (vm_compute; reflexivity).
  assert (Hsome : ~ (forall a, In a Examples.one_of_two ->
                       generateBrief a Examples.guide CTR_FIX = None)).
  { intros H. specialize (H _ (or_intror (or_introl eq_refl))). discriminate H. }
  split; [exact H2 |]. split; [exact H1 |]. split; [exact Hsome |].
  split; [| exact (Hone H1)].
  intros He. apply Hsome. now apply (Hiff H2).
Defined.


(** Where the agreement of the briefs is 0.7 in exact arithmetic, the
    binary64 sum of the three pair agreements is 2.0999999999999996 and
    the confidence 0.6999999999999998: below the threshold 0.7, so the
    primary provider's brief is returned, not a merge. *)
Lemma rounding_decides_the_strategy :
  exists r,
    generateConsensus Examples.engine Examples.near_threshold Examples.guide
      STRIKING_DISTANCE DEFAULT_MODEL_WEIGHTS = inr r /\
    confidence r = Num.Fin (F64.dec (6999999999999998 # 10000000000000000)) /\
    Num.ngeb (confidence r) (consensusThreshold Examples.engine) = false /\
    strategy r = primary.
Proof.
  eexists. split; [vm_compute; reflexivity |].
  vm_compute. repeat split.
Qed.

Lemma C7_merge_is_deterministic_witness :
  let h := [Examples.contributed] in
  let first_run := mergeBriefs 0%nat uniform_row Examples.guide STRIKING_DISTANCE h in
  let second_run :=
    mergeBriefs 0%nat uniform_row Examples.guide STRIKING_DISTANCE (snd first_run) in
  Heap.valid h 0%nat /\
  (forall r, Heap.valid h r -> Heap.read (snd first_run) r = Heap.read h r) /\
  fst second_run = fst first_run /\
  (forall h', Heap.read h' 0%nat = Heap.read h 0%nat ->
     fst (mergeBriefs 0%nat uniform_row Examples.guide STRIKING_DISTANCE h')
     = fst first_run).
Proof.
  cbv zeta.
  assert (H : Heap.valid [Examples.contributed] 0%nat)
    by (unfold Heap.valid; simpl; lia).
  split; [exact H |].
  exact (C7_merge_is_deterministic [Examples.contributed] 0%nat uniform_row
           Examples.guide STRIKING_DISTANCE H).
Defined.

(** The copy matters: the array handed over is in adapter order, the
    array that [mergeBriefs] sorts is the one [filter] made, and the
    first is still in adapter order afterwards. *)
Lemma merge_sorts_a_copy :
  let h := [Examples.contributed] in
  let h' := snd (mergeBriefs 0%nat (Examples.openai_leads STRIKING_DISTANCE) Examples.guide
                   STRIKING_DISTANCE h) in
  map modelId (Heap.read h' 0%nat) = [claude; openai; gemini] /\
  map modelId (Heap.read h' 1%nat) = [openai; claude; gemini].
Proof. vm_compute. split; reflexivity. Qed.

End ConsensusProps.

(** ** Action bucket classifier *)

Module BucketerProps.
Import ActionBucketer.

(** C5.  [classify] is total: every page gets one of the five buckets; and
    a page whose position is at most the configured MONITOR [maxPosition]
    is classified MONITOR whatever its impressions, click-through gap,
    locality and intent. *)
Theorem C5_classify_total_monitor_first (this : t) (page : Page.t) :
  In (classify this page) ACTION_BUCKETS /\
  (Page.position page <= c_MONITOR_maxPosition (criteria this) ->
   classify this page = MONITOR).
Proof.
  split.
  - destruct (classify this page); simpl; tauto.
  - intros Hpos. unfold classify, isMonitor, Num.leb.
    apply Qle_bool_iff in Hpos. now rewrite Hpos.
Qed.

Lemma C5_classify_total_monitor_first_witness :
  Page.position Examples.top_ranked
    <= c_MONITOR_maxPosition (criteria Examples.bucketer) /\
  isCTRFix Examples.bucketer Examples.top_ranked = true /\
  detectLocalIntent Examples.top_ranked = true /\
  classify Examples.bucketer Examples.top_ranked = MONITOR.
Proof.
  assert (H : Page.position Examples.top_ranked
              <= c_MONITOR_maxPosition (criteria Examples.bucketer))
    by (vm_compute; discriminate).
  split; [exact H |].
  split; [vm_compute; reflexivity |]. split; [vm_compute; reflexivity |].
  exact (proj2 (C5_classify_total_monitor_first Examples.bucketer
                  Examples.top_ranked) H).
Defined.

End BucketerProps.

(** ** Opportunity scorer *)

Module ScorerProps.
Import OpportunityScorer.
Local Open Scope R_scope.

Lemma clamp_unit (v : R) : 0 <= clamp v 0 1 <= 1.
Proof.
  unfold clamp, Rmax, Rmin.
  destruct (Rle_dec 1 v); destruct (Rle_dec 0 _); Lra.lra.
Qed.

Lemma clamp_le (v b : R) : v <= b -> 0 <= b -> clamp v 0 1 <= b.
Proof.
  intros Hv Hb. unfold clamp, Rmax, Rmin.
  destruct (Rle_dec 1 v); destruct (Rle_dec 0 _); Lra.lra.
Qed.

Lemma clamp_one (v : R) : 1 <= v -> clamp v 0 1 = 1.
Proof.
  intros Hv. unfold clamp, Rmax, Rmin.
  destruct (Rle_dec 1 v); destruct (Rle_dec 0 _); Lra.lra.
Qed.

Lemma clamped_log_unit (x : Q) (d v : R) :
  clamped_log x d = Some v -> 0 <= v <= 1.
Proof.
  unfold clamped_log.
  destruct (Num.ltb x 0); [discriminate |].
  destruct (Num.is_zero x); intros E; injection E as <-.
  - Lra.lra.
  - apply clamp_unit.
Qed.

Lemma clamped_log_defined (x : Q) (d : R) :
  (0 <= x)%Q -> exists v, clamped_log x d = Some v.
Proof.
  intros Hx. unfold clamped_log.
  assert (E : Num.ltb x 0 = false) by now apply ArrProps.ltb_false.
  rewrite E. destruct (Num.is_zero x); eauto.
Qed.

Lemma round4_grid (x : R) : exists z : Z, round4 x = IZR z / 10000.
Proof. unfold round4. eauto. Qed.

Lemma round4_range (x : R) (b : Z) :
  0 <= x -> x <= IZR b / 10000 -> 0 <= round4 x <= IZR b / 10000.
Proof.
  intros H0 Hb. unfold round4.
  destruct (base_Int_part (x * 10000 + / 2)) as [Hle Hgt].
  set (z := Int_part (x * 10000 + / 2)) in *.
  assert (Hz0 : (0 <= z)%Z).
  { assert (H : (-1 < z)%Z) by (apply lt_IZR; Lra.lra). lia. }
  assert (Hzb : (z <= b)%Z).
  { assert (H : (z < b + 1)%Z) by (apply lt_IZR; rewrite plus_IZR; Lra.lra). lia. }
  apply IZR_le in Hz0, Hzb. Lra.lra.
Qed.

Lemma Q2R_wsum (w : WeightConfig) :
  Q2R (WeightAdjuster.wsum w)
  = Q2R (impressions w) + Q2R (position w) + Q2R (ctrGap w)
    + Q2R (conversions w) + Q2R (freshness w).
Proof. unfold WeightAdjuster.wsum. now rewrite !Q2R_plus. Qed.

(** C4 (as amended).  For every page with non-negative impression and
    conversion counts (any position, click-through rate and freshness) and
    every weight vector with non-negative components that sum to at most
    1.0001, [calculateScore] returns a multiple of 1e-4 between 0 and
    1.0001; the result is at most 1 when the weights sum to at most 1, and
    also when the page's position is at least 1 and the position weight at
    least 0.005. *)
Theorem C4_score_range (this : t) (page : Page.t) :
  (0 <= Page.impressions page)%Q ->
  (0 <= Page.conversions page)%Q ->
  (forall k, 0 <= wget (weights this) k)%Q ->
  (WeightAdjuster.wsum (weights this) <= 1 + (1 # 10000))%Q ->
  exists s,
    calculateScore this page = Some s /\
    (exists z : Z, s = IZR z / 10000) /\
    0 <= s <= 1 + 1 / 10000 /\
    ((WeightAdjuster.wsum (weights this) <= 1)%Q -> s <= 1) /\
    ((1 <= Page.position page)%Q -> (5 # 1000 <= position (weights this))%Q ->
     s <= 1).
Proof.
  intros Himp Hconv Hw Hsum.
  unfold calculateScore, getNormalizedScores. cbn [n_impressions n_position n_ctrGap n_conversions n_freshness].
  destruct (clamped_log_defined (Page.impressions page + 1)%Q 5) as [ni Hni];
    [Lqa.lra |].
  destruct (clamped_log_defined (Page.conversions page + 1)%Q 2) as [nc Hnc];
    [Lqa.lra |].
  unfold normalizeImpressions, normalizeConversions. rewrite Hni, Hnc.
  apply clamped_log_unit in Hni, Hnc.
  unfold normalizePosition, normalizeFreshness.
  pose proof (clamp_unit ((50 - Q2R (Page.position page)) / 50)) as Hnp.
  pose proof (clamp_unit (Q2R (Page.freshnessScore page))) as Hnf.
  assert (Hpos1 : (1 <= Page.position page)%Q ->
                  clamp ((50 - Q2R (Page.position page)) / 50) 0 1 <= 49 / 50).
  { intros H1. apply clamp_le; [| Lra.lra].
    apply Qle_Rle in H1. replace (Q2R 1) with 1 in H1 by (unfold Q2R; simpl; Lra.lra).
    Lra.lra. }
  set (np := clamp ((50 - Q2R (Page.position page)) / 50) 0 1) in *.
  set (nf := clamp (Q2R (Page.freshnessScore page)) 0 1) in *.
  assert (Hg : exists ng, normalizeCTRGap this (Page.position page) (Page.ctr page)
                          = Some ng /\ 0 <= ng <= 1).
  { unfold normalizeCTRGap. destruct (Num.leb _ 0).
    - exists 0. split; [reflexivity | Lra.lra].
    - eexists. split; [reflexivity | apply clamp_unit]. }
  destruct Hg as (ng & -> & Hng).
  pose proof (Hw Kimpressions) as W1. pose proof (Hw Kposition) as W2.
  pose proof (Hw KctrGap) as W3. pose proof (Hw Kconversions) as W4.
  pose proof (Hw Kfreshness) as W5. simpl in W1, W2, W3, W4, W5.
  apply Qle_Rle in W1, W2, W3, W4, W5.
  replace (Q2R 0) with 0 in * by (unfold Q2R; simpl; Lra.lra).
  pose proof (Q2R_wsum (weights this)) as Hs.
  assert (Hsum' : Q2R (WeightAdjuster.wsum (weights this)) <= 1 + 1 / 10000).
  { apply Qle_Rle in Hsum. rewrite Q2R_plus in Hsum.
    replace (Q2R 1) with 1 in Hsum by (unfold Q2R; simpl; Lra.lra).
    replace (Q2R (1 # 10000)) with (1 / 10000) in Hsum by (unfold Q2R; simpl; Lra.lra).
    exact Hsum. }
  assert (Hwp5 : (5 # 1000 <= position (weights this))%Q ->
                 5 / 1000 <= Q2R (position (weights this))).
  { intros H. apply Qle_Rle in H.
    replace (Q2R (5 # 1000)) with (5 / 1000) in H by (unfold Q2R; simpl; Lra.lra).
    exact H. }
  set (wi := Q2R (impressions (weights this))) in *.
  set (wp := Q2R (position (weights this))) in *.
  set (wg := Q2R (ctrGap (weights this))) in *.
  set (wc := Q2R (conversions (weights this))) in *.
  set (wf := Q2R (freshness (weights this))) in *.
  clearbody np nf wi wp wg wc wf.
  set (score := wi * ni + wp * np + wg * ng + wc * nc + wf * nf).
  assert (H0 : 0 <= score) by (unfold score; Lra.nra).
  assert (Hup : score <= wi + wp + wg + wc + wf) by (unfold score; Lra.nra).
  eexists. split; [reflexivity |]. split; [apply round4_grid |].
  split; [| split].
  - replace (1 + 1 / 10000) with (IZR 10001 / 10000) by Lra.lra.
    apply round4_range; [assumption | Lra.lra].
  - intros H1. apply Qle_Rle in H1.
    replace (Q2R 1) with 1 in H1 by (unfold Q2R; simpl; Lra.lra).
    replace 1 with (IZR 10000 / 10000) by Lra.lra.
    apply round4_range; [assumption | Lra.lra].
  - intros Hp Hwp. specialize (Hpos1 Hp). specialize (Hwp5 Hwp).
    replace 1 with (IZR 10000 / 10000) by Lra.lra.
    apply round4_range; [assumption |].
    assert (score <= wi + wp * (49 / 50) + wg + wc + wf) by (unfold score; Lra.nra).
    Lra.lra.
Qed.

Lemma ln_10_pos : 0 < ln 10.
Proof. rewrite <- ln_1. apply ln_increasing; Lra.lra. Qed.

Lemma log10_pow10 (n : nat) : log10 (10 ^ n) = INR n.
Proof.
  unfold log10. rewrite ln_pow by Lra.lra.
  pose proof ln_10_pos. field. Lra.lra.
Qed.

Lemma clamped_log_pos (x : Q) (d : R) :
  (0 < x)%Q -> clamped_log x d = Some (clamp (log10 (Q2R x) / d) 0 1).
Proof.
  intros Hx. unfold clamped_log.
  assert (E1 : Num.ltb x 0 = false) by (apply ArrProps.ltb_false; Lqa.lra).
  assert (E2 : Num.is_zero x = false).
  { destruct (Num.is_zero x) eqn:E; [| reflexivity].
    apply WeightAdjusterProps.is_zero_true in E. Lqa.lra. }
  now rewrite E1, E2.
Qed.

Lemma round4_of_grid (z : Z) : round4 (IZR z / 10000) = IZR z / 10000.
Proof.
  unfold round4. f_equal. f_equal. symmetry. apply Int_part_spec.
  Lra.lra.
Qed.

Lemma saturated_scores :
  getNormalizedScores (Examples.scorer Examples.heavy) Examples.saturated
  = mkScores (Some 1) (Some 1) (Some 1) (Some 1) (Some 1).
Proof.
  unfold getNormalizedScores.
  assert (E1 : normalizeImpressions (Page.impressions Examples.saturated) = Some 1).
  { unfold normalizeImpressions. rewrite clamped_log_pos by reflexivity.
    f_equal. apply clamp_one.
    replace (Q2R (Page.impressions Examples.saturated + 1)) with (10 ^ 5)
      by (unfold Q2R; simpl; Lra.lra).
    rewrite log10_pow10. simpl. Lra.lra. }
  assert (E2 : normalizeConversions (Page.conversions Examples.saturated) = Some 1).
  { unfold normalizeConversions. rewrite clamped_log_pos by reflexivity.
    f_equal. apply clamp_one.
    replace (Q2R (Page.conversions Examples.saturated + 1)) with (10 ^ 2)
      by (unfold Q2R; simpl; Lra.lra).
    rewrite log10_pow10. simpl. Lra.lra. }
  assert (E3 : normalizePosition (Page.position Examples.saturated) = Some 1).
  { unfold normalizePosition. f_equal. apply clamp_one.
    unfold Q2R; simpl. Lra.lra. }
  assert (E4 : normalizeFreshness (Page.freshnessScore Examples.saturated) = Some 1).
  { unfold normalizeFreshness. f_equal. apply clamp_one.
    unfold Q2R; simpl. Lra.lra. }
  assert (E5 : normalizeCTRGap (Examples.scorer Examples.heavy)
                 (Page.position Examples.saturated) (Page.ctr Examples.saturated)
               = Some 1).
  { unfold normalizeCTRGap.
    change (getExpectedCTR (Page.position Examples.saturated)
              (ctrCurve (Examples.scorer Examples.heavy))) with (32 # 100)%Q.
    change (Num.leb (32 # 100) 0) with false. cbv iota.
    f_equal. apply clamp_one. unfold Q2R; simpl. Lra.lra. }
  now rewrite E1, E2, E3, E4, E5.
Qed.

(** C4 as stated fails.  The weights 0.2001, 0.2 x 4 lie within the
    clamp 0.05-0.50 and sum to 1.0001; on a page with 99999 impressions,
    position 0, no clicks, 99 conversions and freshness 1 all five
    normalised scores are 1, and the score is 1.0001. *)
Lemma C4_counterexample :
  WeightAdjuster.in_bounds DEFAULT_LEARNING_CONFIG Examples.heavy /\
  WeightAdjuster.sums_to_one Examples.heavy /\
  calculateScore (Examples.scorer Examples.heavy) Examples.saturated
  = Some (IZR 10001 / 10000) /\
  ~ (IZR 10001 / 10000 <= 1).
Proof.
  split; [| split; [| split]].
  - intros k. destruct k; vm_compute; split; discriminate.
  - vm_compute. split; discriminate.
  - unfold calculateScore. rewrite saturated_scores.
    cbn [n_impressions n_position n_ctrGap n_conversions n_freshness].
    f_equal. rewrite <- round4_of_grid. f_equal.
    unfold Q2R; simpl. Lra.lra.
  - Lra.lra.
Qed.

(** An impression count below -1 makes the logarithm, and with it the
    score, NaN. *)
Lemma negative_impressions_give_NaN :
  calculateScore (Examples.scorer DEFAULT_WEIGHTS) Examples.negative = None.
Proof. reflexivity. Qed.

Lemma C4_score_range_witness :
  ((0 <= Page.impressions Examples.guide)%Q /\
   (0 <= Page.conversions Examples.guide)%Q /\
   (forall k, 0 <= wget (weights (Examples.scorer DEFAULT_WEIGHTS)) k)%Q /\
   (WeightAdjuster.wsum (weights (Examples.scorer DEFAULT_WEIGHTS))
    <= 1 + (1 # 10000))%Q) /\
  exists s,
    calculateScore (Examples.scorer DEFAULT_WEIGHTS) Examples.guide = Some s /\
    0 <= s <= 1 + 1 / 10000.
Proof.
  assert (H1 : (0 <= Page.impressions Examples.guide)%Q)
    by (vm_compute; discriminate).
  assert (H2 : (0 <= Page.conversions Examples.guide)%Q)
    by (vm_compute; discriminate).
  assert (H3 : forall k,
             (0 <= wget (weights (Examples.scorer DEFAULT_WEIGHTS)) k)%Q)
    by (intros k; destruct k; vm_compute; discriminate).
  assert (H4 : (WeightAdjuster.wsum (weights (Examples.scorer DEFAULT_WEIGHTS))
                <= 1 + (1 # 10000))%Q)
    by (vm_compute; discriminate).
  split; [exact (conj H1 (conj H2 (conj H3 H4))) |].
  destruct (C4_score_range (Examples.scorer DEFAULT_WEIGHTS) Examples.guide
              H1 H2 H3 H4) as (s & Hs & _ & Hr & _).
  exists s. split; [exact Hs | exact Hr].
Defined.

End ScorerProps.

(* ================================================================== *)
(** * Part III: further properties of the code *)
(* ================================================================== *)

(** ** Expected click-through rate and classification *)

Module BucketMore.
Import ActionBucketer BucketGroups.

Lemma leb_true (a b : Q) : Num.leb a b = true <-> a <= b.
Proof. unfold Num.leb. apply Qle_bool_iff. Qed.

Lemma leb_false (a b : Q) : Num.leb a b = false <-> b < a.
Proof.
  unfold Num.leb. split; intros H.
  - apply Qnot_le_lt. intros Hle. apply Qle_bool_iff in Hle. congruence.
  - destruct (Qle_bool a b) eqn:E; [| reflexivity].
    apply Qle_bool_iff in E. lra.
Qed.

(** X1.  On a curve that does not rise from one position to the next (the
    default curve is one), a worse position never has a higher expected
    click-through rate. *)
Theorem expected_ctr_falls_with_position (curve : CTRCurve) (p1 p2 : Q) :
  non_increasing curve -> p1 <= p2 ->
  getExpectedCTR p2 curve <= getExpectedCTR p1 curve.
Proof.
  intros (H1 & H2 & H3 & H4 & H5 & H6 & H7 & H8 & H9 & H10 & H11) Hp.
  pose proof (round_mono p1 p2 Hp) as Hz.
  unfold getExpectedCTR.
  generalize dependent (Num.round p2). generalize dependent (Num.round p1).
  intros z1 z2 Hz. cbv zeta.
  split_positions; try lia; lra.
Qed.

Lemma expected_ctr_falls_with_position_witness :
  non_increasing DEFAULT_CTR_CURVE /\ 3 <= 12 /\
  getExpectedCTR 12 DEFAULT_CTR_CURVE <= getExpectedCTR 3 DEFAULT_CTR_CURVE.
Proof.
  assert (H : non_increasing DEFAULT_CTR_CURVE)
    by (unfold non_increasing; vm_compute; repeat split; discriminate).
  assert (H' : 3 <= 12) by (vm_compute; discriminate).
  split; [exact H |]. split; [exact H' |].
  exact (expected_ctr_falls_with_position DEFAULT_CTR_CURVE 3 12 H H').
Defined.

(** X2.  What each bucket other than MONITOR guarantees about a page
    classified into it: the page lies outside the protected band and
    meets the bucket's thresholds on position and impressions.  (The
    click-through test of CTR_FIX compares with a product of two numbers
    and is not part of the statement.) *)
Theorem classify_sound (this : t) (page : Page.t) :
  (classify this page <> MONITOR ->
   c_MONITOR_maxPosition (criteria this) < Page.position page) /\
  (classify this page = CTR_FIX ->
   cf_minImpressions (c_CTR_FIX (criteria this)) <= Page.impressions page) /\
  (classify this page = STRIKING_DISTANCE ->
   minPosition (c_STRIKING_DISTANCE (criteria this)) <= Page.position page
   <= maxPosition (c_STRIKING_DISTANCE (criteria this)) /\
   minImpressions (c_STRIKING_DISTANCE (criteria this)) <= Page.impressions page) /\
  (classify this page = LOCAL_BOOST ->
   3 < Page.position page /\
   (Page.isLocalPage page = true \/ Page.intent page = Page.Intent_local \/
    detectLocalIntent page = true)) /\
  (classify this page = RELEVANCE_REBUILD ->
   minPosition (c_RELEVANCE_REBUILD (criteria this)) <= Page.position page
   <= maxPosition (c_RELEVANCE_REBUILD (criteria this)) /\
   minImpressions (c_RELEVANCE_REBUILD (criteria this)) <= Page.impressions page).
Proof.
  unfold classify.
  destruct (isMonitor this page) eqn:Em.
  { split; [intros H; congruence |]. split; [discriminate |].
    split; [discriminate |]. split; discriminate. }
  apply leb_false in Em.
  destruct (isCTRFix this page) eqn:Ec.
  { unfold isCTRFix in Ec. apply andb_true_iff in Ec. destruct Ec as [E1 E2].
    apply leb_true in E1.
    split; [intros _; exact Em |]. split; [intros _; exact E1 |].
    split; [discriminate |]. split; discriminate. }
  destruct (isStrikingDistance this page) eqn:Es.
  { unfold isStrikingDistance, in_band in Es.
    apply andb_true_iff in Es. destruct Es as [Es E3].
    apply andb_true_iff in Es. destruct Es as [E1 E2].
    apply leb_true in E1, E2, E3.
    split; [intros _; exact Em |]. split; [discriminate |].
    split; [intros _; split; [split |]; assumption |].
    split; discriminate. }
  destruct (isLocalBoost page) eqn:El.
  { split; [intros _; exact Em |]. split; [discriminate |].
    split; [discriminate |]. split; [| discriminate]. intros _.
    unfold isLocalBoost in El.
    destruct (Page.isLocalPage page); simpl in El.
    - apply ArrProps.ltb_true in El. split; [exact El | now left].
    - destruct (Page.intent page) eqn:Ei; simpl in El;
        try (destruct (detectLocalIntent page); [| discriminate];
             apply ArrProps.ltb_true in El; split; [exact El | now right; right]).
      apply ArrProps.ltb_true in El. split; [exact El | right; now left]. }
  destruct (isRelevanceRebuild this page) eqn:Er.
  { unfold isRelevanceRebuild, in_band in Er.
    apply andb_true_iff in Er. destruct Er as [Er E3].
    apply andb_true_iff in Er. destruct Er as [E1 E2].
    apply leb_true in E1, E2, E3.
    split; [intros _; exact Em |]. split; [discriminate |].
    split; [discriminate |]. split; [discriminate |].
    intros _. split; [split |]; assumption. }
  split; [intros H; congruence |]. split; [discriminate |].
  split; [discriminate |]. split; discriminate.
Qed.

Lemma classify_sound_witness :
  let page :=
    Page.mk "https://example.com/pricing" "crm pricing" 10 2000 (1 # 100) 6 0
      500 (1 # 2) 60 Page.Intent_transactional false [] (1 # 2) in
  classify Examples.bucketer page = CTR_FIX /\
  3 < Page.position page /\ 500 <= Page.impressions page.
Proof.
  cbv zeta.
  assert (E : classify Examples.bucketer
                (Page.mk "https://example.com/pricing" "crm pricing" 10 2000
                   (1 # 100) 6 0 500 (1 # 2) 60 Page.Intent_transactional
                   false [] (1 # 2)) = CTR_FIX) by (vm_compute; reflexivity).
  split; [exact E |].
  destruct (classify_sound Examples.bucketer
              (Page.mk "https://example.com/pricing" "crm pricing" 10 2000
                 (1 # 100) 6 0 500 (1 # 2) 60 Page.Intent_transactional
                 false [] (1 # 2))) as (Hm & Hc & _).
  split.
  - apply Hm. rewrite E. discriminate.
  - exact (Hc E).
Defined.

(** X3.  The fallback: a page outside the protected band that has fewer
    impressions than each of the three volume thresholds and no local
    signal is classified MONITOR all the same. *)
Theorem low_volume_pages_fall_back_to_monitor (this : t) (page : Page.t) :
  Page.impressions page < cf_minImpressions (c_CTR_FIX (criteria this)) ->
  Page.impressions page < minImpressions (c_STRIKING_DISTANCE (criteria this)) ->
  Page.impressions page < minImpressions (c_RELEVANCE_REBUILD (criteria this)) ->
  Page.isLocalPage page = false ->
  Page.intent page <> Page.Intent_local ->
  detectLocalIntent page = false ->
  classify this page = MONITOR.
Proof.
  intros H1 H2 H3 Hl Hi Hd. unfold classify.
  destruct (isMonitor this page); [reflexivity |].
  assert (E1 : isCTRFix this page = false).
  { unfold isCTRFix. apply leb_false in H1. now rewrite H1. }
  assert (E2 : isStrikingDistance this page = false).
  { unfold isStrikingDistance, in_band. apply leb_false in H2.
    rewrite H2. apply andb_false_r. }
  assert (E3 : isRelevanceRebuild this page = false).
  { unfold isRelevanceRebuild, in_band. apply leb_false in H3.
    rewrite H3. apply andb_false_r. }
  assert (E4 : isLocalBoost page = false).
  { unfold isLocalBoost. rewrite Hl, Hd.
    destruct (Page.intent page); simpl; try reflexivity. congruence. }
  now rewrite E1, E2, E4, E3.
Qed.

Lemma low_volume_pages_fall_back_to_monitor_witness :
  let page :=
    Page.mk "https://example.com/notes" "meeting notes" 0 40 0 35 0
      500 (1 # 2) 60 Page.Intent_informational false [] (1 # 2) in
  3 < Page.position page /\ Page.ctr page == 0 /\
  classify Examples.bucketer page = MONITOR.
Proof.
  cbv zeta. split; [vm_compute; reflexivity |]. split; [reflexivity |].
  apply low_volume_pages_fall_back_to_monitor.
  - vm_compute. reflexivity.
  - vm_compute. reflexivity.
  - vm_compute. reflexivity.
  - reflexivity.
  - discriminate.
  - vm_compute. reflexivity.
Defined.

Lemma lower_ascii_not_upper (c : ascii) : is_upper (Str.lower_ascii c) = false.
Proof. destruct c as [[] [] [] [] [] [] [] []]; reflexivity. Qed.

Lemma town_state_never (at_boundary : bool) (text : string) :
  test_from town_state_here at_boundary (Str.toLowerCase text) = false.
Proof.
  revert at_boundary. induction text as [| c r IH]; intros b; simpl.
  - now rewrite andb_false_r.
  - rewrite lower_ascii_not_upper, andb_false_r. simpl. apply IH.
Qed.

(** X4.  The second city pattern (a capitalised town, a comma and a
    two-letter state code) is tested against text that has been put in
    lower case first, so it never matches: [detectLocalIntent] answers
    from the keywords, the six named cities and the page's own
    [localKeywords] alone. *)
Theorem town_state_pattern_never_matches (page : Page.t) :
  let text :=
    Str.toLowerCase (Page.url page ++ " " ++ Page.primaryKeyword page)%string in
  test_from town_state_here true text = false /\
  detectLocalIntent page
  = (existsb (fun keyword => Str.includes (Str.toLowerCase keyword) text)
             local_keywords
     || test_from city_here true text
     || Nat.ltb 0 (List.length (Page.localKeywords page))).
Proof.
  cbv zeta. split; [apply town_state_never |].
  unfold detectLocalIntent, city_patterns. simpl existsb at 2.
  rewrite town_state_never.
  destruct (existsb _ local_keywords); [reflexivity |].
  destruct (test_from city_here true _); reflexivity.
Qed.

Lemma groupByBucket_snoc (this : t) (pages : list Page.t) (page : Page.t) :
  groupByBucket this (pages ++ [page])
  = push (groupByBucket this pages) (classify this page) page.
Proof. unfold groupByBucket. now rewrite fold_left_app. Qed.

(** X5.  [groupByBucket] puts every page into the group of its own
    bucket and keeps the order of the pages; the five counts of
    [getBucketDistribution] add up to the number of pages. *)
Theorem groups_partition_the_pages (this : t) (pages : list Page.t) :
  (forall b, groupByBucket this pages b
             = filter (fun page => ActionBucket_eqb (classify this page) b) pages) /\
  (getBucketDistribution this pages CTR_FIX
   + getBucketDistribution this pages STRIKING_DISTANCE
   + getBucketDistribution this pages RELEVANCE_REBUILD
   + getBucketDistribution this pages LOCAL_BOOST
   + getBucketDistribution this pages MONITOR = List.length pages)%nat.
Proof.
  assert (Hg : forall b, groupByBucket this pages b
                 = filter (fun page => ActionBucket_eqb (classify this page) b) pages).
  { induction pages as [| page pages IH] using rev_ind; intros b.
    - reflexivity.
    - rewrite groupByBucket_snoc, filter_app. unfold push. simpl.
      rewrite IH. destruct (ActionBucket_eqb (classify this page) b).
      + reflexivity.
      + now rewrite app_nil_r. }
  split; [exact Hg |].
  unfold getBucketDistribution. rewrite !Hg. clear Hg.
  induction pages as [| page pages IH]; simpl.
  - reflexivity.
  - destruct (classify this page); simpl; lia.
Qed.

End BucketMore.

(** ** Normalised scores *)

Module ScorerMore.
Import OpportunityScorer.
Local Open Scope R_scope.

Lemma clamped_log_none (x : Q) (d : R) :
  clamped_log x d = None <-> (x < 0)%Q.
Proof.
  unfold clamped_log. destruct (Num.ltb x 0) eqn:E.
  - apply ArrProps.ltb_true in E. tauto.
  - apply ArrProps.ltb_false in E.
    split; [destruct (Num.is_zero x); discriminate | intros H; Lqa.lra].
Qed.

(** X6.  Every normalised score that is a number lies in [0, 1]; the
    position, click-through gap and freshness scores always are numbers,
    and the impression and conversion scores are NaN exactly for counts
    below -1. *)
Theorem normalized_scores_are_unit (this : t) (page : Page.t) :
  let n := getNormalizedScores this page in
  (forall v, In (Some v) [n_impressions n; n_position n; n_ctrGap n;
                          n_conversions n; n_freshness n] -> 0 <= v <= 1) /\
  n_position n <> None /\ n_ctrGap n <> None /\ n_freshness n <> None /\
  (n_impressions n = None <-> (Page.impressions page < -1)%Q) /\
  (n_conversions n = None <-> (Page.conversions page < -1)%Q).
Proof.
  cbv zeta. unfold getNormalizedScores. cbn [n_impressions n_position n_ctrGap
    n_conversions n_freshness].
  split; [| split; [| split; [| split; [| split]]]].
  - intros v [H | [H | [H | [H | [H | []]]]]].
    + now apply ScorerProps.clamped_log_unit in H.
    + unfold normalizePosition in H. injection H as <-.
      apply ScorerProps.clamp_unit.
    + unfold normalizeCTRGap in H. destruct (Num.leb _ 0); injection H as <-;
        [Lra.lra | apply ScorerProps.clamp_unit].
    + now apply ScorerProps.clamped_log_unit in H.
    + unfold normalizeFreshness in H. injection H as <-.
      apply ScorerProps.clamp_unit.
  - discriminate.
  - unfold normalizeCTRGap. destruct (Num.leb _ 0); discriminate.
  - discriminate.
  - unfold normalizeImpressions. rewrite clamped_log_none.
    split; intros H; Lqa.lra.
  - unfold normalizeConversions. rewrite clamped_log_none.
    split; intros H; Lqa.lra.
Qed.

End ScorerMore.
